(** * Configuration resolution of the CLI: a shallow embedding of
    [src/config/resolve.ts] and the properties of its resolved build plan.

    Strings are lists of characters, paths are strings.  The file system, the
    media-type table, the URL parser and the helpers of [util.js] and
    [processor/*.js] that [resolve.ts] imports are gathered in a [World]
    record; the mutable state of a resolution (the theme index, the alias
    list, the touched temporary files, the warnings, the allocation counter
    of theme objects) is threaded through a state-and-error monad. *)

From Stdlib Require Import List Ascii String Bool Arith Lia DecimalString.
Import ListNotations.
Local Open Scope list_scope.

(** ** Strings *)

Abbreviation str := (list ascii).

Definition lit (s : string) : str := list_ascii_of_string s.

Definition is_slash (c : ascii) : bool := Ascii.eqb c "/".
Definition is_backslash (c : ascii) : bool := Ascii.eqb c "\".

Fixpoint str_eqb (a b : str) : bool :=
  match a, b with
  | [], [] => true
  | x :: a', y :: b' => Ascii.eqb x y && str_eqb a' b'
  | _, _ => false
  end.

(** [s.startsWith(p)] *)
Fixpoint startsWith (p s : str) : bool :=
  match p, s with
  | [], _ => true
  | x :: p', y :: s' => Ascii.eqb x y && startsWith p' s'
  | _ :: _, [] => false
  end.

(** [s.endsWith(p)] *)
Definition endsWith (p s : str) : bool := startsWith (rev p) (rev s).

(** [s.includes(p)] *)
Fixpoint includes (p s : str) : bool :=
  startsWith p s ||
  match s with
  | [] => false
  | _ :: s' => includes p s'
  end.

(** [s.replace(/<suffix>$/, repl)] for a literal suffix *)
Definition replace_suffix (suffix repl s : str) : str :=
  if endsWith suffix s
  then firstn (List.length s - List.length suffix) s ++ repl
  else s.

(** Truthiness of a JavaScript string: only the empty string is falsy. *)
Definition truthy (s : str) : bool :=
  match s with [] => false | _ :: _ => true end.

(** [a || b] on optional strings ([undefined] and [''] are falsy). *)
Definition or_str (a b : option str) : option str :=
  match a with
  | Some (_ :: _) => a
  | _ => b
  end.

(** ** Paths: [upath] over Node's POSIX [path] *)

Module Path.

(** [split] cuts a string at every slash; [join_segs] is its inverse. *)
Fixpoint split (l : str) : list str :=
  match l with
  | [] => [[]]
  | c :: r =>
      if is_slash c then [] :: split r
      else match split r with
           | [] => [[c]]
           | h :: t => (c :: h) :: t
           end
  end.

Fixpoint join_segs (segs : list str) : str :=
  match segs with
  | [] => []
  | s :: rest =>
      match rest with
      | [] => s
      | _ :: _ => s ++ "/"%char :: join_segs rest
      end
  end.

Definition unbackslash (c : ascii) : ascii :=
  if is_backslash c then "/"%char else c.

Fixpoint collapse (prev_slash : bool) (l : str) : str :=
  match l with
  | [] => []
  | c :: r =>
      if is_slash c
      then (if prev_slash then collapse true r else c :: collapse true r)
      else c :: collapse false r
  end.

(** upath's [toUnix]: backslashes become slashes, then every run of slashes
    that does not start the string becomes one slash. *)
Definition toUnix (p : str) : str :=
  match map unbackslash p with
  | [] => []
  | c :: r => c :: collapse false r
  end.

Definition is_dot (s : str) : bool := str_eqb s (lit ".").
Definition is_dotdot (s : str) : bool := str_eqb s (lit "..").

(** Node's [normalizeString], segment by segment; [stack] holds the kept
    segments, last first. *)
Fixpoint norm_segs (allowAbove : bool) (stack segs : list str) : list str :=
  match segs with
  | [] => rev stack
  | s :: rest =>
      match s with
      | [] => norm_segs allowAbove stack rest
      | _ :: _ =>
          if is_dot s then norm_segs allowAbove stack rest
          else if is_dotdot s then
            match stack with
            | top :: stack' =>
                if is_dotdot top
                then norm_segs allowAbove
                       (if allowAbove then s :: stack else stack) rest
                else norm_segs allowAbove stack' rest
            | [] =>
                norm_segs allowAbove (if allowAbove then [s] else []) rest
            end
          else norm_segs allowAbove (s :: stack) rest
      end
  end.

Definition normalizeString (allowAbove : bool) (p : str) : str :=
  join_segs (norm_segs allowAbove [] (split p)).

Definition isAbsolute (p : str) : bool :=
  match p with
  | c :: _ => is_slash c
  | [] => false
  end.

(** The loop of [path.resolve], from the last argument to the first, which
    stops at the first absolute one; empty arguments are skipped. *)
Fixpoint gather (args : list str) : str * bool :=
  match args with
  | [] => ([], false)
  | a :: rest =>
      let '(r, abs) := gather rest in
      if abs then (r, true)
      else match a with
           | [] => (r, false)
           | _ :: _ => (a ++ "/"%char :: r, isAbsolute a)
           end
  end.

(** [path.posix.resolve(...args)] in a process whose working directory is
    [cwd]. *)
Definition posix_resolve (cwd : str) (args : list str) : str :=
  let '(r, abs) := gather (cwd :: args) in
  let res := normalizeString (negb abs) r in
  if abs then "/"%char :: res
  else match res with
       | [] => lit "."
       | _ :: _ => res
       end.

(** [upath.resolve(...args)] *)
Definition resolve (cwd : str) (args : list str) : str :=
  toUnix (posix_resolve cwd (map toUnix args)).

(** [path.posix.normalize(p)] *)
Definition posix_normalize (p : str) : str :=
  match p with
  | [] => lit "."
  | _ :: _ =>
      let abs := isAbsolute p in
      let trailing := endsWith (lit "/") p in
      let res := normalizeString (negb abs) p in
      match res with
      | [] => if abs then lit "/" else if trailing then lit "./" else lit "."
      | _ :: _ =>
          let res' := if trailing then res ++ lit "/" else res in
          if abs then "/"%char :: res' else res'
      end
  end.

(** [path.posix.join(...args)] *)
Definition posix_join (args : list str) : str :=
  match filter truthy args with
  | [] => lit "."
  | (_ :: _) as parts => posix_normalize (join_segs parts)
  end.

(** [upath.join(...args)] *)
Definition join (args : list str) : str :=
  toUnix (posix_join (map toUnix args)).

Fixpoint dropWhile (f : ascii -> bool) (l : str) : str :=
  match l with
  | [] => []
  | c :: r => if f c then dropWhile f r else l
  end.

Fixpoint takeWhile (f : ascii -> bool) (l : str) : str :=
  match l with
  | [] => []
  | c :: r => if f c then c :: takeWhile f r else []
  end.

Definition not_slash (c : ascii) : bool := negb (is_slash c).

(** [path.posix.basename(p)]: the last run of non-slash characters. *)
Definition posix_basename (p : str) : str :=
  rev (takeWhile not_slash (dropWhile is_slash (rev p))).

(** [upath.basename(p)] *)
Definition basename (p : str) : str := toUnix (posix_basename (toUnix p)).

(** [path.posix.dirname(p)]: the scan runs over the indices from the end
    down to 1, so the first character is kept apart. *)
Definition posix_dirname (p : str) : str :=
  match p with
  | [] => lit "."
  | c :: t =>
      let root := if is_slash c then lit "/" else lit "." in
      match dropWhile is_slash (rev t) with
      | [] => root
      | (_ :: _) as t1 =>
          match dropWhile not_slash t1 with
          | [] => root
          | _ :: before =>
              match before with
              | [] => if is_slash c then lit "//" else [c]
              | _ :: _ => c :: rev before
              end
          end
      end
  end.

(** [upath.dirname(p)] *)
Definition dirname (p : str) : str := toUnix (posix_dirname (toUnix p)).

Fixpoint strip_common (a b : list str) : list str * list str :=
  match a, b with
  | x :: a', y :: b' =>
      if str_eqb x y then strip_common a' b' else (a, b)
  | _, _ => (a, b)
  end.

Definition abs_segs (p : str) : list str :=
  norm_segs false [] (split p).

(** [path.posix.relative(from, to)]: both are resolved, the common leading
    segments are dropped, and every segment left of [from] becomes [..]. *)
Definition posix_relative (cwd from to : str) : str :=
  let from' := posix_resolve cwd [from] in
  let to' := posix_resolve cwd [to] in
  if str_eqb from' to' then []
  else
    let '(fs, ts) := strip_common (abs_segs from') (abs_segs to') in
    join_segs (map (fun _ => lit "..") fs ++ ts).

(** [upath.relative(from, to)] *)
Definition relative (cwd from to : str) : str :=
  toUnix (posix_relative cwd (toUnix from) (toUnix to)).

End Path.

(** ** Paths in normal form *)

Module PathSpec.
Import Path.

Definition plain (c : ascii) : Prop := is_slash c = false /\ is_backslash c = false.

(** A segment that [normalizeString] keeps as it is. *)
Definition clean (s : str) : Prop :=
  s <> [] /\ Forall plain s /\ is_dot s = false /\ is_dotdot s = false.

(** An absolute path in normal form: a slash, then clean segments. *)
Definition normal_abs (p : str) : Prop :=
  exists segs, Forall clean segs /\ p = "/"%char :: join_segs segs.

(** The absolute path whose segments are [segs]. *)
Definition abs_path (segs : list str) : str := "/"%char :: join_segs segs.

(** The part of a path before its last segment, as the path is written. *)
Definition dir_prefix (segs : list str) : str :=
  match segs with
  | [] => []
  | _ :: _ => abs_path segs
  end.

(** What [path.resolve] gathers behind an absolute directory when the
    relative segments [sub] and the name [name] follow it. *)
Definition below_tail (sub : list str) (name : str) : str :=
  match join_segs sub with
  | [] => name ++ ["/"%char]
  | (_ :: _) as js => js ++ "/"%char :: name ++ ["/"%char]
  end.

End PathSpec.



(** ** Data model *)

Inductive ImportPath :=
| ImportOne (p : str)
| ImportMany (ps : list str).

(** [ParsedTheme = UriTheme | FileTheme | PackageTheme] *)
Inductive ParsedTheme :=
| UriTheme (name location : str)
| FileTheme (name source location : str)
| PackageTheme (name specifier location : str) (importPath : option ImportPath).

(** A theme record is a JavaScript object: [obj_ref] is its identity, given
    when the object literal is evaluated, and [obj_val] its fields, which are
    never assigned afterwards.  The [Set<ParsedTheme>] of the theme index and
    [===] compare identities. *)
Record ThemeObj := { obj_ref : nat; obj_val : ParsedTheme }.

Definition same_object (a b : ThemeObj) : bool := obj_ref a =? obj_ref b.

(** [manuscriptMediaTypes] *)
Inductive ManuscriptMediaType := TextMarkdown | TextHtml | ApplicationXhtml.

Definition manuscriptMediaTypes : list ManuscriptMediaType :=
  [TextMarkdown; TextHtml; ApplicationXhtml].

Definition media_type_name (m : ManuscriptMediaType) : str :=
  match m with
  | TextMarkdown => lit "text/markdown"
  | TextHtml => lit "text/html"
  | ApplicationXhtml => lit "application/xhtml+xml"
  end.

(** [EntrySource = FileEntrySource | UriEntrySource] *)
Inductive EntrySource :=
| FileEntrySource (pathname : str) (contentType : ManuscriptMediaType)
| UriEntrySource (href rootDir : str).

Inductive RelValue :=
| RelOne (r : str)
| RelMany (rs : list str).

Record ManuscriptEntry := {
  m_contentType : ManuscriptMediaType;
  m_title : option str;
  m_themes : list ThemeObj;
  m_source : EntrySource;
  m_target : str;
  m_rel : option RelValue }.

(** The two transform hooks of [ContentsEntry] are functions of the project
    file, copied as they are; they are left out of the record. *)
Record ContentsEntry := {
  c_title : option str;
  c_themes : list ThemeObj;
  c_template : option EntrySource;
  c_target : str;
  c_tocTitle : str;
  c_sectionDepth : nat;
  c_pageBreakBefore : option str;
  c_pageCounterReset : option nat }.

Record CoverEntry := {
  v_title : option str;
  v_themes : list ThemeObj;
  v_template : option EntrySource;
  v_target : str;
  v_coverImageSrc : str;
  v_coverImageAlt : str;
  v_pageBreakBefore : option str }.

Inductive ParsedEntry :=
| Manuscript (e : ManuscriptEntry)
| Contents (e : ContentsEntry)
| Cover (e : CoverEntry).

Definition entry_themes (e : ParsedEntry) : list ThemeObj :=
  match e with
  | Manuscript m => m_themes m
  | Contents c => c_themes c
  | Cover v => v_themes v
  end.

Definition entry_target (e : ParsedEntry) : str :=
  match e with
  | Manuscript m => m_target m
  | Contents c => c_target c
  | Cover v => v_target v
  end.

Definition entry_title (e : ParsedEntry) : option str :=
  match e with
  | Manuscript m => m_title m
  | Contents c => c_title c
  | Cover v => v_title v
  end.

Definition is_contents (e : ParsedEntry) : bool :=
  match e with Contents _ => true | _ => false end.

Definition is_cover (e : ParsedEntry) : bool :=
  match e with Cover _ => true | _ => false end.

(** [ViewerInputConfig] *)
Inductive ViewerInputConfig :=
| WebPublicationManifestConfig (manifestPath : str)
    (needToGenerateManifest : bool)
| EpubEntryConfig (epubPath epubTmpOutputDir : str)
| EpubOpfEntryConfig (epubOpfPath : str)
| WebBookEntryConfig (webbookEntryUrl : str).

Inductive RenderMode := RenderLocal | RenderDocker.
Inductive Preflight := PressReady | PressReadyLocal.

(** [OutputConfig = PdfOutput | WebPublicationOutput | EpubOutput] *)
Inductive OutputConfig :=
| PdfOutput (path : str) (renderMode : RenderMode)
    (preflight : option Preflight) (preflightOption : list str)
| WebPublicationOutput (path : str)
| EpubOutput (path : str) (version : str).

Definition output_path (o : OutputConfig) : str :=
  match o with
  | PdfOutput p _ _ _ => p
  | WebPublicationOutput p => p
  | EpubOutput p _ => p
  end.

Record ExportAlias := { alias_source : str; alias_target : str }.

Inductive InputFormat :=
| FmtMarkdown | FmtWebbook | FmtPubManifest | FmtEpub | FmtEpubOpf.

(** ** The project file and the inline options, as [resolve.ts] reads them *)

(** [string | ThemeObject] *)
Inductive ThemeSpec :=
| ThemeString (specifier : str)
| ThemeObject (specifier : str) (import : option ImportPath).

(** The [theme] field of an entry: one reference or an array of them. *)
Inductive ThemeField :=
| ThemeOne (t : ThemeSpec)
| ThemeMany (ts : list ThemeSpec).

(** [!!entry.theme]: an empty string is the only falsy reference. *)
Definition theme_field_truthy (f : ThemeField) : bool :=
  match f with
  | ThemeOne (ThemeString s) => truthy s
  | _ => true
  end.

(** [[entry.theme].flat()] *)
Definition theme_field_flat (f : ThemeField) : list ThemeSpec :=
  match f with
  | ThemeOne t => [t]
  | ThemeMany ts => ts
  end.

(** [EntryObject]: the fields [parseEntry] reads. *)
Record EntryObject := {
  e_rel : option RelValue;
  e_path : option str;
  e_output : option str;
  e_theme : option ThemeField;
  e_title : option str;
  e_imageSrc : option str;
  e_imageAlt : option str;
  e_pageBreakBefore : option str;
  e_pageCounterReset : option nat }.

Inductive OutputFormat := FormatPdf | FormatEpub | FormatWebpub.

(** One declared output.  A key of [PdfOutput] that the target carries
    ([Some]) overrides the default in [{...defaultPdfOptions, ...target}];
    [t_preflight = Some None] is a declared [preflight: null]. *)
Record OutputTarget := {
  t_path : str;
  t_format : OutputFormat;
  t_renderMode : option RenderMode;
  t_preflight : option (option Preflight);
  t_preflightOption : option (list str) }.

(** [config.cover]; [cv_htmlPath] is [None] when the key is absent,
    [Some None] when it is present and not a string ([false]). *)
Record CoverConfig := {
  cv_src : str;
  cv_name : option str;
  cv_htmlPath : option (option str) }.

(** [config.toc]; the transform hooks are left out as in [ContentsEntry]. *)
Record TocConfig := {
  toc_title : option str;
  toc_htmlPath : option str;
  toc_sectionDepth : option nat }.

Record ServerConfig := {
  srv_host : option (bool + str);
  srv_port : option nat }.

(** [ParsedBuildTask]: the fields that decide entries, themes, outputs,
    aliases and titles.  The scalar options that [resolveTaskConfig] copies
    into the plan with a default (crop marks, timeout, browser, proxy, log
    level, viewer, vite passthrough, asset patterns) take no part in them and
    are left out. *)
Record ParsedBuildTask := {
  cfg_entryContext : option str;
  cfg_workspaceDir : option str;
  cfg_temporaryFilePrefix : option str;
  cfg_size : option str;
  cfg_theme : option (list ThemeSpec);
  cfg_pressReady : bool;
  cfg_output : option (list OutputTarget);
  cfg_title : option str;
  cfg_author : option str;
  cfg_cover : option CoverConfig;
  cfg_toc : option TocConfig;
  cfg_tocTitle : option str;
  cfg_server : option ServerConfig;
  cfg_entry : list EntryObject }.

Record InputOption := { in_format : InputFormat; in_entry : str }.

(** [InlineOptions] *)
Record InlineOptions := {
  opt_cwd : option str;
  opt_config : option str;
  opt_input : option InputOption }.

Inductive PageSize :=
| SizeFormat (format : str)
| SizeWH (width height : str).

Record ResolvedCover := {
  rc_src : str;
  rc_name : str;
  rc_htmlPath : option str }.

(** [CommonOpts], with the mutable theme index held in the state. *)
Record CommonOpts := {
  context : str;
  entryContextDir : str;
  workspaceDir : str;
  themesDir : str;
  outputs : list OutputConfig;
  rootThemes : list ThemeObj;
  temporaryFilePrefix : str;
  size : option PageSize;
  cover : option ResolvedCover;
  server_host : bool + str;
  server_port : nat }.

(** [ResolvedTaskConfig]; [themeIndexes] and the temporary files are read
    from the final state. *)
Record ResolvedTaskConfig := {
  r_common : CommonOpts;
  r_entries : list ParsedEntry;
  r_input_format : InputFormat;
  r_input_entry : str;
  r_viewerInput : ViewerInputConfig;
  r_exportAliases : list ExportAlias;
  r_title : option str;
  r_author : option str }.

(** ** The environment *)

Inductive PackageType := PkgDirectory | PkgOther.

(** What [parsePackageName] of [processor/theme.js] returns. *)
Record PackageSpec := {
  pkg_registry : bool;
  pkg_type : PackageType;
  pkg_name : option str;
  pkg_fetchSpec : option str }.

(** A value of the [theme] key of a manuscript's front matter. *)
Inductive MetaItem :=
| MetaString (s : str)
| MetaObject (specifier : str) (import : option ImportPath)
| MetaNull
| MetaOther (truthy_value : bool).

Inductive MetaTheme :=
| MetaOne (i : MetaItem)
| MetaMany (l : list MetaItem).

(** What [readMarkdownMetadata] returns: [title] and [vfm?.theme]. *)
Record MarkdownMetadata := {
  md_title : option str;
  md_theme : option MetaTheme }.

(** A parsed WHATWG URL. *)
Record Url := {
  url_protocol : str;
  url_host : str;
  url_pathname : str }.

(** Constants of [const.js]. *)
Record Consts := {
  COVER_HTML_FILENAME : str;
  COVER_HTML_IMAGE_ALT : str;
  EPUB_OUTPUT_VERSION : str;
  MANIFEST_FILENAME : str;
  TOC_FILENAME : str;
  TOC_TITLE : str }.

(** Everything [resolve.ts] reads from outside: the process, the file
    system, the libraries and the helper modules it imports. *)
Record World := {
  consts : Consts;
  (** [process.cwd()] *)
  cwd : str;
  (** [Date.now()], printed *)
  now : str;
  (** the files present when resolution starts *)
  file_exists : str -> bool;
  (** [fs.readFileSync(p, 'utf8')]; [None] when it throws *)
  read_file : str -> option str;
  (** [lookup] of mime-types; [None] is its [false] *)
  mime : str -> option str;
  (** [readMarkdownMetadata] of [processor/markdown.js]; [None] when it
      throws *)
  readMarkdownMetadata : str -> option MarkdownMetadata;
  (** [parsePackageName(specifier, cwd)] of [processor/theme.js] *)
  parsePackageName : str -> str -> option PackageSpec;
  (** [JSON.parse(fs.readFileSync(p, 'utf8')).name]; the outer [None] when
      reading or parsing throws *)
  package_json_name : str -> option (option str);
  (** [readJSON(p)] of [util.js], its [name] and [author] *)
  readJSON : str -> option (option str * option str);
  (** [isValidUri] of [util.js] *)
  isValidUri : str -> bool;
  (** [pathEquals] of [util.js] *)
  pathEquals : str -> str -> bool;
  (** [new URL(s)] and [new URL(s, 'a://dummy')]; [None] when they throw *)
  new_URL : str -> option Url;
  new_URL_dummy : str -> option Url;
  (** [pathToFileURL(p)] *)
  pathToFileURL : str -> Url;
  (** the [href] of a URL *)
  url_href : Url -> str }.

(** ** Errors, state and the resolution monad *)

Inductive Error :=
| MkError (message : str)
| MissingFile (path : str) (errorMessage : option str)
| TypeError (message : str)
| ReadError (path : str).

Definition error_message (e : Error) : str :=
  match e with
  | MkError m => m
  | MissingFile p None => p
  | MissingFile _ (Some m) => m
  | TypeError m => m
  | ReadError p => p
  end.

Record State := {
  next_ref : nat;
  themeIndexes : list ThemeObj;
  exportAliases : list ExportAlias;
  touched : list str;
  warnings : list str }.

Definition initial_state : State :=
  {| next_ref := 0; themeIndexes := []; exportAliases := [];
     touched := []; warnings := [] |}.

Inductive Res (A : Type) :=
| Ok (a : A)
| Err (e : Error).

Arguments Ok {A} a.
Arguments Err {A} e.

Definition M (A : Type) : Type := State -> Res A * State.

Definition ret {A} (a : A) : M A := fun s => (Ok a, s).

Definition bind {A B} (m : M A) (k : A -> M B) : M B :=
  fun s =>
    match m s with
    | (Ok a, s') => k a s'
    | (Err e, s') => (Err e, s')
    end.

Definition throw {A} (e : Error) : M A := fun s => (Err e, s).

(** [try { m } catch (error) { h(error) }] *)
Definition try_catch {A} (m : M A) (h : Error -> M A) : M A :=
  fun s =>
    match m s with
    | (Ok a, s') => (Ok a, s')
    | (Err e, s') => h e s'
    end.

Declare Scope monad_scope.
Delimit Scope monad_scope with monad.
Notation "x <- c ;; k" := (bind c (fun x => k))
  (at level 61, c at next level, right associativity) : monad_scope.
Notation "c ;;; k" := (bind c (fun _ => k))
  (at level 61, right associativity) : monad_scope.
Local Open Scope monad_scope.

Fixpoint mapM {A B} (f : A -> M B) (l : list A) : M (list B) :=
  match l with
  | [] => ret []
  | a :: l' =>
      b <- f a ;;
      bs <- mapM f l' ;;
      ret (b :: bs)
  end.

(** Evaluating an object literal of a theme gives a fresh object. *)
Definition new_theme (v : ParsedTheme) : M ThemeObj :=
  fun s =>
    (Ok {| obj_ref := next_ref s; obj_val := v |},
     {| next_ref := S (next_ref s);
        themeIndexes := themeIndexes s;
        exportAliases := exportAliases s;
        touched := touched s;
        warnings := warnings s |}).

(** [Set.prototype.add]: an object already in the set is not added again. *)
Definition set_add (t : ThemeObj) (idx : list ThemeObj) : list ThemeObj :=
  if existsb (same_object t) idx then idx else idx ++ [t].

(** [themes.forEach((t) => themeIndexes.add(t))] *)
Definition add_themes (ts : list ThemeObj) : M unit :=
  fun s =>
    (Ok tt,
     {| next_ref := next_ref s;
        themeIndexes := fold_left (fun idx t => set_add t idx) ts
                          (themeIndexes s);
        exportAliases := exportAliases s;
        touched := touched s;
        warnings := warnings s |}).

(** [exportAliases.push({ source, target })] *)
Definition push_alias (a : ExportAlias) : M unit :=
  fun s =>
    (Ok tt,
     {| next_ref := next_ref s;
        themeIndexes := themeIndexes s;
        exportAliases := exportAliases s ++ [a];
        touched := touched s;
        warnings := warnings s |}).

(** [const exportAliases = []]: each composer starts its own alias list. *)
Definition fresh_aliases (s : State) : State :=
  {| next_ref := next_ref s;
     themeIndexes := themeIndexes s;
     exportAliases := [];
     touched := touched s;
     warnings := warnings s |}.

Definition new_exportAliases : M unit :=
  fun s => (Ok tt, fresh_aliases s).

(** Modelled from the spec: [touchTmpFile] of [util.js] is not among the
    sources; it touches an empty placeholder at the given path, so that
    downstream existence checks succeed. *)
Definition touchTmpFile (p : str) : M unit :=
  fun s =>
    (Ok tt,
     {| next_ref := next_ref s;
        themeIndexes := themeIndexes s;
        exportAliases := exportAliases s;
        touched := touched s ++ [p];
        warnings := warnings s |}).

(** Modelled from the spec: [logWarn] of [util.js] is not among the
    sources; it logs a warning, kept here in the order of the calls.  The
    colouring of the message by chalk is left out. *)
Definition logWarn (msg : str) : M unit :=
  fun s =>
    (Ok tt,
     {| next_ref := next_ref s;
        themeIndexes := themeIndexes s;
        exportAliases := exportAliases s;
        touched := touched s;
        warnings := warnings s ++ [msg] |}).

(** [a ?? b] *)
Definition nullish {A} (a b : option A) : option A :=
  match a with
  | Some _ => a
  | None => b
  end.

Definition opt_truthy (a : option str) : bool :=
  match a with
  | Some s => truthy s
  | None => false
  end.

(** A double quote, for messages that quote a field name. *)
Definition dquote : str := [ascii_of_nat 34].

Definition nat_to_str (n : nat) : str :=
  lit (NilEmpty.string_of_uint (Nat.to_uint n)).

Fixpoint split_by (sep : ascii) (l : str) : list str :=
  match l with
  | [] => [[]]
  | c :: r =>
      if Ascii.eqb c sep then [] :: split_by sep r
      else match split_by sep r with
           | [] => [[c]]
           | h :: t => (c :: h) :: t
           end
  end.

Fixpoint strip_prefix (p s : str) : option str :=
  match p, s with
  | [], _ => Some s
  | x :: p', y :: s' => if Ascii.eqb x y then strip_prefix p' s' else None
  | _ :: _, [] => None
  end.

Definition not_lt (c : ascii) : bool := negb (Ascii.eqb c "<").

(** A match of the title pattern (an opening title tag, characters other
    than [<], a closing title tag) that starts at the head of [s]. *)
Definition title_at (s : str) : option str :=
  match strip_prefix (lit "<title>") s with
  | Some rest =>
      if startsWith (lit "</title>") (Path.dropWhile not_lt rest)
      then Some (Path.takeWhile not_lt rest)
      else None
  | None => None
  end.

(** The first group of [content.match] on the title pattern: the leftmost
    match. *)
Fixpoint match_title (s : str) : option str :=
  match title_at s with
  | Some t => Some t
  | None =>
      match s with
      | [] => None
      | _ :: s' => match_title s'
      end
  end.

(** [/^https?:/.test(s)] *)
Definition is_http (s : str) : bool :=
  startsWith (lit "http:") s || startsWith (lit "https:") s.

(** [/\.html?$/.test(s)] *)
Definition ends_html (s : str) : bool :=
  endsWith (lit ".htm") s || endsWith (lit ".html") s.

Definition lower (c : ascii) : ascii :=
  let n := nat_of_ascii c in
  if (65 <=? n) && (n <=? 90) then ascii_of_nat (n + 32) else c.

(** [/^https?:/i.test(s)] *)
Definition is_http_i (s : str) : bool := is_http (map lower s).

(** [isManuscriptMediaType]: the media type found, when it is one of
    [manuscriptMediaTypes]; [mime] answers [false] as [None]. *)
Definition isManuscriptMediaType (mediaType : option str)
  : option ManuscriptMediaType :=
  match mediaType with
  | Some t =>
      if truthy t
      then find (fun m => str_eqb (media_type_name m) t) manuscriptMediaTypes
      else None
  | None => None
  end.

(** [`${contentType}`] for [string | false] *)
Definition show_media_type (mediaType : option str) : str :=
  match mediaType with
  | Some t => t
  | None => lit "false"
  end.

(** [`${entry}`]: an entry declaration is a plain object, and the string of
    a plain object is the same for every object. *)
Definition entry_to_string (entry : EntryObject) : str :=
  lit "[object Object]".

(** ** The resolver *)

Section Resolver.

Variable w : World.

Definition resolve (args : list str) : str := Path.resolve (cwd w) args.
Definition relative (from to : str) : str := Path.relative (cwd w) from to.

(** A file is at [p]: a file of the world or a touched placeholder. *)
Definition present (s : State) (p : str) : bool :=
  file_exists w p || existsb (str_eqb p) (touched s).

(** [fs.existsSync(p)] *)
Definition existsSync (p : str) : M bool :=
  fun s => (Ok (present s p), s).

(** Modelled from the spec: [statFileSync] of [util.js] is not among the
    sources; it fails with the missing-required-file error, which carries the
    caller's message when one is given, if no file is at the path. *)
Definition statFileSync (p : str) (errorMessage : option str) : M unit :=
  ex <- existsSync p ;;
  if ex then ret tt else throw (MissingFile p errorMessage).

(** [parseTheme]: parse theme locator *)
Definition parseTheme (theme : ThemeSpec)
    (context workspaceDir themesDir : str) : M ThemeObj :=
  let '(specifier, importPath) :=
    match theme with
    | ThemeString s => (s, None)
    | ThemeObject s i => (s, i)
    end in
  (* url *)
  if isValidUri w specifier then
    new_theme (UriTheme (Path.basename specifier) specifier)
  else
    (* bare .css file *)
    let stylePath := resolve [context; specifier] in
    ex <- existsSync stylePath ;;
    if ex && endsWith (lit ".css") stylePath then
      let sourceRelPath := relative context stylePath in
      new_theme (FileTheme (Path.basename specifier) stylePath
                   (resolve [workspaceDir; sourceRelPath]))
    else
      (* node_modules, local pkg *)
      match parsePackageName w specifier context with
      | None => throw (MkError (lit "Invalid package name: " ++ specifier))
      | Some parsed =>
          if negb (pkg_registry parsed) &&
             negb (match pkg_type parsed with
                   | PkgDirectory => true
                   | PkgOther => false
                   end)
          then throw (MkError
                 (lit "This package specifier is not allowed: " ++ specifier))
          else
            named <-
              match pkg_type parsed, pkg_fetchSpec parsed with
              | PkgDirectory, Some ((_ :: _) as fetchSpec) =>
                  let pkgJsonPath :=
                    Path.join [fetchSpec; lit "package.json"] in
                  ex' <- existsSync pkgJsonPath ;;
                  if ex' then
                    match package_json_name w pkgJsonPath with
                    | Some n => ret (n, fetchSpec)
                    | None => throw (ReadError pkgJsonPath)
                    end
                  else ret (pkg_name parsed, specifier)
              | _, _ => ret (pkg_name parsed, specifier)
              end ;;
            match named with
            | (Some ((_ :: _) as name), resolvedSpecifier) =>
                new_theme (PackageTheme name resolvedSpecifier
                             (Path.join [themesDir; lit "node_modules"; name])
                             importPath)
            | (_, _) =>
                throw (MkError
                  (lit "Could not determine the package name: " ++ specifier))
            end
      end.

(** [parsePageSize] *)
Definition parsePageSize (size : str) : M PageSize :=
  match split_by "," size with
  | [] => throw (MkError (lit "Cannot parse size: " ++ size))
  | [width] =>
      if truthy width then ret (SizeFormat width)
      else throw (MkError (lit "Cannot parse size: " ++ size))
  | [width; height] =>
      if negb (truthy width)
      then throw (MkError (lit "Cannot parse size: " ++ size))
      else if truthy height then ret (SizeWH width height)
      else ret (SizeFormat width)
  | _ :: _ :: _ :: _ => throw (MkError (lit "Cannot parse size: " ++ size))
  end.

Record FileMetadata := {
  fm_title : option str;
  fm_themes : option (list ThemeObj) }.

Definition meta_truthy (t : MetaTheme) : bool :=
  match t with
  | MetaOne (MetaString s) => truthy s
  | MetaOne (MetaObject _ _) => true
  | MetaOne MetaNull => false
  | MetaOne (MetaOther b) => b
  | MetaMany _ => true
  end.

(** [[metadata.vfm.theme].flat().filter(...)]: the strings that are not
    empty and the objects are kept. *)
Definition meta_theme_specs (t : MetaTheme) : list ThemeSpec :=
  let items := match t with MetaOne i => [i] | MetaMany l => l end in
  flat_map (fun i =>
    match i with
    | MetaString ((_ :: _) as s) => [ThemeString s]
    | MetaObject s imp => [ThemeObject s imp]
    | _ => []
    end) items.

(** [parseFileMetadata] *)
Definition parseFileMetadata (contentType : ManuscriptMediaType)
    (sourcePath workspaceDir : str) (themesDir : option str)
  : M FileMetadata :=
  let sourceDir := Path.dirname sourcePath in
  match contentType with
  | TextMarkdown =>
      match readMarkdownMetadata w sourcePath with
      | None => throw (ReadError sourcePath)
      | Some metadata =>
          match md_theme metadata, themesDir with
          | Some t, Some ((_ :: _) as themesDir') =>
              if meta_truthy t then
                themes <- mapM (fun theme =>
                            parseTheme theme sourceDir workspaceDir themesDir')
                          (meta_theme_specs t) ;;
                ret {| fm_title := md_title metadata;
                       fm_themes := Some themes |}
              else ret {| fm_title := md_title metadata; fm_themes := None |}
          | _, _ => ret {| fm_title := md_title metadata; fm_themes := None |}
          end
      end
  | _ =>
      match read_file w sourcePath with
      | None => throw (ReadError sourcePath)
      | Some content =>
          let title :=
            match match_title content with
            | Some ((_ :: _) as t) => Some t
            | _ => None
            end in
          ret {| fm_title := title; fm_themes := None |}
      end
  end.

(** The [outputs] of [resolveTaskConfig]: the Output Target Normalizer. *)
Definition defaultPdfPreflight (pressReady : bool) : option Preflight :=
  if pressReady then Some PressReady else None.

Definition resolveOutput (context : str) (pressReady : bool)
    (target : OutputTarget) : OutputConfig :=
  let outputPath := resolve [context; t_path target] in
  match t_format target with
  | FormatPdf =>
      PdfOutput outputPath
        (match t_renderMode target with Some m => m | None => RenderLocal end)
        (match t_preflight target with
         | Some p => p
         | None => defaultPdfPreflight pressReady
         end)
        (match t_preflightOption target with Some o => o | None => [] end)
  | FormatEpub => EpubOutput outputPath (EPUB_OUTPUT_VERSION (consts w))
  | FormatWebpub => WebPublicationOutput outputPath
  end.

Definition resolveOutputs (context : str) (config : ParsedBuildTask)
  : list OutputConfig :=
  match cfg_output config with
  | Some targets => map (resolveOutput context (cfg_pressReady config)) targets
  | None =>
      (* Outputs a pdf file if any output configuration is not set *)
      let filename :=
        if opt_truthy (cfg_title config)
        then match cfg_title config with
             | Some t => t ++ lit ".pdf"
             | None => lit "output.pdf"
             end
        else lit "output.pdf" in
      [PdfOutput (resolve [context; filename]) RenderLocal
         (defaultPdfPreflight (cfg_pressReady config)) []]
  end.

(** *** Project mode *)

Record TocDefaults := {
  td_tocTitle : str;
  td_target : str;
  td_sectionDepth : nat }.

Definition isContentsEntry (entry : EntryObject) : bool :=
  match e_rel entry with
  | Some (RelOne r) => str_eqb r (lit "contents")
  | _ => false
  end.

Definition isCoverEntry (entry : EntryObject) : bool :=
  match e_rel entry with
  | Some (RelOne r) => str_eqb r (lit "cover")
  | _ => false
  end.

Definition isArticleEntry (entry : EntryObject) : bool :=
  negb (isContentsEntry entry) && negb (isCoverEntry entry).

Definition rel_truthy (r : option RelValue) : option RelValue :=
  match r with
  | Some (RelOne []) => None
  | _ => r
  end.

Definition missing_cover_message : str :=
  lit "A CoverEntryObject is set in the entry list but a location of cover file is not set. Please set 'cover' property in your config file.".

Definition path_fallback_message (source : str) : str :=
  lit "The " ++ dquote ++ lit "path" ++ dquote ++
  lit " option is set but the file does not exist: " ++ source ++
  [ascii_of_nat 10] ++
  lit "Maybe you want to set the " ++ dquote ++ lit "output" ++ dquote ++
  lit " field instead.".

Section ProjectMode.

Variable otherConfig : CommonOpts.
Variable localOrigin : str.
Variable tocConfig : TocDefaults.
Variable projectTitle : option str.

(** [ensureCoverImage] *)
Definition ensureCoverImage (src : option str) : M (option str) :=
  match src with
  | Some ((_ :: _) as src') =>
      let absPath := resolve [entryContextDir otherConfig; src'] in
      (if truthy absPath
       then statFileSync absPath
              (Some (lit "Specified cover image does not exist"))
       else ret tt) ;;;
      ret (Some absPath)
  | _ => ret src
  end.

(** [getInputInfo] of [parseEntry] *)
Definition getInputInfo (entry : EntryObject) (entryPath : str)
  : M (EntrySource * option FileMetadata) :=
  if is_http entryPath then
    match new_URL w entryPath with
    | Some url =>
        ret (UriEntrySource entryPath
               (Path.join [workspaceDir otherConfig; url_host url]), None)
    | None => throw (TypeError (lit "Invalid URL"))
    end
  else if startsWith (lit "/") entryPath then
    ret (UriEntrySource
           (if truthy localOrigin then localOrigin ++ entryPath
            else entryPath)
           (Path.join [workspaceDir otherConfig; lit ".local"]), None)
  else
    let pathname := resolve [entryContextDir otherConfig; entryPath] in
    statFileSync pathname None ;;;
    let contentType := mime w pathname in
    match isManuscriptMediaType contentType with
    | None =>
        throw (MkError
          (lit "Invalid manuscript type " ++ show_media_type contentType ++
           lit " detected: " ++ entry_to_string entry))
    | Some contentType' =>
        metadata <- parseFileMetadata contentType' pathname
                      (workspaceDir otherConfig)
                      (Some (themesDir otherConfig)) ;;
        ret (FileEntrySource pathname contentType', Some metadata)
    end.

(** [getTargetPath] of [parseEntry] *)
Definition getTargetPath (source : EntrySource) : M str :=
  match source with
  | FileEntrySource pathname _ =>
      ret (resolve
             [workspaceDir otherConfig;
              replace_suffix (lit ".md") (lit ".html")
                (relative (entryContextDir otherConfig) pathname)])
  | UriEntrySource href rootDir =>
      match new_URL_dummy w href with
      | Some url =>
          let pathname := url_pathname url in
          let pathname' :=
            if negb (ends_html pathname)
            then replace_suffix (lit "/") [] pathname ++ lit "/index.html"
            else pathname in
          ret (Path.join [rootDir; pathname'])
      | None => throw (TypeError (lit "Invalid URL"))
      end
  end.

(** [entry.output = entry.path; entry.path = undefined] *)
Definition path_as_output (entry : EntryObject) : EntryObject :=
  {| e_rel := e_rel entry;
     e_path := None;
     e_output := e_path entry;
     e_theme := e_theme entry;
     e_title := e_title entry;
     e_imageSrc := e_imageSrc entry;
     e_imageAlt := e_imageAlt entry;
     e_pageBreakBefore := e_pageBreakBefore entry;
     e_pageCounterReset := e_pageCounterReset entry |}.

(** The first statement of [parseEntry]: a contents or cover entry whose
    [path] names no file has it moved to [output]. *)
Definition pathFallback (entry : EntryObject) : M EntryObject :=
  if (isContentsEntry entry || isCoverEntry entry) && opt_truthy (e_path entry)
  then
    match e_path entry with
    | Some p =>
        let source := resolve [entryContextDir otherConfig; p] in
        try_catch
          (statFileSync source None ;;; ret entry)
          (fun _ =>
             (* For backward compatibility, we allow missing files then
                assume that option as `output` field. *)
             logWarn (path_fallback_message source) ;;;
             ret (path_as_output entry))
    | None => ret entry
    end
  else ret entry.

(** [entry.path ? getInputInfo(entry.path) : undefined] *)
Definition optionalInputInfo (entry : EntryObject)
  : M (option (EntrySource * option FileMetadata)) :=
  match e_path entry with
  | Some ((_ :: _) as p) => i <- getInputInfo entry p ;; ret (Some i)
  | _ => ret None
  end.

(** [entry.output ? upath.resolve(workspaceDir, entry.output)
                  : inputInfo && getTargetPath(inputInfo)] *)
Definition declaredTarget (entry : EntryObject)
    (inputInfo : option (EntrySource * option FileMetadata))
  : M (option str) :=
  match e_output entry with
  | Some ((_ :: _) as o) => ret (Some (resolve [workspaceDir otherConfig; o]))
  | _ =>
      match inputInfo with
      | Some (source, _) => t <- getTargetPath source ;; ret (Some t)
      | None => ret None
      end
  end.

Definition metadata_of (inputInfo : option (EntrySource * option FileMetadata))
  : option FileMetadata :=
  match inputInfo with
  | Some (_, m) => m
  | None => None
  end.

Definition metadata_themes (m : option FileMetadata)
  : option (list ThemeObj) :=
  match m with
  | Some fm => fm_themes fm
  | None => None
  end.

Definition metadata_title (m : option FileMetadata) : option str :=
  match m with
  | Some fm => fm_title fm
  | None => None
  end.

(** The [themes] of an entry: the override of the entry, else the themes of
    the metadata, else [inherited]. *)
Definition entryThemes (entry : EntryObject) (m : option FileMetadata)
    (inherited : list ThemeObj) : M (list ThemeObj) :=
  match e_theme entry with
  | Some f =>
      if theme_field_truthy f then
        mapM (fun theme =>
                parseTheme theme (context otherConfig)
                  (workspaceDir otherConfig) (themesDir otherConfig))
             (theme_field_flat f)
      else
        ret (match metadata_themes m with Some ts => ts | None => inherited end)
  | None =>
      ret (match metadata_themes m with Some ts => ts | None => inherited end)
  end.

(** The collision check: a file source that is its own target is staged at
    a temporary sibling, aliased back to the target. *)
Definition stageIfSame (inputInfo : option (EntrySource * option FileMetadata))
    (target : str) : M str :=
  match inputInfo with
  | Some (FileEntrySource pathname _, _) =>
      if pathEquals w pathname target then
        let tmpPath :=
          resolve [Path.dirname target;
                   temporaryFilePrefix otherConfig ++ Path.basename target] in
        push_alias {| alias_source := tmpPath; alias_target := target |} ;;;
        touchTmpFile tmpPath ;;;
        ret tmpPath
      else ret target
  | _ => ret target
  end.

Definition template_of (inputInfo : option (EntrySource * option FileMetadata))
  : option EntrySource :=
  match inputInfo with
  | Some (source, _) => Some source
  | None => None
  end.

Definition parseContentsEntry (entry : EntryObject) : M ParsedEntry :=
  inputInfo <- optionalInputInfo entry ;;
  let metadata := metadata_of inputInfo in
  target <- declaredTarget entry inputInfo ;;
  themes <- entryThemes entry metadata (rootThemes otherConfig) ;;
  add_themes themes ;;;
  let target' :=
    match target with Some t => t | None => td_target tocConfig end in
  target'' <- stageIfSame inputInfo target' ;;
  ret (Contents
         {| c_title :=
              nullish (e_title entry)
                (nullish (metadata_title metadata) projectTitle);
            c_themes := themes;
            c_template := template_of inputInfo;
            c_target := target'';
            c_tocTitle := td_tocTitle tocConfig;
            c_sectionDepth := td_sectionDepth tocConfig;
            c_pageBreakBefore := e_pageBreakBefore entry;
            c_pageCounterReset := e_pageCounterReset entry |}).

Definition cover_src : option str :=
  match cover otherConfig with
  | Some c => Some (rc_src c)
  | None => None
  end.

Definition cover_htmlPath : option str :=
  match cover otherConfig with
  | Some c => rc_htmlPath c
  | None => None
  end.

Definition cover_name : option str :=
  match cover otherConfig with
  | Some c => Some (rc_name c)
  | None => None
  end.

Definition or_default (a : option str) (d : str) : str :=
  match a with
  | Some ((_ :: _) as s) => s
  | _ => d
  end.

(** The statements of the cover branch that come before the cover image is
    looked for: the template, the target and the themes. *)
Definition coverInputs (entry : EntryObject)
  : M (option (EntrySource * option FileMetadata) * option str *
       list ThemeObj) :=
  inputInfo <- optionalInputInfo entry ;;
  let metadata := metadata_of inputInfo in
  target <- declaredTarget entry inputInfo ;;
  (* Don't inherit rootThemes for cover documents *)
  themes <- entryThemes entry metadata [] ;;
  add_themes themes ;;;
  ret (inputInfo, target, themes).

Definition parseCoverEntry (entry : EntryObject) : M ParsedEntry :=
  inputs <- coverInputs entry ;;
  let '(inputInfo, target, themes) := inputs in
  let metadata := metadata_of inputInfo in
  coverImageSrc <- ensureCoverImage (or_str (e_imageSrc entry) cover_src) ;;
  match coverImageSrc with
  | Some ((_ :: _) as coverImageSrc') =>
      let target' :=
        match target with
        | Some t => t
        | None =>
            resolve [workspaceDir otherConfig;
                     or_default (or_str (e_path entry) cover_htmlPath)
                       (COVER_HTML_FILENAME (consts w))]
        end in
      target'' <- stageIfSame inputInfo target' ;;
      ret (Cover
             {| v_title :=
                  nullish (e_title entry)
                    (nullish (metadata_title metadata) projectTitle);
                v_themes := themes;
                v_template := template_of inputInfo;
                v_target := target'';
                v_coverImageSrc := coverImageSrc';
                v_coverImageAlt :=
                  or_default (or_str (e_imageAlt entry) cover_name)
                    (COVER_HTML_IMAGE_ALT (consts w));
                v_pageBreakBefore := e_pageBreakBefore entry |})
  | _ => throw (MkError missing_cover_message)
  end.

Definition parseArticleEntry (entry : EntryObject) : M ParsedEntry :=
  match e_path entry with
  | None =>
      throw (TypeError
        (lit "Cannot read properties of undefined (reading 'startsWith')"))
  | Some p =>
      inputInfo <- getInputInfo entry p ;;
      let '(source, metadata) := inputInfo in
      target <- match e_output entry with
                | Some ((_ :: _) as o) =>
                    ret (resolve [workspaceDir otherConfig; o])
                | _ => getTargetPath source
                end ;;
      themes <- entryThemes entry metadata (rootThemes otherConfig) ;;
      add_themes themes ;;;
      ret (Manuscript
             {| m_contentType :=
                  match source with
                  | FileEntrySource _ contentType => contentType
                  | UriEntrySource _ _ => TextHtml
                  end;
                m_title :=
                  nullish (e_title entry)
                    (nullish (metadata_title metadata) projectTitle);
                m_themes := themes;
                m_source := source;
                m_target := target;
                m_rel := rel_truthy (e_rel entry) |})
  end.

(** [parseEntry] *)
Definition parseEntry (entry : EntryObject) : M ParsedEntry :=
  entry' <- pathFallback entry ;;
  if isContentsEntry entry' then parseContentsEntry entry'
  else if isCoverEntry entry' then parseCoverEntry entry'
  else parseArticleEntry entry'.

End ProjectMode.

Definition fallbackProjectTitleOf (projectTitle : option str)
    (entries : list ParsedEntry) (outs : list OutputConfig)
  : M (option str) :=
  if opt_truthy projectTitle then ret None
  else
    match entries with
    | [e] =>
        if opt_truthy (entry_title e) then ret (entry_title e)
        else
          match outs with
          | o :: _ => ret (Some (Path.basename (output_path o)))
          | [] =>
              throw (TypeError
                (lit "Cannot read properties of undefined (reading 'path')"))
          end
    | _ =>
        match outs with
        | o :: _ => ret (Some (Path.basename (output_path o)))
        | [] =>
            throw (TypeError
              (lit "Cannot read properties of undefined (reading 'path')"))
        end
    end.

(** The origin of the local preview server. *)
Definition localOriginOf (otherConfig : CommonOpts) : str :=
  let host :=
    match server_host otherConfig with
    | inl false => lit "localhost"
    | inl true => lit "0.0.0.0"
    | inr [] => lit "localhost"
    | inr ((_ :: _) as h) => h
    end in
  lit "http://" ++ host ++ lit ":" ++ nat_to_str (server_port otherConfig).

(** [tocConfig] of [composeProjectConfig] *)
Definition tocConfigOf (otherConfig : CommonOpts) (config : ParsedBuildTask)
  : TocDefaults :=
  let toc := cfg_toc config in
  {| td_tocTitle :=
       match nullish (match toc with Some t => toc_title t | None => None end)
               (cfg_tocTitle config) with
       | Some t => t
       | None => TOC_TITLE (consts w)
       end;
     td_target :=
       resolve [workspaceDir otherConfig;
                match (match toc with
                       | Some t => toc_htmlPath t
                       | None => None
                       end) with
                | Some p => p
                | None => TOC_FILENAME (consts w)
                end];
     td_sectionDepth :=
       match (match toc with
              | Some t => toc_sectionDepth t
              | None => None
              end) with
       | Some d => d
       | None => 0
       end |}.

(** [pkgJson] of [composeProjectConfig]: the [name] and [author] of the
    package metadata, when the file is there. *)
Definition packageJsonOf (otherConfig : CommonOpts) (s : State)
  : option (option str * option str) :=
  let pkgJsonPath :=
    resolve [entryContextDir otherConfig; lit "package.json"] in
  if present s pkgJsonPath then readJSON w pkgJsonPath else None.

Definition readPackageJson (otherConfig : CommonOpts)
  : M (option (option str * option str)) :=
  fun s => (Ok (packageJsonOf otherConfig s), s).

(** [projectTitle] of [composeProjectConfig] *)
Definition projectTitleOf (config : ParsedBuildTask)
    (pkgJson : option (option str * option str)) : option str :=
  nullish (cfg_title config)
    (match pkgJson with Some (name, _) => name | None => None end).

(** [composeProjectConfig] *)
Definition composeProjectConfig (otherConfig : CommonOpts)
    (config : ParsedBuildTask) : M ResolvedTaskConfig :=
  pkgJson <- readPackageJson otherConfig ;;
  new_exportAliases ;;;
  let localOrigin := localOriginOf otherConfig in
  let toc := cfg_toc config in
  let tocConfig := tocConfigOf otherConfig config in
  let projectTitle := projectTitleOf config pkgJson in
  let projectAuthor :=
    nullish (cfg_author config)
      (match pkgJson with Some (_, author) => author | None => None end) in
  entries <- mapM (parseEntry otherConfig localOrigin tocConfig projectTitle)
               (cfg_entry config) ;;
  fallbackProjectTitle <-
    fallbackProjectTitleOf projectTitle entries (outputs otherConfig) ;;
  let entries1 :=
    match toc with
    | Some _ =>
        if existsb is_contents entries then entries
        else
          Contents
            {| c_title := None;
               c_themes := rootThemes otherConfig;
               c_template := None;
               c_target := td_target tocConfig;
               c_tocTitle := td_tocTitle tocConfig;
               c_sectionDepth := td_sectionDepth tocConfig;
               c_pageBreakBefore := None;
               c_pageCounterReset := None |} :: entries
    | None => entries
    end in
  entries2 <-
    match cover otherConfig with
    | Some c =>
        match rc_htmlPath c with
        | Some ((_ :: _) as htmlPath) =>
            if existsb is_cover entries1 then ret entries1
            else
              src <- ensureCoverImage otherConfig (Some (rc_src c)) ;;
              ret (Cover
                     {| v_title := projectTitle;
                        v_themes := [];
                        v_template := None;
                        v_target := htmlPath;
                        v_coverImageSrc :=
                          match src with Some s => s | None => [] end;
                        v_coverImageAlt := rc_name c;
                        v_pageBreakBefore := None |} :: entries1)
        | _ => ret entries1
        end
    | None => ret entries1
    end ;;
  aliases <- (fun s => (Ok (exportAliases s), s)) ;;
  ret {| r_common := otherConfig;
         r_entries := entries2;
         r_input_format := FmtPubManifest;
         r_input_entry :=
           Path.join [workspaceDir otherConfig; MANIFEST_FILENAME (consts w)];
         r_viewerInput :=
           WebPublicationManifestConfig
             (Path.join [workspaceDir otherConfig;
                         MANIFEST_FILENAME (consts w)])
             true;
         r_exportAliases := aliases;
         r_title :=
           if opt_truthy projectTitle then projectTitle
           else fallbackProjectTitle;
         r_author := projectAuthor |}.

(** *** Single-input mode *)

(** [composeSingleInputConfig] *)
Definition composeSingleInputConfig (otherConfig : CommonOpts)
    (config : ParsedBuildTask) (input : InputOption)
  : M ResolvedTaskConfig :=
  let inputFormat := in_format input in
  let title := cfg_title config in
  let author := cfg_author config in
  new_exportAliases ;;;
  sourcePath <-
    (if negb (isValidUri w (in_entry input)) then ret (in_entry input)
     else
       let sourcePath := resolve [entryContextDir otherConfig; in_entry input] in
       (* Check file exists *)
       statFileSync sourcePath None ;;;
       ret sourcePath) ;;
  entries <-
    match inputFormat with
    | FmtMarkdown =>
        (* Single input file; create temporary file *)
        let contentType := TextMarkdown in
        metadata <- parseFileMetadata contentType sourcePath
                      (workspaceDir otherConfig) None ;;
        let relDir :=
          relative (entryContextDir otherConfig) (Path.dirname sourcePath) in
        let target :=
          replace_suffix (lit ".md") (lit ".html")
            (resolve [workspaceDir otherConfig; relDir;
                      temporaryFilePrefix otherConfig ++
                      Path.basename sourcePath]) in
        touchTmpFile target ;;;
        let themes :=
          match fm_themes metadata with
          | Some ts => ts
          | None => rootThemes otherConfig
          end in
        add_themes themes ;;;
        push_alias
          {| alias_source := target;
             alias_target :=
               resolve [Path.dirname target;
                        replace_suffix (lit ".md") (lit ".html")
                          (Path.basename sourcePath)] |} ;;;
        ret [Manuscript
               {| m_contentType := contentType;
                  m_title := fm_title metadata;
                  m_themes := themes;
                  m_source := FileEntrySource sourcePath contentType;
                  m_target := target;
                  m_rel := None |}]
    | _ => ret []
    end ;;
  vi <-
    match inputFormat with
    | FmtMarkdown =>
        (* create temporary manifest file *)
        let manifestPath :=
          resolve [workspaceDir otherConfig;
                   temporaryFilePrefix otherConfig ++
                   MANIFEST_FILENAME (consts w)] in
        touchTmpFile manifestPath ;;;
        push_alias
          {| alias_source := manifestPath;
             alias_target :=
               resolve [workspaceDir otherConfig;
                        MANIFEST_FILENAME (consts w)] |} ;;;
        let fallbackTitle :=
          match entries with
          | [e] =>
              if opt_truthy (entry_title e) then entry_title e
              else Some (Path.basename sourcePath)
          | _ => Some (Path.basename sourcePath)
          end in
        ret (fallbackTitle, WebPublicationManifestConfig manifestPath true)
    | FmtWebbook =>
        url <-
          (if isValidUri w sourcePath then
             match new_URL w sourcePath with
             | Some u => ret u
             | None => throw (TypeError (lit "Invalid URL"))
             end
           else ret (pathToFileURL w sourcePath)) ;;
        (* Ensures trailing slash or explicit HTML extensions *)
        let url' :=
          if is_http_i (url_protocol url) &&
             negb (endsWith (lit "/") (url_pathname url)) &&
             negb (ends_html (url_pathname url))
          then {| url_protocol := url_protocol url;
                  url_host := url_host url;
                  url_pathname := url_pathname url ++ lit "/" |}
          else url in
        ret (None, WebBookEntryConfig (url_href w url'))
    | FmtPubManifest =>
        ret (None, WebPublicationManifestConfig sourcePath false)
    | FmtEpubOpf => ret (None, EpubOpfEntryConfig sourcePath)
    | FmtEpub =>
        ret (None,
             EpubEntryConfig sourcePath
               (Path.join [sourcePath;
                           lit "../" ++ temporaryFilePrefix otherConfig ++
                           Path.basename sourcePath]))
    end ;;
  let '(fallbackTitle, viewerInput) := vi in
  aliases <- (fun s => (Ok (exportAliases s), s)) ;;
  ret {| r_common := otherConfig;
         r_entries := entries;
         r_input_format := inputFormat;
         r_input_entry := sourcePath;
         r_viewerInput := viewerInput;
         r_exportAliases := aliases;
         r_title := if opt_truthy title then title else fallbackTitle;
         r_author := author |}.

(** *** The entry point *)

(** [new Set(rootThemes)] *)
Definition set_themeIndexes (ts : list ThemeObj) : M unit :=
  fun s =>
    (Ok tt,
     {| next_ref := next_ref s;
        themeIndexes := fold_left (fun idx t => set_add t idx) ts [];
        exportAliases := exportAliases s;
        touched := touched s;
        warnings := warnings s |}).

(** [resolveTaskConfig] *)
Definition resolveTaskConfig (config : ParsedBuildTask)
    (options : InlineOptions) : M ResolvedTaskConfig :=
  let context :=
    match opt_cwd options with Some c => c | None => cwd w end in
  let entryContextDir :=
    match cfg_entryContext config with
    | Some ((_ :: _) as ec) => resolve [context; ec]
    | _ => context
    end in
  let workspaceDir :=
    resolve [context;
             match cfg_workspaceDir config with
             | Some d => d
             | None => lit ".vivliostyle"
             end] in
  let themesDir := resolve [workspaceDir; lit "themes"] in
  size <- match cfg_size config with
          | Some ((_ :: _) as sz) => p <- parsePageSize sz ;; ret (Some p)
          | _ => ret None
          end ;;
  let temporaryFilePrefix :=
    match cfg_temporaryFilePrefix config with
    | Some p => p
    | None => lit ".vs-" ++ now w ++ lit "."
    end in
  rootThemes <-
    match cfg_theme config with
    | Some ts =>
        mapM (fun theme => parseTheme theme context workspaceDir themesDir) ts
    | None => ret []
    end ;;
  set_themeIndexes rootThemes ;;;
  let outputs := resolveOutputs context config in
  let cover :=
    match cfg_cover config with
    | Some c =>
        Some {| rc_src := resolve [entryContextDir; cv_src c];
                rc_name := or_default (cv_name c)
                             (COVER_HTML_IMAGE_ALT (consts w));
                rc_htmlPath :=
                  match cv_htmlPath c with
                  | Some None => None
                  | Some (Some []) => None
                  | Some (Some ((_ :: _) as h)) =>
                      Some (resolve [workspaceDir; h])
                  | None =>
                      Some (resolve [workspaceDir;
                                     COVER_HTML_FILENAME (consts w)])
                  end |}
    | None => None
    end in
  let server := cfg_server config in
  let commonOpts :=
    {| context := context;
       entryContextDir := entryContextDir;
       workspaceDir := workspaceDir;
       themesDir := themesDir;
       outputs := outputs;
       rootThemes := rootThemes;
       temporaryFilePrefix := temporaryFilePrefix;
       size := size;
       cover := cover;
       server_host :=
         match (match server with Some sv => srv_host sv | None => None end)
         with
         | Some h => h
         | None => inl false
         end;
       server_port :=
         match (match server with Some sv => srv_port sv | None => None end)
         with
         | Some p => p
         | None => 13 * 1000
         end |} in
  match opt_config options, opt_input options with
  | None, Some input => composeSingleInputConfig commonOpts config input
  | Some [], Some input => composeSingleInputConfig commonOpts config input
  | _, _ => composeProjectConfig commonOpts config
  end.

End Resolver.

(** Feeding a resolved output back as a declared one. *)
Definition as_target (o : OutputConfig) : OutputTarget :=
  match o with
  | PdfOutput p m pf po =>
      {| t_path := p; t_format := FormatPdf; t_renderMode := Some m;
         t_preflight := Some pf; t_preflightOption := Some po |}
  | WebPublicationOutput p =>
      {| t_path := p; t_format := FormatWebpub; t_renderMode := None;
         t_preflight := None; t_preflightOption := None |}
  | EpubOutput p _ =>
      {| t_path := p; t_format := FormatEpub; t_renderMode := None;
         t_preflight := None; t_preflightOption := None |}
  end.

Definition with_output (config : ParsedBuildTask)
    (o : option (list OutputTarget)) : ParsedBuildTask :=
  {| cfg_entryContext := cfg_entryContext config;
     cfg_workspaceDir := cfg_workspaceDir config;
     cfg_temporaryFilePrefix := cfg_temporaryFilePrefix config;
     cfg_size := cfg_size config;
     cfg_theme := cfg_theme config;
     cfg_pressReady := cfg_pressReady config;
     cfg_output := o;
     cfg_title := cfg_title config;
     cfg_author := cfg_author config;
     cfg_cover := cfg_cover config;
     cfg_toc := cfg_toc config;
     cfg_tocTitle := cfg_tocTitle config;
     cfg_server := cfg_server config;
     cfg_entry := cfg_entry config |}.

(** ** A small concrete environment, to run the resolver on examples *)

Module Demo.

Definition the_consts : Consts :=
  {| COVER_HTML_FILENAME := lit "cover.html";
     COVER_HTML_IMAGE_ALT := lit "Cover image";
     EPUB_OUTPUT_VERSION := lit "3.0";
     MANIFEST_FILENAME := lit "publication.json";
     TOC_FILENAME := lit "index.html";
     TOC_TITLE := lit "Table of Contents" |}.

(** The media types of the extensions the examples use. *)
Definition mime_of (p : str) : option str :=
  if endsWith (lit ".md") p then Some (lit "text/markdown")
  else if endsWith (lit ".xhtml") p then Some (lit "application/xhtml+xml")
  else if endsWith (lit ".html") p then Some (lit "text/html")
  else if endsWith (lit ".png") p then Some (lit "image/png")
  else if endsWith (lit ".css") p then Some (lit "text/css")
  else None.

Definition is_uri (s : str) : bool :=
  let l := map lower s in
  startsWith (lit "http:") l || startsWith (lit "https:") l ||
  startsWith (lit "file:") l || startsWith (lit "data:") l.

(** A parser for URLs of the shape [scheme://host/path]. *)
Definition parse_url (s : str) : option Url :=
  let parse_rest scheme rest :=
    Some {| url_protocol := scheme;
            url_host := Path.takeWhile Path.not_slash rest;
            url_pathname :=
              match Path.dropWhile Path.not_slash rest with
              | [] => lit "/"
              | (_ :: _) as p => p
              end |} in
  match strip_prefix (lit "http://") s with
  | Some rest => parse_rest (lit "http:") rest
  | None =>
      match strip_prefix (lit "https://") s with
      | Some rest => parse_rest (lit "https:") rest
      | None => None
      end
  end.

(** The file system looks a path up from the working directory. *)
Definition has_file (cwd0 : str) (files : list str) (p : str) : bool :=
  existsb (str_eqb (Path.resolve cwd0 [p])) files.

(** A process in directory [cwd0] over the files [files], given by their
    absolute paths: manuscripts carry no front matter, files are empty, no
    package is installed, and two paths are equal when one is the other
    relative to itself. *)
Definition world (cwd0 : str) (files : list str) : World :=
  {| consts := the_consts;
     cwd := cwd0;
     now := lit "1700000000000";
     file_exists := has_file cwd0 files;
     read_file := fun p => if has_file cwd0 files p then Some [] else None;
     mime := mime_of;
     readMarkdownMetadata := fun p =>
       if has_file cwd0 files p
       then Some {| md_title := None; md_theme := None |}
       else None;
     parsePackageName := fun _ _ => None;
     package_json_name := fun _ => None;
     readJSON := fun _ => None;
     isValidUri := is_uri;
     pathEquals := fun a b => str_eqb (Path.relative cwd0 a b) [];
     new_URL := parse_url;
     new_URL_dummy := parse_url;
     pathToFileURL := fun p =>
       {| url_protocol := lit "file:"; url_host := []; url_pathname := p |};
     url_href := fun u => url_protocol u ++ lit "//" ++ url_host u ++
                          url_pathname u |}.

Definition no_options : InlineOptions :=
  {| opt_cwd := None; opt_config := None; opt_input := None |}.

Definition empty_config : ParsedBuildTask :=
  {| cfg_entryContext := None;
     cfg_workspaceDir := None;
     cfg_temporaryFilePrefix := None;
     cfg_size := None;
     cfg_theme := None;
     cfg_pressReady := false;
     cfg_output := None;
     cfg_title := None;
     cfg_author := None;
     cfg_cover := None;
     cfg_toc := None;
     cfg_tocTitle := None;
     cfg_server := None;
     cfg_entry := [] |}.

Definition pdf_target (p : str) : OutputTarget :=
  {| t_path := p; t_format := FormatPdf; t_renderMode := None;
     t_preflight := None; t_preflightOption := None |}.

Definition common (workspace : str) : CommonOpts :=
  {| context := lit "/proj";
     entryContextDir := lit "/proj";
     workspaceDir := workspace;
     themesDir := Path.join [workspace; lit "themes"];
     outputs := [];
     rootThemes := [{| obj_ref := 0;
                       obj_val := UriTheme (lit "root.css")
                                    (lit "https://example.com/root.css") |}];
     temporaryFilePrefix := lit ".vs-1.";
     size := None;
     cover := None;
     server_host := inl false;
     server_port := 13 * 1000 |}.

Definition toc_defaults (workspace : str) : TocDefaults :=
  {| td_tocTitle := lit "Table of Contents";
     td_target := Path.join [workspace; lit "index.html"];
     td_sectionDepth := 0 |}.

Definition local_origin : str := lit "http://localhost:13000".

Definition entry_at (rel : option str) (p : option str) : EntryObject :=
  {| e_rel := match rel with Some r => Some (RelOne r) | None => None end;
     e_path := p;
     e_output := None;
     e_theme := None;
     e_title := None;
     e_imageSrc := None;
     e_imageAlt := None;
     e_pageBreakBefore := None;
     e_pageCounterReset := None |}.

Definition cover_entry (p img : option str) : EntryObject :=
  {| e_rel := Some (RelOne (lit "cover"));
     e_path := p;
     e_output := None;
     e_theme := None;
     e_title := None;
     e_imageSrc := img;
     e_imageAlt := None;
     e_pageBreakBefore := None;
     e_pageCounterReset := None |}.

Definition config_with (title : option str)
    (output : option (list OutputTarget)) (entries : list EntryObject)
  : ParsedBuildTask :=
  {| cfg_entryContext := None;
     cfg_workspaceDir := None;
     cfg_temporaryFilePrefix := Some (lit ".vs-1.");
     cfg_size := None;
     cfg_theme := None;
     cfg_pressReady := false;
     cfg_output := output;
     cfg_title := title;
     cfg_author := None;
     cfg_cover := None;
     cfg_toc := None;
     cfg_tocTitle := None;
     cfg_server := None;
     cfg_entry := entries |}.

Definition with_theme (config : ParsedBuildTask)
    (themes : option (list ThemeSpec)) : ParsedBuildTask :=
  {| cfg_entryContext := cfg_entryContext config;
     cfg_workspaceDir := cfg_workspaceDir config;
     cfg_temporaryFilePrefix := cfg_temporaryFilePrefix config;
     cfg_size := cfg_size config;
     cfg_theme := themes;
     cfg_pressReady := cfg_pressReady config;
     cfg_output := cfg_output config;
     cfg_title := cfg_title config;
     cfg_author := cfg_author config;
     cfg_cover := cfg_cover config;
     cfg_toc := cfg_toc config;
     cfg_tocTitle := cfg_tocTitle config;
     cfg_server := cfg_server config;
     cfg_entry := cfg_entry config |}.

End Demo.

(** ** Vocabulary of the properties *)

(** The state after one theme record has been allocated. *)
Definition bump (s : State) : State :=
  {| next_ref := S (next_ref s);
     themeIndexes := themeIndexes s;
     exportAliases := exportAliases s;
     touched := touched s;
     warnings := warnings s |}.

(** The state after one warning has been logged. *)
Definition warn (s : State) (msg : str) : State :=
  {| next_ref := next_ref s;
     themeIndexes := themeIndexes s;
     exportAliases := exportAliases s;
     touched := touched s;
     warnings := warnings s ++ [msg] |}.

(** [context] of [resolveTaskConfig] *)
Definition context_of (w : World) (options : InlineOptions) : str :=
  match opt_cwd options with
  | Some c => c
  | None => cwd w
  end.

(** The name of the output synthesized when none is declared. *)
Definition default_output_name (config : ParsedBuildTask) : str :=
  match cfg_title config with
  | Some ((_ :: _) as title) => title ++ lit ".pdf"
  | _ => lit "output.pdf"
  end.

(** The front matter of the manuscript at [path] declares a theme. *)
Definition metadata_declares_theme (w : World) (path : str) : bool :=
  match readMarkdownMetadata w path with
  | Some md =>
      match md_theme md with
      | Some t => meta_truthy t
      | None => false
      end
  | None => false
  end.

(** The entry declares no theme of its own. *)
Definition no_theme_override (entry : EntryObject) : bool :=
  match e_theme entry with
  | Some f => negb (theme_field_truthy f)
  | None => true
  end.

(** The errors of theme resolution and of reading a file: a message other
    than the one of the cover check, or a read failure. *)
Definition theme_or_read_error (e : Error) : bool :=
  match e with
  | MkError m => negb (str_eqb m missing_cover_message)
  | ReadError _ => true
  | _ => false
  end.

(** The error raised when a file that must be there is not, without a
    message of the caller. *)
Definition plain_missing_file (e : Error) : bool :=
  match e with
  | MissingFile _ None => true
  | _ => false
  end.

Definition is_missing_cover (e : Error) : bool :=
  match e with
  | MkError m => str_eqb m missing_cover_message
  | _ => false
  end.

(** The temporary sibling of a target. *)
Definition tmp_sibling (w : World) (oc : CommonOpts) (target : str) : str :=
  resolve w [Path.dirname target;
             temporaryFilePrefix oc ++ Path.basename target].

(** The state after a target has been staged. *)
Definition staged (w : World) (oc : CommonOpts) (s : State) (target : str)
  : State :=
  {| next_ref := next_ref s;
     themeIndexes := themeIndexes s;
     exportAliases :=
       exportAliases s ++
       [{| alias_source := tmp_sibling w oc target; alias_target := target |}];
     touched := touched s ++ [tmp_sibling w oc target];
     warnings := warnings s |}.

(** Two states with the same aliases and the same touched files. *)
Definition same_staging (s s' : State) : Prop :=
  exportAliases s' = exportAliases s /\ touched s' = touched s.

(** ** Vocabulary of the further properties *)

(** A page size as [parsePageSize] reads it: the format, or the width and
    the height separated by a comma. *)
Definition show_size (p : PageSize) : str :=
  match p with
  | SizeFormat f => f
  | SizeWH w h => w ++ ","%char :: h
  end.

Definition no_comma (s : str) : Prop :=
  Forall (fun c => Ascii.eqb c "," = false) s.

(** The components of a page size are not empty and hold no comma. *)
Definition well_formed_size (p : PageSize) : Prop :=
  match p with
  | SizeFormat f => f <> [] /\ no_comma f
  | SizeWH w h => w <> [] /\ h <> [] /\ no_comma w /\ no_comma h
  end.

(** The number of commas of a string. *)
Definition commas (s : str) : nat :=
  List.length (filter (fun c => Ascii.eqb c ",") s).

(** The specifier of a theme reference. *)
Definition specifier_of (theme : ThemeSpec) : str :=
  match theme with
  | ThemeString s => s
  | ThemeObject s _ => s
  end.

(** ** Further concrete environments *)

Module DemoThemes.

(** A process like [Demo.world] in which the specifiers [pkgs] name
    packages of the registry. *)
Definition world (cwd0 : str) (files pkgs : list str) : World :=
  let w0 := Demo.world cwd0 files in
  {| consts := consts w0;
     cwd := cwd w0;
     now := now w0;
     file_exists := file_exists w0;
     read_file := read_file w0;
     mime := mime w0;
     readMarkdownMetadata := readMarkdownMetadata w0;
     parsePackageName := fun specifier _ =>
       if existsb (str_eqb specifier) pkgs
       then Some {| pkg_registry := true;
                    pkg_type := PkgOther;
                    pkg_name := Some specifier;
                    pkg_fetchSpec := None |}
       else None;
     package_json_name := package_json_name w0;
     readJSON := readJSON w0;
     isValidUri := isValidUri w0;
     pathEquals := pathEquals w0;
     new_URL := new_URL w0;
     new_URL_dummy := new_URL_dummy w0;
     pathToFileURL := pathToFileURL w0;
     url_href := url_href w0 |}.

End DemoThemes.

(** The characters of [t] are other than [<]. *)
Definition no_lt (t : str) : Prop :=
  Forall (fun c => Ascii.eqb c "<" = false) t.

(** The theme object [t] is in the theme index of the state. *)
Definition indexed (s : State) (t : ThemeObj) : Prop :=
  existsb (same_object t) (themeIndexes s) = true.






(** Two states with the same theme index. *)
Definition same_index (s s' : State) : Prop :=
  themeIndexes s' = themeIndexes s.

(** The theme index only grows from [s] to [s']. *)
Definition index_grows (s s' : State) : Prop :=
  forall t, indexed s t -> indexed s' t.

(** The table of contents that [composeProjectConfig] generates. *)
Definition generated_toc (w : World) (oc : CommonOpts)
    (config : ParsedBuildTask) : ParsedEntry :=
  Contents
    {| c_title := None;
       c_themes := rootThemes oc;
       c_template := None;
       c_target := td_target (tocConfigOf w oc config);
       c_tocTitle := td_tocTitle (tocConfigOf w oc config);
       c_sectionDepth := td_sectionDepth (tocConfigOf w oc config);
       c_pageBreakBefore := None;
       c_pageCounterReset := None |}.

(** The input of single-input mode: [!options.config && options.input]. *)
Definition single_input (options : InlineOptions) : option InputOption :=
  match opt_config options, opt_input options with
  | None, Some input => Some input
  | Some [], Some input => Some input
  | _, _ => None
  end.

(** The [name] of the package metadata at [p], when it can be read. *)
Definition package_name (w : World) (p : str) : option str :=
  match readJSON w p with
  | Some (name, _) => name
  | None => None
  end.

(** The root directory of a URI source is absolute. *)
Definition rooted (source : EntrySource) : Prop :=
  match source with
  | FileEntrySource _ _ => True
  | UriEntrySource _ rootDir => Path.isAbsolute rootDir = true
  end.

Module DemoProject.

(** A project with a cover image and a table of contents, and the common
    options that [resolveTaskConfig] derives for it. *)
Definition common : CommonOpts :=
  {| context := lit "/proj";
     entryContextDir := lit "/proj";
     workspaceDir := lit "/proj/ws";
     themesDir := lit "/proj/ws/themes";
     outputs := [PdfOutput (lit "/proj/book.pdf") RenderLocal None []];
     rootThemes := [];
     temporaryFilePrefix := lit ".vs-1.";
     size := None;
     cover := Some {| rc_src := lit "/proj/cover.png";
                      rc_name := lit "Cover image";
                      rc_htmlPath := Some (lit "/proj/ws/cover.html") |};
     server_host := inl false;
     server_port := 13 * 1000 |}.

Definition config : ParsedBuildTask :=
  {| cfg_entryContext := None;
     cfg_workspaceDir := Some (lit "ws");
     cfg_temporaryFilePrefix := Some (lit ".vs-1.");
     cfg_size := None;
     cfg_theme := None;
     cfg_pressReady := false;
     cfg_output := Some [Demo.pdf_target (lit "book.pdf")];
     cfg_title := Some (lit "Book");
     cfg_author := None;
     cfg_cover := Some {| cv_src := lit "cover.png";
                          cv_name := None;
                          cv_htmlPath := None |};
     cfg_toc := Some {| toc_title := None;
                        toc_htmlPath := None;
                        toc_sectionDepth := None |};
     cfg_tocTitle := None;
     cfg_server := None;
     cfg_entry := [Demo.entry_at None (Some (lit "a.html"));
                   Demo.entry_at None (Some (lit "b.html"))] |}.

Definition world : World :=
  Demo.world (lit "/proj")
    [lit "/proj/a.html"; lit "/proj/b.html"; lit "/proj/cover.png"].

End DemoProject.

(** Every alias of the state has its source among the touched files. *)
Definition aliases_touched (s : State) : Prop :=
  Forall (fun a => In (alias_source a) (touched s)) (exportAliases s).

Module DemoFrontMatter.

(** A process like [Demo.world] in which the front matter of every
    manuscript declares the theme [theme.css]. *)
Definition world (cwd0 : str) (files : list str) : World :=
  let w0 := Demo.world cwd0 files in
  {| consts := consts w0;
     cwd := cwd w0;
     now := now w0;
     file_exists := file_exists w0;
     read_file := read_file w0;
     mime := mime w0;
     readMarkdownMetadata := fun p =>
       if file_exists w0 p
       then Some {| md_title := Some (lit "Sample");
                    md_theme := Some (MetaOne (MetaString (lit "theme.css"))) |}
       else None;
     parsePackageName := parsePackageName w0;
     package_json_name := package_json_name w0;
     readJSON := readJSON w0;
     isValidUri := isValidUri w0;
     pathEquals := pathEquals w0;
     new_URL := new_URL w0;
     new_URL_dummy := new_URL_dummy w0;
     pathToFileURL := pathToFileURL w0;
     url_href := url_href w0 |}.

End DemoFrontMatter.

(** ** Asset patterns: [copyAsset] of [resolveTaskConfig] *)

(** [config.copyAsset] *)
Record CopyAssetConfig := {
  ca_includes : option (list str);
  ca_excludes : option (list str);
  ca_includeFileExtensions : option (list str);
  ca_excludeFileExtensions : option (list str) }.

(** [ResolvedTaskConfig.copyAsset] *)
Record CopyAsset := {
  asset_includes : list str;
  asset_excludes : list str;
  asset_fileExtensions : list str }.

Definition DEFAULT_ASSET_EXTENSIONS : list str :=
  [lit "png"; lit "jpg"; lit "jpeg"; lit "svg"; lit "gif"; lit "webp";
   lit "apng"; lit "ttf"; lit "otf"; lit "woff"; lit "woff2"].

(** [[...new Set(l)]]: the strings of [l] in the order of their first
    occurrence. *)
Definition set_of (l : list str) : list str :=
  fold_left (fun seen x => if existsb (str_eqb x) seen then seen
                           else seen ++ [x]) l [].

Definition or_nil (l : option (list str)) : list str :=
  match l with
  | Some x => x
  | None => []
  end.

(** The [copyAsset] of the plan, from [config.copyAsset] and the older
    [config.includeAssets]. *)
Definition copyAssetOf (copyAsset : option CopyAssetConfig)
    (includeAssets : option (list str)) : CopyAsset :=
  let field {A} (f : CopyAssetConfig -> option A) : option A :=
    match copyAsset with
    | Some c => f c
    | None => None
    end in
  {| asset_includes := or_nil (nullish (field ca_includes) includeAssets);
     asset_excludes := or_nil (field ca_excludes);
     asset_fileExtensions :=
       filter
         (fun ext =>
            negb (existsb (str_eqb ext)
                    (or_nil (field ca_excludeFileExtensions))))
         (set_of (DEFAULT_ASSET_EXTENSIONS ++
                  or_nil (field ca_includeFileExtensions))) |}.

(** The extensions a configuration adds and removes. *)
Definition included_extensions (copyAsset : option CopyAssetConfig)
  : list str :=
  match copyAsset with
  | Some c => or_nil (ca_includeFileExtensions c)
  | None => []
  end.

Definition excluded_extensions (copyAsset : option CopyAssetConfig)
  : list str :=
  match copyAsset with
  | Some c => or_nil (ca_excludeFileExtensions c)
  | None => []
  end.

(** ** The build command line: [setupBuildParserProgram] and
    [inferenceTargetsOption] *)

Module BuildCli.

(** An element of [targets]; a key is in the object when its field is
    [Some]. *)
Record Target := { output : option str; format : option str }.

(** [outputOptionProcessor]: the processor of [-o, --output <path>] *)
Definition outputOptionProcessor (value : str) (targets : list Target)
  : list Target :=
  match targets with
  | [] => targets ++ [{| output := Some value; format := None |}]
  | t :: _ =>
      let final := last targets t in
      match output final with
      | Some _ => targets ++ [{| output := Some value; format := None |}]
      | None =>
          removelast targets ++
          [{| output := Some value; format := format final |}]
      end
  end.

(** [formatOptionProcessor]: the processor of [-f, --format <format>] *)
Definition formatOptionProcessor (value : str) (targets : list Target)
  : list Target :=
  match targets with
  | [] => targets ++ [{| output := None; format := Some value |}]
  | t :: _ =>
      let final := last targets t in
      match format final with
      | Some _ => targets ++ [{| output := None; format := Some value |}]
      | None =>
          removelast targets ++
          [{| output := output final; format := Some value |}]
      end
  end.

(** An occurrence of [-o] or [-f] on the command line. *)
Inductive CliOption :=
| OutputOption (value : str)
| FormatOption (value : str).

(** The parser calls the processor of an occurrence. *)
Definition call_processor (targets : list Target) (o : CliOption)
  : list Target :=
  match o with
  | OutputOption v => outputOptionProcessor v targets
  | FormatOption v => formatOptionProcessor v targets
  end.

(** The array [targets] after the parser has called, in the order of the
    command line, the processor of each occurrence; both processors work on
    the same array. *)
Definition parse_targets (argv : list CliOption) : list Target :=
  fold_left call_processor argv [].

(** [Array.prototype.map] with a callback that may throw. *)
Fixpoint map_res {A B} (f : A -> Res B) (l : list A) : Res (list B) :=
  match l with
  | [] => Ok []
  | a :: l' =>
      match f a with
      | Err e => Err e
      | Ok b =>
          match map_res f l' with
          | Err e => Err e
          | Ok bs => Ok (b :: bs)
          end
      end
  end.

(** [`${format}`] *)
Definition show_format (f : option str) : str :=
  match f with
  | Some s => s
  | None => lit "undefined"
  end.

Section Inference.

(** [inferenceFormatByName] and [availableOutputFormat] of [../config] *)
Variable inferenceFormatByName : str -> str.
Variable availableOutputFormat : list str.

(** The callback of [inferenceTargetsOption] *)
Definition inferenceTarget (t : Target) : Res (str * str) :=
  match output t with
  | Some ((_ :: _) as o) =>
      match format t with
      | Some ((_ :: _) as f) =>
          if existsb (str_eqb f) availableOutputFormat
          then Ok (o, f)
          else Err (MkError (lit "Unknown format: " ++ f))
      | _ => Ok (o, inferenceFormatByName o)
      end
  | _ =>
      (* -f is an optional option but -o is required one *)
      Err (MkError
             (lit "Couldn't find the output option corresponding --format " ++
              show_format (format t) ++
              lit " option. Please check the command options."))
  end.

(** [inferenceTargetsOption] *)
Definition inferenceTargetsOption (parsed : list Target)
  : Res (list (str * str)) :=
  map_res inferenceTarget parsed.

End Inference.

(** The values of the [-o] and of the [-f] occurrences, in order. *)
Definition output_values (argv : list CliOption) : list str :=
  flat_map (fun o => match o with OutputOption v => [v] | _ => [] end) argv.

Definition format_values (argv : list CliOption) : list str :=
  flat_map (fun o => match o with FormatOption v => [v] | _ => [] end) argv.

(** The outputs and the formats that a list of targets holds, in order. *)
Definition target_outputs (targets : list Target) : list str :=
  flat_map (fun t => match output t with Some v => [v] | None => [] end)
    targets.

Definition target_formats (targets : list Target) : list str :=
  flat_map (fun t => match format t with Some v => [v] | None => [] end)
    targets.

(** The command line that gives a target: its [-o], then its [-f] if it
    has one. *)
Definition options_of (t : Target) : list CliOption :=
  match output t with
  | Some o => [OutputOption o]
  | None => []
  end ++
  match format t with
  | Some f => [FormatOption f]
  | None => []
  end.

(** A target that [inferenceTargetsOption] accepts. *)
Definition acceptable (availableOutputFormat : list str) (t : Target)
  : bool :=
  match output t with
  | Some (_ :: _) =>
      match format t with
      | Some ((_ :: _) as f) => existsb (str_eqb f) availableOutputFormat
      | _ => true
      end
  | _ => false
  end.

(** A target that holds a key. *)
Definition keyed (t : Target) : Prop :=
  output t <> None \/ format t <> None.

End BuildCli.

(** ** The publication manifest: [transformPublicationManifest],
    [decodePublicationManifest], [encodePublicationManifest] and
    [writePublicationManifest] *)

Module Publication.

(** [PublicationLinks]: the [url], and the members that
    [writePublicationManifest] sets; a spread copies every member. *)
Record PublicationLinks := {
  l_url : str;
  l_name : option str;
  l_encodingFormat : option str;
  l_rel : option RelValue;
  l_type : option str }.

(** [PublicationURL | PublicationLinks] *)
Inductive Resource :=
| ResourceUrl (url : str)
| ResourceLinks (links : PublicationLinks).

(** A member that holds one value or an array of values. *)
Inductive OneOrMany (A : Type) :=
| One (a : A)
| Many (l : list A).

Arguments One {A} a.
Arguments Many {A} l.

(** [PublicationManifest]; a member that is not in the object is [None]. *)
Record PublicationManifest := {
  pm_context : list str;
  pm_type : str;
  pm_conformsTo : option (OneOrMany str);
  pm_url : option (OneOrMany str);
  pm_name : option str;
  pm_author : option str;
  pm_inLanguage : option str;
  pm_readingProgression : option str;
  pm_dateModified : option str;
  pm_readingOrder : option (OneOrMany Resource);
  pm_resources : option (OneOrMany Resource);
  pm_links : option (OneOrMany Resource) }.

(** [Array.prototype.map] with a callback that may throw ([None]). *)
Fixpoint map_opt {A B} (f : A -> option B) (l : list A) : option (list B) :=
  match l with
  | [] => Some []
  | a :: l' =>
      match f a with
      | None => None
      | Some b =>
          match map_opt f l' with
          | None => None
          | Some bs => Some (b :: bs)
          end
      end
  end.

Section Transform.

(** [transformer.url]; [None] when it throws. *)
Variable transformUrl : str -> option str.

Definition transformUrlOrPublicationLinks (e : Resource) : option Resource :=
  match e with
  | ResourceUrl u =>
      match transformUrl u with
      | Some u' => Some (ResourceUrl u')
      | None => None
      end
  | ResourceLinks l =>
      match transformUrl (l_url l) with
      | Some u' =>
          Some (ResourceLinks
                  {| l_url := u';
                     l_name := l_name l;
                     l_encodingFormat := l_encodingFormat l;
                     l_rel := l_rel l;
                     l_type := l_type l |})
      | None => None
      end
  end.

(** [ret[key] = Array.isArray(ret[key]) ? ret[key].map(tr) : tr(ret[key])]
    for a key that is in the object; the outer [None] is a throw. *)
Definition transform_member {A} (tr : A -> option A)
    (m : option (OneOrMany A)) : option (option (OneOrMany A)) :=
  match m with
  | None => Some None
  | Some (One a) =>
      match tr a with
      | Some a' => Some (Some (One a'))
      | None => None
      end
  | Some (Many l) =>
      match map_opt tr l with
      | Some l' => Some (Some (Many l'))
      | None => None
      end
  end.

(** [transformPublicationManifest]: the members are transformed in the
    order [conformsTo], [url], [readingOrder], [resources], [links]. *)
Definition transformPublicationManifest (entity : PublicationManifest)
  : option PublicationManifest :=
  match transform_member transformUrl (pm_conformsTo entity) with
  | None => None
  | Some conformsTo =>
  match transform_member transformUrl (pm_url entity) with
  | None => None
  | Some url =>
  match transform_member transformUrlOrPublicationLinks
          (pm_readingOrder entity) with
  | None => None
  | Some readingOrder =>
  match transform_member transformUrlOrPublicationLinks
          (pm_resources entity) with
  | None => None
  | Some resources =>
  match transform_member transformUrlOrPublicationLinks
          (pm_links entity) with
  | None => None
  | Some links =>
      Some {| pm_context := pm_context entity;
              pm_type := pm_type entity;
              pm_conformsTo := conformsTo;
              pm_url := url;
              pm_name := pm_name entity;
              pm_author := pm_author entity;
              pm_inLanguage := pm_inLanguage entity;
              pm_readingProgression := pm_readingProgression entity;
              pm_dateModified := pm_dateModified entity;
              pm_readingOrder := readingOrder;
              pm_resources := resources;
              pm_links := links |}
  end end end end end.

End Transform.

(** [ArticleEntryObject] of the input schema: the members that
    [writePublicationManifest] reads. *)
Record ArticleEntryObject := {
  a_path : str;
  a_title : option str;
  a_encodingFormat : option str;
  a_rel : option RelValue }.

Record CoverOption := { co_url : str; co_name : str }.

(** The [options] of [writePublicationManifest] *)
Record ManifestOptions := {
  mo_title : option str;
  mo_author : option str;
  mo_language : option str;
  mo_readingProgression : option str;
  mo_modified : str;
  mo_entries : list ArticleEntryObject;
  mo_cover : option CoverOption;
  mo_links : option (list Resource);
  mo_resources : option (list Resource) }.

(** [v && { key: v }] for a string: the member is set when [v] is truthy. *)
Definition when_truthy (v : option str) : option str :=
  match v with
  | Some (_ :: _) => v
  | _ => None
  end.

(** [entry.rel === name] *)
Definition rel_is (name : str) (r : option RelValue) : bool :=
  match r with
  | Some (RelOne x) => str_eqb x name
  | _ => false
  end.

(** The callback of [options.entries.map] *)
Definition entry_link (entry : ArticleEntryObject) : PublicationLinks :=
  {| l_url := a_path entry;
     l_name := when_truthy (a_title entry);
     l_encodingFormat := when_truthy (a_encodingFormat entry);
     l_rel := rel_truthy (a_rel entry);
     l_type :=
       if rel_is (lit "contents") (a_rel entry) ||
          rel_is (lit "cover") (a_rel entry)
       then Some (lit "LinkedResource")
       else None |}.

Inductive PubError :=
| URIError
| DetailError (message detail : str).

(** What [writePublicationManifest] does besides returning: it logs, and
    it writes the manifest, kept here as the value that is serialized. *)
Inductive Effect :=
| Log (message : str)
| WriteFile (path : str) (content : PublicationManifest).

(** The message logged for a cover whose media type is unknown; the
    template interpolates the cover object itself. *)
Definition cover_undetected_message : str :=
  [ascii_of_nat 10] ++ lit "Cover image " ++
  dquote ++ lit "[object Object]" ++ dquote ++
  lit " was set in your configuration but couldn" ++
  [ascii_of_nat 226; ascii_of_nat 128; ascii_of_nat 153] ++
  lit "t detect the image metadata. Please check a valid cover file is placed.".

Section Write.

(** [encodeURI] and [decodeURI]; [None] when they throw a [URIError]. *)
Variable encodeURI : str -> option str.
Variable decodeURI : str -> option str.
(** [lookup] of mime-types; [None] is its [false] *)
Variable mime : str -> option str.
(** [assertPubManifestSchema] of [util.js]: the detail of the error it
    throws, [None] when the manifest is valid. *)
Variable assertPubManifestSchema : PublicationManifest -> option str.

(** [decodePublicationManifest] *)
Definition decodePublicationManifest (input : PublicationManifest)
  : option PublicationManifest :=
  transformPublicationManifest decodeURI input.

(** [encodePublicationManifest] *)
Definition encodePublicationManifest (input : PublicationManifest)
  : option PublicationManifest :=
  transformPublicationManifest encodeURI input.

(** [[options.resources || []].flat()], then the cover *)
Definition manifest_resources (options : ManifestOptions)
  : list Resource * list Effect :=
  let resources :=
    match mo_resources options with
    | Some l => l
    | None => []
    end in
  match mo_cover options with
  | Some cover =>
      match mime (co_url cover) with
      | Some ((_ :: _) as mimeType) =>
          (resources ++
           [ResourceLinks
              {| l_url := co_url cover;
                 l_name := Some (co_name cover);
                 l_encodingFormat := Some mimeType;
                 l_rel := Some (RelOne (lit "cover"));
                 l_type := None |}],
           [])
      | _ => (resources, [Log cover_undetected_message])
      end
  | None => (resources, [])
  end.

(** [writePublicationManifest] *)
Definition writePublicationManifest (output : str)
    (options : ManifestOptions)
  : list Effect * (PubError + PublicationManifest) :=
  let entries := map entry_link (mo_entries options) in
  let links :=
    match mo_links options with
    | Some l => l
    | None => []
    end in
  let '(resources, logged) := manifest_resources options in
  let publication :=
    {| pm_context := [lit "https://schema.org";
                      lit "https://www.w3.org/ns/pub-context"];
       pm_type := lit "Book";
       pm_conformsTo :=
         Some (One (lit "https://github.com/vivliostyle/vivliostyle-cli"));
       pm_url := None;
       pm_name := when_truthy (mo_title options);
       pm_author := when_truthy (mo_author options);
       pm_inLanguage := when_truthy (mo_language options);
       pm_readingProgression := when_truthy (mo_readingProgression options);
       pm_dateModified := Some (mo_modified options);
       pm_readingOrder := Some (Many (map ResourceLinks entries));
       pm_resources := Some (Many resources);
       pm_links := Some (Many links) |} in
  match encodePublicationManifest publication with
  | None => (logged, inl URIError)
  | Some encodedManifest =>
      match assertPubManifestSchema encodedManifest with
      | Some detail =>
          (logged,
           inl (DetailError
                  (lit "Validation of publication manifest failed. Please check the schema: "
                   ++ output)
                  detail))
      | None =>
          (logged ++ [WriteFile output encodedManifest], inr publication)
      end
  end.

End Write.

(** The URLs of a manifest, member by member. *)
Definition resource_url (e : Resource) : str :=
  match e with
  | ResourceUrl u => u
  | ResourceLinks l => l_url l
  end.

Definition member_list {A} (m : option (OneOrMany A)) : list A :=
  match m with
  | None => []
  | Some (One a) => [a]
  | Some (Many l) => l
  end.

Definition manifest_urls (m : PublicationManifest) : list str :=
  member_list (pm_conformsTo m) ++ member_list (pm_url m) ++
  map resource_url (member_list (pm_readingOrder m)) ++
  map resource_url (member_list (pm_resources m)) ++
  map resource_url (member_list (pm_links m)).

(** An effect that writes no file. *)
Definition is_log (e : Effect) : Prop :=
  match e with
  | Log _ => True
  | WriteFile _ _ => False
  end.

(** One transformer after another. *)
Definition and_then (f g : str -> option str) (u : str) : option str :=
  match f u with
  | Some v => g v
  | None => None
  end.

End Publication.

(** A small environment for the manifest: URLs in which only the space is
    escaped, the media types of [Demo.mime_of], and a schema that every
    manifest meets. *)
Module DemoPublication.
Import Publication.

Definition escape_spaces (u : str) : option str :=
  Some (flat_map (fun c => if Ascii.eqb c " " then lit "%20" else [c]) u).

Fixpoint unescape (u : str) : str :=
  match u with
  | "%"%char :: "2"%char :: "0"%char :: rest => " "%char :: unescape rest
  | c :: rest => c :: unescape rest
  | [] => []
  end.

Definition unescape_spaces (u : str) : option str := Some (unescape u).

Definition options : ManifestOptions :=
  {| mo_title := Some (lit "Moby Dick");
     mo_author := None;
     mo_language := Some (lit "en");
     mo_readingProgression := None;
     mo_modified := lit "2024-01-01T00:00:00.000Z";
     mo_entries :=
       [{| a_path := lit "index.html";
           a_title := Some (lit "Contents");
           a_encodingFormat := None;
           a_rel := Some (RelOne (lit "contents")) |};
        {| a_path := lit "chapter 1.html";
           a_title := None;
           a_encodingFormat := None;
           a_rel := None |}];
     mo_cover := Some {| co_url := lit "cover image.png";
                         co_name := lit "Cover" |};
     mo_links := None;
     mo_resources := Some [ResourceUrl (lit "style.css")] |}.

Definition manifest : PublicationManifest :=
  {| pm_context := [lit "https://schema.org"];
     pm_type := lit "Book";
     pm_conformsTo := None;
     pm_url := None;
     pm_name := Some (lit "Moby Dick");
     pm_author := None;
     pm_inLanguage := None;
     pm_readingProgression := None;
     pm_dateModified := None;
     pm_readingOrder :=
       Some (Many [ResourceUrl (lit "chapter 1.html");
                   ResourceLinks
                     {| l_url := lit "chapter 2.html";
                        l_name := Some (lit "Two");
                        l_encodingFormat := None;
                        l_rel := None;
                        l_type := None |}]);
     pm_resources := Some (One (ResourceUrl (lit "cover image.png")));
     pm_links := None |}.

End DemoPublication.

(** ** Exporting a web publication: [copyWebPublicationAssets] and
    [sortManifestResources] *)

Module WebExport.
Import Publication.

(** What [copyWebPublicationAssets] does to the file system; a manifest
    that is written is kept as the value that is serialized. *)
Inductive FsEffect :=
| MkDir (path : str)
| CopyFile (src dest : str)
| WriteManifest (path : str) (content : PublicationManifest).

(** The state of the copy loop. *)
Record CopyState := {
  cs_resources : list str;
  cs_actualManifestPath : str;
  cs_effects : list FsEffect }.

(** [Set.prototype.delete] *)
Definition set_delete (x : str) (files : list str) : list str :=
  filter (fun f => negb (str_eqb f x)) files.

(** [val] is truthy: a member that is set and is not the empty string. *)
Definition member_truthy (m : option (OneOrMany Resource)) : bool :=
  match m with
  | None => false
  | Some (One (ResourceUrl [])) => false
  | Some _ => true
  end.

(** [[val || []].flat()] *)
Definition flat_member (m : option (OneOrMany Resource)) : list Resource :=
  if member_truthy m then member_list m else [].

(** [normalizeToUrl] *)
Definition normalizeToUrl (m : option (OneOrMany Resource)) : list str :=
  map resource_url (flat_member m).

Section Copy.

(** [process.cwd()], for [upath.relative] *)
Variable cwd : str.
(** [pathEquals] of [util.js] *)
Variable pathEquals : str -> str -> bool.
(** What [globAssetFiles] and [glob] find under [input] *)
Variable assetFiles : list str.
Variable documentFiles : list str.
(** [JSON.parse(fs.readFileSync(p, 'utf8'))] on the files as they are
    before the call; [None] when it throws *)
Variable readJSON : str -> option PublicationManifest.
(** [decodeURI] and [encodeURI]; [None] when they throw *)
Variable decodeURI : str -> option str.
Variable encodeURI : str -> option str.
(** [Array.prototype.sort] with the comparator of [sortManifestResources],
    which answers 1 when the URL of the first resource is the greater and
    -1 otherwise *)
Variable sort_resources : list Resource -> list Resource.

(** [sortManifestResources] *)
Definition sortManifestResources (manifest : PublicationManifest)
  : PublicationManifest :=
  match pm_resources manifest with
  | Some (Many resources) =>
      {| pm_context := pm_context manifest;
         pm_type := pm_type manifest;
         pm_conformsTo := pm_conformsTo manifest;
         pm_url := pm_url manifest;
         pm_name := pm_name manifest;
         pm_author := pm_author manifest;
         pm_inLanguage := pm_inLanguage manifest;
         pm_readingProgression := pm_readingProgression manifest;
         pm_dateModified := pm_dateModified manifest;
         pm_readingOrder := pm_readingOrder manifest;
         pm_resources := Some (Many (sort_resources resources));
         pm_links := pm_links manifest |}
  | _ => manifest
  end.

(** [relExportAliases]: the aliases relative to [input], without those
    whose source is outside of it. *)
Definition relExportAliases (input : str) (exportAliases : list ExportAlias)
  : list ExportAlias :=
  filter (fun a => negb (startsWith (lit "..") (alias_source a)))
    (map (fun a =>
            {| alias_source := Path.relative cwd input (alias_source a);
               alias_target := Path.relative cwd input (alias_target a) |})
       exportAliases).

(** [allFiles]: the files found, without the ones at an alias target. *)
Definition allFiles (rel : list ExportAlias) : list str :=
  fold_left (fun files alias => set_delete (alias_target alias) files)
    rel (set_of (assetFiles ++ documentFiles)).

(** [relExportAliases.find(({ source }) => source === file)] *)
Definition alias_of (rel : list ExportAlias) (file : str)
  : option ExportAlias :=
  find (fun a => str_eqb (alias_source a) file) rel.

(** [alias?.target || file] *)
Definition relTarget (rel : list ExportAlias) (file : str) : str :=
  match alias_of rel file with
  | Some a => if truthy (alias_target a) then alias_target a else file
  | None => file
  end.

(** One turn of the copy loop. *)
Definition copy_one (input outputDir manifestPath : str)
    (rel : list ExportAlias) (st : CopyState) (file : str) : CopyState :=
  let target := Path.join [outputDir; relTarget rel file] in
  {| cs_resources := cs_resources st ++ [relTarget rel file];
     cs_actualManifestPath :=
       match alias_of rel file with
       | Some a =>
           if pathEquals (Path.join [input; alias_source a]) manifestPath
           then target
           else cs_actualManifestPath st
       | None => cs_actualManifestPath st
       end;
     cs_effects :=
       cs_effects st ++
       [MkDir (Path.dirname target);
        CopyFile (Path.join [input; file]) target] |}.

(** The copy loop over [allFiles]. *)
Definition copy_all (input outputDir manifestPath : str)
    (rel : list ExportAlias) : CopyState :=
  fold_left (copy_one input outputDir manifestPath rel) (allFiles rel)
    {| cs_resources := [];
       cs_actualManifestPath :=
         Path.join [outputDir; Path.relative cwd input manifestPath];
       cs_effects := [] |}.

(** The file whose content is at [p] once the copies are made: the last
    file copied to [p], else the file that was at [p]. *)
Definition source_of (effects : list FsEffect) (p : str) : str :=
  match find (fun e => match e with
                       | CopyFile _ dest => str_eqb dest p
                       | _ => false
                       end) (rev effects) with
  | Some (CopyFile src _) => src
  | _ => p
  end.

(** [rewriteAliasPath] *)
Definition rewriteAliasPath (entry : ExportAlias) (e : Resource) : Resource :=
  match e with
  | ResourceUrl u =>
      ResourceUrl (if pathEquals u (alias_source entry)
                   then alias_source entry else u)
  | ResourceLinks l =>
      if pathEquals (l_url l) (alias_source entry)
      then ResourceLinks
             {| l_url := alias_target entry;
                l_name := l_name l;
                l_encodingFormat := l_encodingFormat l;
                l_rel := l_rel l;
                l_type := l_type l |}
      else e
  end.

(** [if (m) m = Array.isArray(m) ? m.map(rewriteAliasPath)
                                 : rewriteAliasPath(m)] *)
Definition rewrite_member (entry : ExportAlias)
    (m : option (OneOrMany Resource)) : option (OneOrMany Resource) :=
  if member_truthy m then
    match m with
    | Some (Many l) => Some (Many (map (rewriteAliasPath entry) l))
    | Some (One e) => Some (One (rewriteAliasPath entry e))
    | None => None
    end
  else m.

(** One turn of the loop that rewrites the manifest. *)
Definition rewrite_manifest (manifest : PublicationManifest)
    (entry : ExportAlias) : PublicationManifest :=
  {| pm_context := pm_context manifest;
     pm_type := pm_type manifest;
     pm_conformsTo := pm_conformsTo manifest;
     pm_url := pm_url manifest;
     pm_name := pm_name manifest;
     pm_author := pm_author manifest;
     pm_inLanguage := pm_inLanguage manifest;
     pm_readingProgression := pm_readingProgression manifest;
     pm_dateModified := pm_dateModified manifest;
     pm_readingOrder := rewrite_member entry (pm_readingOrder manifest);
     pm_resources := rewrite_member entry (pm_resources manifest);
     pm_links := rewrite_member entry (pm_links manifest) |}.

(** The [resources] of the exported manifest: the ones it has, then the
    copied files that it does not name yet, the manifest itself left
    out. *)
Definition listed_resources (outputDir actualManifestPath : str)
    (manifest : PublicationManifest) (resources : list str)
  : list Resource :=
  let preDefinedResources :=
    normalizeToUrl (pm_links manifest) ++
    normalizeToUrl (pm_readingOrder manifest) ++
    normalizeToUrl (pm_resources manifest) in
  flat_member (pm_resources manifest) ++
  flat_map
    (fun file =>
       if existsb (str_eqb file) preDefinedResources ||
          (* Omit publication.json itself *)
          pathEquals file (Path.relative cwd outputDir actualManifestPath)
       then []
       else [ResourceUrl file])
    resources.

Definition with_resources (manifest : PublicationManifest)
    (resources : list Resource) : PublicationManifest :=
  {| pm_context := pm_context manifest;
     pm_type := pm_type manifest;
     pm_conformsTo := pm_conformsTo manifest;
     pm_url := pm_url manifest;
     pm_name := pm_name manifest;
     pm_author := pm_author manifest;
     pm_inLanguage := pm_inLanguage manifest;
     pm_readingProgression := pm_readingProgression manifest;
     pm_dateModified := pm_dateModified manifest;
     pm_readingOrder := pm_readingOrder manifest;
     pm_resources := Some (Many resources);
     pm_links := pm_links manifest |}.

(** [copyWebPublicationAssets]: the effects on the file system, and the
    manifest and its path when the call returns. *)
Definition copyWebPublicationAssets (exportAliases : list ExportAlias)
    (manifestPath input outputDir : str)
  : list FsEffect * option (PublicationManifest * str) :=
  let rel := relExportAliases input exportAliases in
  let copied := copy_all input outputDir manifestPath rel in
  let actualManifestPath := cs_actualManifestPath copied in
  (* Overwrite copied publication.json *)
  match readJSON (source_of (cs_effects copied) actualManifestPath) with
  | None => (cs_effects copied, None)
  | Some parsed =>
      match decodePublicationManifest decodeURI parsed with
      | None => (cs_effects copied, None)
      | Some decoded =>
          let rewritten := fold_left rewrite_manifest rel decoded in
          (* List copied files to resources field *)
          let manifest :=
            sortManifestResources
              (with_resources rewritten
                 (listed_resources outputDir actualManifestPath rewritten
                    (cs_resources copied))) in
          match encodePublicationManifest encodeURI manifest with
          | None => (cs_effects copied, None)
          | Some encoded =>
              (cs_effects copied ++
               [WriteManifest actualManifestPath encoded],
               Some (manifest, actualManifestPath))
          end
      end
  end.

End Copy.

(** The paths, relative to the output directory, that the copies write. *)
Definition copy_targets (rel : list ExportAlias) (files : list str)
  : list str :=
  map (relTarget rel) files.

(** The URLs that a manifest lists in [links], [readingOrder] and
    [resources]. *)
Definition listed_urls (m : Publication.PublicationManifest) : list str :=
  normalizeToUrl (Publication.pm_links m) ++
  normalizeToUrl (Publication.pm_readingOrder m) ++
  normalizeToUrl (Publication.pm_resources m).

End WebExport.

(** A small export: a workspace with a staged manuscript and a staged
    manifest, URLs in which only the space is escaped, and resources
    sorted by insertion. *)
Module DemoExport.
Import Publication WebExport.

Fixpoint str_leb (a b : str) : bool :=
  match a, b with
  | [], _ => true
  | _ :: _, [] => false
  | x :: a', y :: b' =>
      if Ascii.eqb x y then str_leb a' b'
      else nat_of_ascii x <=? nat_of_ascii y
  end.

Fixpoint insert_resource (e : Resource) (l : list Resource)
  : list Resource :=
  match l with
  | [] => [e]
  | x :: l' =>
      if str_leb (resource_url e) (resource_url x) then e :: l
      else x :: insert_resource e l'
  end.

Definition sort_resources (l : list Resource) : list Resource :=
  fold_right insert_resource [] l.

Definition aliases : list ExportAlias :=
  [{| alias_source := lit "/ws/.vs-1.sample.html";
      alias_target := lit "/ws/sample.html" |};
   {| alias_source := lit "/ws/.vs-1.publication.json";
      alias_target := lit "/ws/publication.json" |}].

Definition staged_manifest : PublicationManifest :=
  {| pm_context := [lit "https://schema.org"];
     pm_type := lit "Book";
     pm_conformsTo := None;
     pm_url := None;
     pm_name := Some (lit "Sample");
     pm_author := None;
     pm_inLanguage := None;
     pm_readingProgression := None;
     pm_dateModified := None;
     pm_readingOrder :=
       Some (Many [ResourceLinks
                     {| l_url := lit ".vs-1.sample.html";
                        l_name := Some (lit "Sample");
                        l_encodingFormat := None;
                        l_rel := None;
                        l_type := None |}]);
     pm_resources := Some (Many []);
     pm_links := Some (Many []) |}.

Definition readJSON (p : str) : option PublicationManifest :=
  if str_eqb p (lit "/ws/.vs-1.publication.json")
  then Some staged_manifest
  else None.

Definition run :=
  copyWebPublicationAssets (lit "/") str_eqb
    [lit "image.png"]
    [lit ".vs-1.publication.json"; lit ".vs-1.sample.html";
     lit "sample.html"; lit "image.png"]
    readJSON DemoPublication.unescape_spaces DemoPublication.escape_spaces
    sort_resources aliases (lit "/ws/.vs-1.publication.json") (lit "/ws")
    (lit "/out").

End DemoExport.

(** ** The manifest of the first builder: [generateManifest] *)

Module Builder.

(** [Entry]: the members that [generateManifest] reads. *)
Record Entry := { en_path : str; en_title : option str }.

(** [ManifestOption]; [mo_toc] is a boolean or the path of a document. *)
Record ManifestOption := {
  mo_title : option str;
  mo_author : option str;
  mo_language : option str;
  mo_modified : str;
  mo_entries : list Entry;
  mo_toc : option (bool + str);
  mo_cover : option str }.

(** [ManifestEntry] *)
Record ManifestEntry := {
  me_href : str;
  me_type : str;
  me_rel : option str;
  me_title : option str;
  me_width : option nat;
  me_height : option nat }.

Record Manifest := {
  mf_context : str;
  mf_metadata_type : str;
  mf_title : option str;
  mf_author : option str;
  mf_language : option str;
  mf_modified : str;
  mf_links : list ManifestEntry;
  mf_readingOrder : list ManifestEntry;
  mf_resources : list ManifestEntry }.

(** What [imageSize] of image-size returns. *)
Record ImageInfo := {
  im_width : option nat;
  im_height : option nat;
  im_type : option str }.

(** [!!options.toc] *)
Definition toc_truthy (toc : option (bool + str)) : bool :=
  match toc with
  | Some (inl b) => b
  | Some (inr s) => truthy s
  | None => false
  end.

Section Generate.

(** [imageSize]; [None] when it throws *)
Variable imageSize : str -> option ImageInfo.
(** [lookup] of mime-types; [None] is its [false] *)
Variable mime : str -> option str.

(** [generateManifest]: the file written and the manifest serialized
    into it; [None] when reading the cover image throws. *)
Definition generateManifest (outputPath : str) (options : ManifestOption)
  : option (str * Manifest) :=
  let entries :=
    map (fun entry =>
           {| me_href := en_path entry;
              me_type := lit "text/html";
              me_rel := None;
              me_title := en_title entry;
              me_width := None;
              me_height := None |})
        (mo_entries options) in
  let entries' :=
    if toc_truthy (mo_toc options)
    then {| me_href := lit "toc.html";
            me_type := lit "text/html";
            me_rel := Some (lit "contents");
            me_title := Some (lit "Table of Contents");
            me_width := None;
            me_height := None |} :: entries
    else entries in
  let links : option (list ManifestEntry) :=
    match mo_cover options with
    | Some ((_ :: _) as cover) =>
        match imageSize cover with
        | None => None
        | Some info =>
            match im_type info with
            | Some ((_ :: _) as type) =>
                match mime type with
                | Some ((_ :: _) as mimeType) =>
                    Some [{| me_href := lit "cover." ++ type;
                             me_type := mimeType;
                             me_rel := Some (lit "cover");
                             me_title := None;
                             me_width := im_width info;
                             me_height := im_height info |}]
                | _ => Some []
                end
            | _ => Some []
            end
        end
    | _ => Some []
    end in
  match links with
  | None => None
  | Some links' =>
      Some (outputPath,
            {| mf_context :=
                 lit "https://readium.org/webpub-manifest/context.jsonld";
               mf_metadata_type := lit "http://schema.org/Book";
               mf_title := mo_title options;
               mf_author := mo_author options;
               mf_language := mo_language options;
               mf_modified := mo_modified options;
               mf_links := links';
               mf_readingOrder := entries';
               mf_resources := [] |})
  end.

End Generate.

End Builder.

(** A book of two chapters with a table of contents and a PNG cover. *)
Module DemoBuilder.
Import Builder.

Definition imageSize (file : str) : option ImageInfo :=
  if endsWith (lit ".png") file
  then Some {| im_width := Some 600;
               im_height := Some 800;
               im_type := Some (lit "png") |}
  else None.

Definition mime (type : str) : option str :=
  if str_eqb type (lit "png") then Some (lit "image/png") else None.

Definition options : ManifestOption :=
  {| mo_title := Some (lit "Moby Dick");
     mo_author := None;
     mo_language := Some (lit "en");
     mo_modified := lit "2020-01-01T00:00:00.000Z";
     mo_entries :=
       [{| en_path := lit "chapter1.html"; en_title := Some (lit "One") |};
        {| en_path := lit "chapter2.html"; en_title := None |}];
     mo_toc := Some (inl true);
     mo_cover := Some (lit "/book/cover.png") |}.

End DemoBuilder.

(** * Properties *)

(** ** Strings and paths *)

Lemma str_eqb_refl (a : str) : str_eqb a a = true.
Proof.
  induction a as [|c a IH]; simpl; [reflexivity|].
  now rewrite Ascii.eqb_refl, IH.
Qed.

Lemma str_eqb_eq (a b : str) : str_eqb a b = true <-> a = b.
Proof.
  split.
  - revert b; induction a as [|c a IH]; intros [|d b]; simpl; try discriminate;
      [reflexivity|].
    intros H; apply andb_true_iff in H; destruct H as [H1 H2].
    apply Ascii.eqb_eq in H1; subst; f_equal; auto.
  - intros ->; apply str_eqb_refl.
Qed.

Module PathFacts.
Import Path PathSpec.

Lemma split_nonempty (l : str) : split l <> [].
Proof.
  destruct l as [|c r]; simpl; [discriminate|].
  destruct (is_slash c); [discriminate|].
  destruct (split r); discriminate.
Qed.

Lemma split_app_slash (x y : str) :
  split (x ++ "/"%char :: y) = split x ++ split y.
Proof.
  induction x as [|c x IH]; simpl; [reflexivity|].
  destruct (is_slash c) eqn:E; [now rewrite IH|].
  rewrite IH.
  destruct (split x) as [|h t] eqn:Ex; [now apply split_nonempty in Ex|].
  reflexivity.
Qed.

Lemma split_no_slash (s : str) :
  Forall (fun c => is_slash c = false) s -> split s = [s].
Proof.
  induction 1 as [|c s Hc Hs IH]; simpl; [reflexivity|].
  now rewrite Hc, IH.
Qed.

Lemma clean_no_slash (s : str) :
  clean s -> Forall (fun c => is_slash c = false) s.
Proof.
  intros (_ & H & _). eapply Forall_impl; [|exact H]. now intros c [? _].
Qed.

Lemma split_join (segs : list str) :
  Forall clean segs -> segs <> [] -> split (join_segs segs) = segs.
Proof.
  induction 1 as [|s segs Hs Hsegs IH]; [congruence|]; intros _.
  destruct segs as [|s' segs'].
  - simpl. now apply split_no_slash, clean_no_slash.
  - change (join_segs (s :: s' :: segs'))
      with (s ++ "/"%char :: join_segs (s' :: segs')).
    rewrite split_app_slash, IH by discriminate.
    now rewrite split_no_slash by now apply clean_no_slash.
Qed.

Lemma split_Forall (P : ascii -> Prop) (l : str) :
  Forall P l -> Forall (Forall P) (split l).
Proof.
  induction 1 as [|c r Hc Hr IH]; simpl; [repeat constructor|].
  destruct (is_slash c).
  - constructor; [constructor|exact IH].
  - destruct (split r) as [|h t]; [repeat constructor; exact Hc|].
    inversion IH; subst. constructor; [constructor|]; assumption.
Qed.

Lemma split_segments_no_slash (l : str) :
  Forall (Forall (fun c => is_slash c = false)) (split l).
Proof.
  induction l as [|c r IH]; simpl; [repeat constructor|].
  destruct (is_slash c) eqn:E.
  - constructor; [constructor|exact IH].
  - destruct (split r) as [|h t]; [repeat constructor; exact E|].
    inversion IH; subst. constructor; [constructor|]; assumption.
Qed.

Lemma norm_segs_clean_prefix (a : bool) (l1 l2 st : list str) :
  Forall clean l1 ->
  norm_segs a st (l1 ++ l2) = norm_segs a (rev l1 ++ st) l2.
Proof.
  intros H; revert st; induction H as [|s l1 Hs Hl IH]; intros st;
    [reflexivity|].
  destruct Hs as (Hne & _ & Hd & Hdd).
  simpl. destruct s as [|c s]; [congruence|].
  rewrite Hd, Hdd, IH. now rewrite <- app_assoc.
Qed.

Lemma norm_segs_clean (segs : list str) :
  Forall clean segs -> norm_segs false [] ([] :: segs ++ [[]]) = segs.
Proof.
  intros H. simpl. rewrite norm_segs_clean_prefix by exact H.
  simpl. rewrite app_nil_r. apply rev_involutive.
Qed.

Lemma norm_segs_keeps_clean (st segs : list str) :
  Forall clean st -> Forall (Forall plain) segs ->
  Forall clean (norm_segs false st segs).
Proof.
  intros Hst Hsegs; revert st Hst.
  induction Hsegs as [|s segs Hs Hsegs IH]; intros st Hst; simpl.
  - now apply Forall_rev.
  - destruct s as [|c s]; [now apply IH|].
    destruct (is_dot (c :: s)) eqn:Hd; [now apply IH|].
    destruct (is_dotdot (c :: s)) eqn:Hdd.
    + destruct st as [|top st']; [now apply IH|].
      inversion Hst; subst.
      destruct (is_dotdot top); apply IH; assumption.
    + apply IH. constructor; [|exact Hst].
      repeat split; [discriminate|exact Hs|exact Hd|exact Hdd].
Qed.

Lemma unbackslash_plain_or_slash (c : ascii) :
  is_backslash (unbackslash c) = false.
Proof.
  unfold unbackslash. destruct (is_backslash c) eqn:E; [reflexivity|exact E].
Qed.

Lemma collapse_no_backslash (b : bool) (l : str) :
  Forall (fun c => is_backslash c = false) l ->
  Forall (fun c => is_backslash c = false) (collapse b l).
Proof.
  intros H; revert b; induction H as [|c l Hc Hl IH]; intros b; simpl;
    [constructor|].
  destruct (is_slash c); [destruct b|]; try constructor; auto.
Qed.

Lemma toUnix_no_backslash (p : str) :
  Forall (fun c => is_backslash c = false) (toUnix p).
Proof.
  unfold toUnix.
  assert (H : Forall (fun c => is_backslash c = false) (map unbackslash p)).
  { induction p; simpl; constructor; auto using unbackslash_plain_or_slash. }
  destruct (map unbackslash p) as [|c r]; [constructor|].
  inversion H; subst. constructor; [assumption|].
  now apply collapse_no_backslash.
Qed.

Lemma map_unbackslash_id (l : str) :
  Forall (fun c => is_backslash c = false) l -> map unbackslash l = l.
Proof.
  induction 1 as [|c l Hc Hl IH]; simpl; [reflexivity|].
  unfold unbackslash at 1. now rewrite Hc, IH.
Qed.

Lemma collapse_plain_app (b : bool) (s t : str) :
  s <> [] -> Forall plain s -> collapse b (s ++ t) = s ++ collapse false t.
Proof.
  intros Hne H; revert b; induction H as [|c s [Hc _] Hs IH]; intros b;
    [congruence|].
  simpl. rewrite Hc. f_equal.
  destruct s as [|c' s']; [reflexivity|].
  apply IH; discriminate.
Qed.

Lemma collapse_plain (b : bool) (s : str) :
  Forall plain s -> collapse b s = s.
Proof.
  intros H; revert b; induction H as [|c s [Hc _] Hs IH]; intros b; simpl;
    [reflexivity|].
  now rewrite Hc, IH.
Qed.

Lemma collapse_join (segs : list str) :
  Forall clean segs -> collapse false (join_segs segs) = join_segs segs.
Proof.
  induction 1 as [|s segs Hs Hsegs IH]; [reflexivity|].
  destruct Hs as (Hne & Hp & _).
  destruct segs as [|s' segs'].
  - simpl. now apply collapse_plain.
  - change (join_segs (s :: s' :: segs'))
      with (s ++ "/"%char :: join_segs (s' :: segs')).
    rewrite collapse_plain_app by assumption.
    f_equal. simpl collapse at 1. cbn [is_slash].
    change (is_slash "/"%char) with true. cbv iota.
    f_equal.
    inversion Hsegs as [|? ? (Hne' & Hp' & _) ?]; subst.
    destruct segs' as [|s'' segs''].
    + simpl. simpl in IH.
      destruct s' as [|c' r']; [congruence|].
      inversion Hp' as [|? ? [Hc' _] ?]; subst.
      simpl. rewrite Hc'. f_equal.
      now apply collapse_plain.
    + change (join_segs (s' :: s'' :: segs''))
        with (s' ++ "/"%char :: join_segs (s'' :: segs'')).
      rewrite collapse_plain_app by assumption.
      change (join_segs (s' :: s'' :: segs''))
        with (s' ++ "/"%char :: join_segs (s'' :: segs'')) in IH.
      rewrite collapse_plain_app in IH by assumption.
      exact IH.
Qed.

Lemma clean_no_backslash (s : str) :
  clean s -> Forall (fun c => is_backslash c = false) s.
Proof.
  intros (_ & H & _). eapply Forall_impl; [|exact H]. now intros c [_ ?].
Qed.

Lemma join_no_backslash (segs : list str) :
  Forall clean segs -> Forall (fun c => is_backslash c = false) (join_segs segs).
Proof.
  induction 1 as [|s segs Hs Hsegs IH]; [constructor|].
  destruct segs as [|s' segs'].
  - simpl. now apply clean_no_backslash.
  - change (join_segs (s :: s' :: segs'))
      with (s ++ "/"%char :: join_segs (s' :: segs')).
    apply Forall_app; split; [now apply clean_no_backslash|].
    constructor; [reflexivity|exact IH].
Qed.

Lemma toUnix_normal_abs (p : str) : normal_abs p -> toUnix p = p.
Proof.
  intros (segs & Hc & ->). unfold toUnix.
  rewrite map_unbackslash_id.
  - f_equal. now apply collapse_join.
  - constructor; [reflexivity|now apply join_no_backslash].
Qed.

Lemma isAbsolute_toUnix (p : str) : isAbsolute p = true -> isAbsolute (toUnix p) = true.
Proof.
  destruct p as [|c r]; simpl; [discriminate|].
  unfold toUnix. simpl. unfold unbackslash.
  destruct (is_backslash c); [reflexivity|auto].
Qed.

Lemma gather_absolute_last (pre : list str) (p : str) :
  isAbsolute p = true -> gather (pre ++ [p]) = (p ++ ["/"%char], true).
Proof.
  intros Hp. induction pre as [|a pre IH].
  - destruct p as [|c r]; [discriminate|].
    cbn [app gather]. now rewrite Hp.
  - cbn [app gather]. now rewrite IH.
Qed.

Lemma posix_resolve_absolute (cwd0 : str) (pre : list str) (p : str) :
  isAbsolute p = true ->
  posix_resolve cwd0 (pre ++ [p]) =
  "/"%char :: join_segs (norm_segs false [] (split (p ++ ["/"%char]))).
Proof.
  intros Hp. unfold posix_resolve.
  change (cwd0 :: pre ++ [p]) with ((cwd0 :: pre) ++ [p]).
  now rewrite gather_absolute_last.
Qed.

Lemma posix_resolve_normal (cwd0 : str) (pre : list str) (p : str) :
  isAbsolute p = true ->
  Forall (fun c => is_backslash c = false) p ->
  normal_abs (posix_resolve cwd0 (pre ++ [p])).
Proof.
  intros Hp Hb. rewrite posix_resolve_absolute by exact Hp.
  eexists; split; [|reflexivity].
  apply norm_segs_keeps_clean; [constructor|].
  assert (Hsl := split_segments_no_slash (p ++ ["/"%char])).
  assert (Hbs : Forall (Forall (fun c => is_backslash c = false))
                  (split (p ++ ["/"%char]))).
  { apply split_Forall, Forall_app; split; [exact Hb|].
    constructor; [reflexivity|constructor]. }
  revert Hsl Hbs. generalize (split (p ++ ["/"%char])).
  induction l as [|s l IH]; intros Hsl Hbs; [constructor|].
  inversion Hsl; inversion Hbs; subst. constructor; [|auto].
  rewrite Forall_forall in *. intros c Hc. split; auto.
Qed.

Lemma posix_resolve_fixed (cwd0 : str) (pre : list str) (p : str) :
  normal_abs p -> posix_resolve cwd0 (pre ++ [p]) = p.
Proof.
  intros (segs & Hc & ->).
  rewrite posix_resolve_absolute by reflexivity.
  f_equal. f_equal.
  destruct segs as [|s segs'].
  - reflexivity.
  - change (("/"%char :: join_segs (s :: segs')) ++ ["/"%char])
      with ([] ++ "/"%char :: (join_segs (s :: segs') ++ "/"%char :: [])).
    rewrite split_app_slash, split_app_slash.
    rewrite split_join by (assumption || discriminate).
    simpl split.
    change ([[]] ++ (s :: segs') ++ [[]]) with ([] :: (s :: segs') ++ [[]]).
    now apply norm_segs_clean.
Qed.

(** [upath.resolve] of an absolute last argument is an absolute path in
    normal form, whatever the other arguments and the working directory. *)
Lemma resolve_absolute_normal (cwd0 : str) (pre : list str) (p : str) :
  isAbsolute p = true -> normal_abs (resolve cwd0 (pre ++ [p])).
Proof.
  intros Hp. unfold resolve. rewrite map_app. simpl map.
  assert (H : normal_abs (posix_resolve cwd0 (map toUnix pre ++ [toUnix p]))).
  { apply posix_resolve_normal;
      [now apply isAbsolute_toUnix|apply toUnix_no_backslash]. }
  now rewrite (toUnix_normal_abs _ H).
Qed.

(** [upath.resolve] leaves an absolute path in normal form as it is. *)
Lemma resolve_normal_fixed (cwd0 : str) (pre : list str) (p : str) :
  normal_abs p -> resolve cwd0 (pre ++ [p]) = p.
Proof.
  intros Hp. unfold resolve. rewrite map_app. simpl map.
  rewrite (toUnix_normal_abs _ Hp), posix_resolve_fixed by exact Hp.
  now apply toUnix_normal_abs.
Qed.

Lemma abs_path_normal (segs : list str) :
  Forall clean segs -> normal_abs (abs_path segs).
Proof. intros H. now exists segs. Qed.

Lemma join_snoc (segs : list str) (name : str) :
  join_segs (segs ++ [name]) =
  match segs with
  | [] => name
  | _ :: _ => join_segs segs ++ "/"%char :: name
  end.
Proof.
  induction segs as [|s segs IH]; [reflexivity|].
  destruct segs as [|s' segs'].
  - reflexivity.
  - change (join_segs ((s :: s' :: segs') ++ [name]))
      with (s ++ "/"%char :: join_segs ((s' :: segs') ++ [name])).
    rewrite IH.
    change (join_segs (s :: s' :: segs'))
      with (s ++ "/"%char :: join_segs (s' :: segs')).
    now rewrite <- app_assoc.
Qed.

Lemma join_app_last (segs : list str) (a b : str) :
  join_segs (segs ++ [a ++ b]) = join_segs (segs ++ [a]) ++ b.
Proof.
  rewrite !join_snoc. destruct segs; [reflexivity|].
  now rewrite <- app_assoc.
Qed.

Lemma join_nonempty (s : str) (segs : list str) :
  clean s -> join_segs (s :: segs) <> [].
Proof.
  intros (Hne & _). destruct s as [|c s]; [congruence|].
  destruct segs; discriminate.
Qed.

Lemma toUnix_plain (s : str) : Forall plain s -> toUnix s = s.
Proof.
  intros H. unfold toUnix.
  rewrite map_unbackslash_id
    by (eapply Forall_impl; [|exact H]; now intros c [_ ?]).
  destruct s as [|c r]; [reflexivity|].
  inversion H; subst. f_equal. now apply collapse_plain.
Qed.

Lemma toUnix_join (segs : list str) :
  Forall clean segs -> toUnix (join_segs segs) = join_segs segs.
Proof.
  intros H. unfold toUnix.
  rewrite map_unbackslash_id by (apply join_no_backslash, H).
  destruct (join_segs segs) as [|c r] eqn:E; [reflexivity|].
  pose proof (collapse_join _ H) as C. rewrite E in C.
  assert (Hc : is_slash c = false).
  { destruct segs as [|s segs]; [discriminate|].
    inversion H as [|? ? (Hne & Hp & _) ?]; subst.
    destruct s as [|c0 s0]; [congruence|].
    inversion Hp as [|? ? [Hc0 _] ?]; subst.
    destruct segs; cbn in E; injection E as <- _; exact Hc0. }
  cbn [collapse] in C. rewrite Hc in C. exact C.
Qed.

Lemma dropWhile_head (f : ascii -> bool) (c : ascii) (l : str) :
  f c = false -> dropWhile f (c :: l) = c :: l.
Proof. cbn. now intros ->. Qed.

Lemma takeWhile_app_stop (f : ascii -> bool) (x y : str) (c : ascii) :
  Forall (fun a => f a = true) x -> f c = false ->
  takeWhile f (x ++ c :: y) = x.
Proof.
  intros Hx Hc. induction Hx as [|a x Ha Hx IH]; cbn.
  - now rewrite Hc.
  - now rewrite Ha, IH.
Qed.

Lemma dropWhile_app_stop (f : ascii -> bool) (x y : str) (c : ascii) :
  Forall (fun a => f a = true) x -> f c = false ->
  dropWhile f (x ++ c :: y) = c :: y.
Proof.
  intros Hx Hc. induction Hx as [|a x Ha Hx IH]; cbn.
  - now rewrite Hc.
  - now rewrite Ha.
Qed.

Lemma dropWhile_all (f : ascii -> bool) (x : str) :
  Forall (fun a => f a = true) x -> dropWhile f x = [].
Proof.
  induction 1 as [|a x Ha Hx IH]; cbn; [reflexivity|]. now rewrite Ha.
Qed.

Lemma plain_not_slash (x : str) :
  Forall plain x -> Forall (fun a => not_slash a = true) x.
Proof.
  intros H. eapply Forall_impl; [|exact H].
  intros a [Ha _]. unfold not_slash. now rewrite Ha.
Qed.

Lemma abs_path_snoc (segs : list str) (name : str) :
  abs_path (segs ++ [name]) = dir_prefix segs ++ "/"%char :: name.
Proof.
  unfold abs_path, dir_prefix. rewrite join_snoc.
  destruct segs; reflexivity.
Qed.

Lemma posix_basename_child (pre name : str) :
  clean name -> posix_basename (pre ++ "/"%char :: name) = name.
Proof.
  intros (Hne & Hp & _). unfold posix_basename.
  rewrite rev_app_distr. cbn [rev]. rewrite <- app_assoc. cbn [app].
  assert (Hr : Forall plain (rev name)) by now apply Forall_rev.
  destruct (rev name) as [|c r] eqn:E.
  { apply (f_equal (@rev ascii)) in E. rewrite rev_involutive in E.
    now subst name. }
  assert (Hc : is_slash c = false) by (inversion Hr as [|? ? [? _] ?]; auto).
  cbn [app]. rewrite dropWhile_head by exact Hc.
  change (c :: r ++ "/"%char :: rev pre) with ((c :: r) ++ "/"%char :: rev pre).
  rewrite takeWhile_app_stop;
    [|apply plain_not_slash; exact Hr|reflexivity].
  rewrite <- E. apply rev_involutive.
Qed.

Lemma basename_child (segs : list str) (name : str) :
  Forall clean segs -> clean name ->
  basename (abs_path (segs ++ [name])) = name.
Proof.
  intros Hs Hn. unfold basename.
  rewrite (toUnix_normal_abs (abs_path (segs ++ [name])))
    by (apply abs_path_normal, Forall_app; split; [exact Hs|now constructor]).
  rewrite abs_path_snoc, posix_basename_child by exact Hn.
  apply toUnix_plain. now destruct Hn as (_ & ? & _).
Qed.

Lemma dirname_child (segs : list str) (name : str) :
  Forall clean segs -> clean name ->
  dirname (abs_path (segs ++ [name])) = abs_path segs.
Proof.
  intros Hs Hn. unfold dirname.
  rewrite (toUnix_normal_abs (abs_path (segs ++ [name])))
    by (apply abs_path_normal, Forall_app; split; [exact Hs|now constructor]).
  assert (Hd : posix_dirname (abs_path (segs ++ [name])) = abs_path segs).
  { destruct Hn as (Hne & Hp & _).
    assert (Hr : Forall plain (rev name)) by now apply Forall_rev.
    unfold posix_dirname, abs_path. rewrite join_snoc.
    change (is_slash "/"%char) with true. cbv iota.
    destruct (rev name) as [|c r] eqn:E.
    { apply (f_equal (@rev ascii)) in E. rewrite rev_involutive in E.
      now subst name. }
    assert (Hc : is_slash c = false)
      by (inversion Hr as [|? ? [? _] ?]; auto).
    destruct segs as [|s segs'].
    - rewrite E. rewrite dropWhile_head by exact Hc.
      rewrite dropWhile_all by (apply plain_not_slash; exact Hr).
      reflexivity.
    - rewrite rev_app_distr. cbn [rev]. rewrite <- app_assoc. cbn [app].
      rewrite E. cbn [app]. rewrite dropWhile_head by exact Hc.
      change (c :: r ++ "/"%char :: rev (join_segs (s :: segs')))
        with ((c :: r) ++ "/"%char :: rev (join_segs (s :: segs'))).
      rewrite dropWhile_app_stop;
        [|apply plain_not_slash; exact Hr|reflexivity].
      inversion Hs; subst.
      destruct (rev (join_segs (s :: segs'))) as [|c' r'] eqn:Ej.
      { apply (f_equal (@rev ascii)) in Ej. rewrite rev_involutive in Ej.
        now apply join_nonempty in Ej. }
      rewrite <- Ej. now rewrite rev_involutive. }
  rewrite Hd. apply toUnix_normal_abs, abs_path_normal, Hs.
Qed.

Lemma norm_segs_all_clean (segs : list str) :
  Forall clean segs -> norm_segs false [] segs = segs.
Proof.
  intros H. rewrite <- (app_nil_r segs) at 1.
  rewrite norm_segs_clean_prefix by exact H.
  cbn [norm_segs]. rewrite app_nil_r. apply rev_involutive.
Qed.

Lemma norm_segs_skip (a : bool) (st l : list str) :
  norm_segs a st ([] :: l) = norm_segs a st l.
Proof. reflexivity. Qed.

Lemma abs_segs_abs_path (segs : list str) :
  Forall clean segs -> abs_segs (abs_path segs) = segs.
Proof.
  intros H. unfold abs_segs, abs_path.
  destruct segs as [|s segs]; [reflexivity|].
  change ("/"%char :: join_segs (s :: segs))
    with ([] ++ "/"%char :: join_segs (s :: segs)).
  rewrite split_app_slash, split_join by (assumption || discriminate).
  cbn [split app]. rewrite norm_segs_skip.
  now apply norm_segs_all_clean.
Qed.

Lemma strip_common_prefix (a sub : list str) :
  strip_common a (a ++ sub) = ([], sub).
Proof.
  induction a as [|x a IH]; cbn.
  - now destruct sub.
  - now rewrite str_eqb_refl.
Qed.

Lemma posix_resolve_one (cwd0 p : str) :
  normal_abs p -> posix_resolve cwd0 [p] = p.
Proof. intros H. exact (posix_resolve_fixed cwd0 [] p H). Qed.

(** The path from a directory to a path below it is the list of the
    segments in between. *)
Lemma relative_below (cwd0 : str) (a sub : list str) :
  Forall clean a -> Forall clean sub ->
  relative cwd0 (abs_path a) (abs_path (a ++ sub)) = join_segs sub.
Proof.
  intros Ha Hsub.
  assert (Hab : Forall clean (a ++ sub)) by (apply Forall_app; now split).
  unfold relative.
  rewrite (toUnix_normal_abs (abs_path a)),
    (toUnix_normal_abs (abs_path (a ++ sub)))
    by now apply abs_path_normal.
  unfold posix_relative.
  rewrite (posix_resolve_one cwd0 (abs_path a)),
    (posix_resolve_one cwd0 (abs_path (a ++ sub)))
    by now apply abs_path_normal.
  destruct (str_eqb (abs_path a) (abs_path (a ++ sub))) eqn:E.
  - apply str_eqb_eq in E. apply (f_equal abs_segs) in E.
    rewrite !abs_segs_abs_path in E by assumption.
    rewrite <- (app_nil_r a) in E at 1. apply app_inv_head in E.
    now subst sub.
  - rewrite !abs_segs_abs_path by assumption.
    rewrite strip_common_prefix. cbn [map app].
    now apply toUnix_join.
Qed.

Lemma clean_not_absolute (name : str) (rest : str) :
  clean name -> isAbsolute (name ++ rest) = false.
Proof.
  intros (Hne & Hp & _). destruct name as [|c name]; [congruence|].
  inversion Hp as [|? ? [Hc _] ?]; subst. exact Hc.
Qed.

Lemma norm_segs_clean_tail (segs : list str) :
  Forall clean segs -> norm_segs false [] (segs ++ [[]]) = segs.
Proof.
  intros H. rewrite norm_segs_clean_prefix by exact H.
  cbn [norm_segs]. rewrite app_nil_r. apply rev_involutive.
Qed.

Lemma split_abs_path (segs : list str) :
  Forall clean segs ->
  split (abs_path segs) =
  [] :: match segs with [] => [[]] | _ :: _ => segs end.
Proof.
  intros H. unfold abs_path.
  change (is_slash "/"%char) with true. cbn [split].
  change (is_slash "/"%char) with true. cbv iota.
  destruct segs as [|s segs]; [reflexivity|].
  now rewrite split_join by (assumption || discriminate).
Qed.

Lemma gather_below (cwd0 : str) (ws sub : list str) (name : str) :
  Forall clean ws -> Forall clean sub -> clean name ->
  gather [cwd0; abs_path ws; join_segs sub; name] =
  (abs_path ws ++ "/"%char :: below_tail sub name, true).
Proof.
  intros Hws Hsub Hname.
  assert (Hn : isAbsolute name = false)
    by (rewrite <- (app_nil_r name); now apply clean_not_absolute).
  assert (Hne : name <> []) by now destruct Hname.
  unfold below_tail. cbn [gather].
  destruct name as [|c r]; [congruence|].
  rewrite Hn.
  destruct (join_segs sub) as [|c0 js0] eqn:Ej.
  - reflexivity.
  - assert (Hna : isAbsolute (c0 :: js0) = false).
    { rewrite <- Ej. destruct sub as [|s sub']; [discriminate|].
      inversion Hsub as [|? ? Hs ?]; subst.
      destruct sub'; cbn [join_segs];
        [rewrite <- (app_nil_r s)|]; now apply clean_not_absolute. }
    rewrite Hna. reflexivity.
Qed.

Lemma split_below_tail (sub : list str) (name : str) :
  Forall clean sub -> clean name ->
  split (below_tail sub name) = sub ++ [name; []].
Proof.
  intros Hsub Hname. unfold below_tail.
  destruct sub as [|s sub'].
  - cbn [join_segs app]. rewrite split_app_slash.
    now rewrite split_no_slash by (apply clean_no_slash, Hname).
  - destruct (join_segs (s :: sub')) as [|c0 js0] eqn:Ej.
    { exfalso. inversion Hsub; subst. now apply (join_nonempty s sub'). }
    rewrite <- Ej, split_app_slash, split_join
      by (assumption || discriminate).
    rewrite split_app_slash.
    now rewrite split_no_slash by (apply clean_no_slash, Hname).
Qed.

(** Resolving a relative path of clean segments against an absolute
    directory in normal form appends the segments. *)
Lemma resolve_below (cwd0 : str) (ws sub : list str) (name : str) :
  Forall clean ws -> Forall clean sub -> clean name ->
  resolve cwd0 [abs_path ws; join_segs sub; name] =
  abs_path (ws ++ sub ++ [name]).
Proof.
  intros Hws Hsub Hname.
  assert (Hall : Forall clean (ws ++ sub ++ [name])).
  { apply Forall_app; split; [exact Hws|].
    apply Forall_app; split; [exact Hsub|now constructor]. }
  unfold resolve. cbn [map].
  rewrite (toUnix_normal_abs _ (abs_path_normal _ Hws)).
  rewrite (toUnix_join _ Hsub).
  rewrite (toUnix_plain name) by now destruct Hname as (_ & ? & _).
  assert (Hres : posix_resolve cwd0 [abs_path ws; join_segs sub; name] =
                 abs_path (ws ++ sub ++ [name])).
  { unfold posix_resolve. rewrite gather_below by assumption.
    unfold normalizeString. cbn [negb].
    rewrite split_app_slash, split_abs_path, split_below_tail by assumption.
    unfold abs_path. f_equal. f_equal.
    destruct ws as [|w0 ws'].
    - cbn [app]. rewrite !norm_segs_skip.
      change (sub ++ [name; []]) with (sub ++ [name] ++ [[]]).
      rewrite app_assoc. now apply norm_segs_clean_tail.
    - rewrite <- app_comm_cons, norm_segs_skip.
      change (sub ++ [name; []]) with (sub ++ [name] ++ [[]]).
      rewrite !app_assoc.
      apply norm_segs_clean_tail.
      rewrite <- app_assoc. exact Hall. }
  rewrite Hres. now apply toUnix_normal_abs, abs_path_normal.
Qed.

Lemma resolve_skip_empty (cwd0 a n : str) :
  resolve cwd0 [a; []; n] = resolve cwd0 [a; n].
Proof.
  unfold resolve, posix_resolve. cbn [map toUnix gather].
  destruct (match toUnix n with
            | [] => ([], false)
            | _ :: _ => (toUnix n ++ ["/"%char], isAbsolute (toUnix n))
            end) as [r [|]]; reflexivity.
Qed.

Lemma resolve_child (cwd0 : str) (ws : list str) (name : str) :
  Forall clean ws -> clean name ->
  resolve cwd0 [abs_path ws; name] = abs_path (ws ++ [name]).
Proof.
  intros Hws Hname. rewrite <- resolve_skip_empty.
  exact (resolve_below cwd0 ws [] name Hws (Forall_nil _) Hname).
Qed.

Lemma startsWith_app (p x : str) : startsWith p (p ++ x) = true.
Proof.
  induction p as [|c p IH]; cbn; [reflexivity|].
  now rewrite Ascii.eqb_refl, IH.
Qed.

Lemma replace_suffix_app (suffix repl x : str) :
  replace_suffix suffix repl (x ++ suffix) = x ++ repl.
Proof.
  unfold replace_suffix, endsWith.
  rewrite rev_app_distr, startsWith_app, length_app.
  replace (List.length x + List.length suffix - List.length suffix)
    with (List.length x + 0) by lia.
  rewrite firstn_app_2. cbn [firstn]. now rewrite app_nil_r.
Qed.

Lemma abs_path_app_last (segs : list str) (a b : str) :
  abs_path (segs ++ [a ++ b]) = abs_path (segs ++ [a]) ++ b.
Proof. unfold abs_path. now rewrite join_app_last. Qed.

(** A name of three plain characters or more is a clean segment. *)
Lemma clean_long (x : str) :
  Forall plain x -> 3 <= List.length x -> clean x.
Proof.
  intros Hx Hlen. repeat split.
  - intros ->. cbn in Hlen. lia.
  - exact Hx.
  - destruct (is_dot x) eqn:E; [|reflexivity].
    apply str_eqb_eq in E. subst x. cbn in Hlen. lia.
  - destruct (is_dotdot x) eqn:E; [|reflexivity].
    apply str_eqb_eq in E. subst x. cbn in Hlen. lia.
Qed.

End PathFacts.

(** ** The Output Target Normalizer *)

Section Outputs.

Variable w : World.

Lemma resolveOutput_as_target (context : str) (pressReady : bool)
    (t : OutputTarget) :
  Path.isAbsolute (t_path t) = true ->
  resolveOutput w context pressReady
    (as_target (resolveOutput w context pressReady t)) =
  resolveOutput w context pressReady t.
Proof.
  intros Habs.
  assert (Hfix : resolve w [context; resolve w [context; t_path t]] =
                 resolve w [context; t_path t]).
  { unfold resolve.
    apply (PathFacts.resolve_normal_fixed (cwd w) [context]).
    apply (PathFacts.resolve_absolute_normal (cwd w) [context]), Habs. }
  unfold resolveOutput.
  destruct (t_format t);
    cbn [as_target t_path t_format t_renderMode t_preflight
         t_preflightOption];
    now rewrite Hfix.
Qed.

End Outputs.

(** C9, as the code has it: for every declared output whose path is
    absolute, the resolved path is an absolute path in normal form (a slash,
    then segments separated by one slash each, none of them empty, [.] or
    [..], and none holding a backslash); resolving it against the context
    directory again leaves it as it is, and feeding the resolved output back
    as a declared output gives the same output.  The declared path itself is
    left unchanged exactly when it is in normal form already. *)
Theorem normal_output_paths_are_kept (w : World) (context : str)
    (config : ParsedBuildTask) (targets : list OutputTarget)
    (t : OutputTarget) :
  cfg_output config = Some targets ->
  In t targets ->
  Path.isAbsolute (t_path t) = true ->
  let o := resolveOutput w context (cfg_pressReady config) t in
  In o (resolveOutputs w context config) /\
  PathSpec.normal_abs (output_path o) /\
  (output_path o = t_path t <-> PathSpec.normal_abs (t_path t)) /\
  resolve w [context; output_path o] = output_path o /\
  resolveOutput w context (cfg_pressReady config) (as_target o) = o.
Proof.
  intros Hout Hin Habs o.
  assert (Hp : output_path o = resolve w [context; t_path t])
    by (subst o; unfold resolveOutput; destruct (t_format t); reflexivity).
  assert (Hn : PathSpec.normal_abs (output_path o)).
  { rewrite Hp. unfold resolve.
    apply (PathFacts.resolve_absolute_normal (cwd w) [context]), Habs. }
  split.
  { unfold resolveOutputs. rewrite Hout. apply in_map, Hin. }
  split; [exact Hn|]. split; [|split].
  - split.
    + intros E. rewrite <- E. exact Hn.
    + intros Ht. rewrite Hp. unfold resolve.
      apply (PathFacts.resolve_normal_fixed (cwd w) [context]), Ht.
  - unfold resolve.
    apply (PathFacts.resolve_normal_fixed (cwd w) [context]), Hn.
  - subst o. now apply resolveOutput_as_target.
Qed.

Lemma normal_output_paths_are_kept_witness :
  let w := Demo.world (lit "/home/user") [] in
  let t := Demo.pdf_target (lit "/dist/book.pdf") in
  let config :=
    with_output Demo.empty_config
      (Some [Demo.pdf_target (lit "out/draft.pdf"); t]) in
  let o := resolveOutput w (lit "/proj") (cfg_pressReady config) t in
  map output_path (resolveOutputs w (lit "/proj") config) =
    [lit "/proj/out/draft.pdf"; lit "/dist/book.pdf"] /\
  In o (resolveOutputs w (lit "/proj") config) /\
  PathSpec.normal_abs (output_path o) /\
  (output_path o = t_path t <-> PathSpec.normal_abs (t_path t)) /\
  resolve w [lit "/proj"; output_path o] = output_path o /\
  resolveOutput w (lit "/proj") (cfg_pressReady config) (as_target o) = o.
Proof.
  split; [vm_compute; reflexivity|].
  apply (normal_output_paths_are_kept
           (Demo.world (lit "/home/user") []) (lit "/proj")
           (with_output Demo.empty_config
              (Some [Demo.pdf_target (lit "out/draft.pdf");
                     Demo.pdf_target (lit "/dist/book.pdf")]))
           [Demo.pdf_target (lit "out/draft.pdf");
            Demo.pdf_target (lit "/dist/book.pdf")]
           (Demo.pdf_target (lit "/dist/book.pdf"))).
  - reflexivity.
  - right. left. reflexivity.
  - reflexivity.
Defined.

(** C9, as stated, fails: resolving an absolute path against the context
    directory is not the identity.  The declared output path
    [/out/../dist//book.pdf] is absolute, and the plan holds
    [/dist/book.pdf] in its place. *)
Lemma absolute_output_path_is_rewritten :
  let w := Demo.world (lit "/home/user") [] in
  let t := Demo.pdf_target (lit "/out/../dist//book.pdf") in
  let config := with_output Demo.empty_config (Some [t]) in
  Path.isAbsolute (t_path t) = true /\
  map output_path (resolveOutputs w (lit "/proj") config) =
    [lit "/dist/book.pdf"] /\
  map output_path (resolveOutputs w (lit "/proj") config) <> [t_path t].
Proof.
  cbv zeta. split; [reflexivity|]. split; [vm_compute; reflexivity|].
  vm_compute. discriminate.
Qed.

(** ** Reasoning about runs of the monad *)

Lemma bind_Ok {A B} (m : M A) (k : A -> M B) (s s' : State) (b : B) :
  bind m k s = (Ok b, s') ->
  exists a s1, m s = (Ok a, s1) /\ k a s1 = (Ok b, s').
Proof.
  unfold bind. destruct (m s) as [[a|e] s1]; intros H; [|discriminate].
  now exists a, s1.
Qed.

Lemma bind_Err {A B} (m : M A) (k : A -> M B) (s s' : State) (e : Error) :
  bind m k s = (Err e, s') ->
  m s = (Err e, s') \/ exists a s1, m s = (Ok a, s1) /\ k a s1 = (Err e, s').
Proof.
  unfold bind. destruct (m s) as [[a|e0] s1]; intros H.
  - right. now exists a, s1.
  - left. injection H as -> ->. reflexivity.
Qed.

Lemma ret_Ok {A} (a b : A) (s s' : State) :
  ret a s = (Ok b, s') -> a = b /\ s = s'.
Proof. unfold ret. intros H; injection H; auto. Qed.

Ltac inv_ok H :=
  lazymatch type of H with
  | bind _ _ _ = (Ok _, _) =>
      let a := fresh "a" in
      let s1 := fresh "s" in
      let H1 := fresh "Hm" in
      apply bind_Ok in H; destruct H as (a & s1 & H1 & H)
  | ret _ _ = (Ok _, _) =>
      let Hs := fresh "Hs" in
      apply ret_Ok in H; destruct H as [H Hs]; try subst
  | throw _ _ = (Ok _, _) => discriminate H
  end.

(** Case analysis on the value that decides how the run [H] goes on. *)
Ltac break_in H :=
  lazymatch type of H with
  | (match ?x with _ => _ end) _ = _ => destruct x eqn:?
  | (if ?x then _ else _) _ = _ => destruct x eqn:?
  | (let '(_, _) := ?x in _) _ = _ => destruct x eqn:?
  end.

(** ** Outputs of a resolved plan *)

Section Plan.

Variable w : World.

Lemma composeProjectConfig_common (oc : CommonOpts) (config : ParsedBuildTask)
    (s s' : State) (r : ResolvedTaskConfig) :
  composeProjectConfig w oc config s = (Ok r, s') -> r_common r = oc.
Proof.
  unfold composeProjectConfig. intros H.
  repeat inv_ok H. reflexivity.
Qed.

Lemma composeSingleInputConfig_common (oc : CommonOpts)
    (config : ParsedBuildTask) (input : InputOption)
    (s s' : State) (r : ResolvedTaskConfig) :
  composeSingleInputConfig w oc config input s = (Ok r, s') -> r_common r = oc.
Proof.
  unfold composeSingleInputConfig. intros H.
  inv_ok H. inv_ok H. inv_ok H. inv_ok H.
  destruct a2 as [fallbackTitle viewerInput].
  repeat inv_ok H. reflexivity.
Qed.

Lemma resolveTaskConfig_outputs (config : ParsedBuildTask)
    (options : InlineOptions) (s s' : State) (r : ResolvedTaskConfig) :
  resolveTaskConfig w config options s = (Ok r, s') ->
  outputs (r_common r) = resolveOutputs w (context_of w options) config.
Proof.
  unfold resolveTaskConfig. intros H.
  inv_ok H. inv_ok H. inv_ok H.
  destruct (opt_config options) as [[|c cs]|], (opt_input options) as [i|];
    first [ apply composeProjectConfig_common in H
          | apply composeSingleInputConfig_common in H ];
    rewrite H; reflexivity.
Qed.

End Plan.

(** C3, as the code has it: when the [output] field of the configuration is
    absent, the resolved plan has exactly one output, a PDF at
    [<title>.pdf] resolved against the context directory when the
    configuration has a title that is not empty, and at [output.pdf]
    otherwise; when the field is present, the plan has one output for each
    declared output, hence at least one exactly when the declared list is
    not empty. *)
Theorem outputs_default_or_declared (w : World) (config : ParsedBuildTask)
    (options : InlineOptions) (s s' : State) (r : ResolvedTaskConfig) :
  resolveTaskConfig w config options s = (Ok r, s') ->
  match cfg_output config with
  | None =>
      outputs (r_common r) =
      [PdfOutput
         (resolve w [context_of w options; default_output_name config])
         RenderLocal (defaultPdfPreflight (cfg_pressReady config)) []]
  | Some targets =>
      List.length (outputs (r_common r)) = List.length targets
  end.
Proof.
  intros H. rewrite (resolveTaskConfig_outputs _ _ _ _ _ _ H).
  unfold resolveOutputs, default_output_name.
  destruct (cfg_output config) as [targets|].
  - apply length_map.
  - destruct (cfg_title config) as [[|c t]|]; reflexivity.
Qed.

Lemma outputs_default_or_declared_witness :
  exists r s',
    resolveTaskConfig (Demo.world (lit "/proj") [])
      (Demo.config_with None None []) Demo.no_options initial_state =
      (Ok r, s') /\
    outputs (r_common r) =
      [PdfOutput (lit "/proj/output.pdf") RenderLocal None []].
Proof.
  eexists. eexists. split.
  - vm_compute. reflexivity.
  - exact (outputs_default_or_declared
             (Demo.world (lit "/proj") [])
             (Demo.config_with None None []) Demo.no_options
             initial_state _ _ eq_refl).
Defined.

(** C3, as stated, fails: a configuration that declares the empty output
    list (a title is given, so that the plan is composed) resolves to a plan
    without any output. *)
Lemma declared_empty_outputs_stay_empty :
  exists r s',
    resolveTaskConfig (Demo.world (lit "/proj") [])
      (Demo.config_with (Some (lit "Book")) (Some []) [])
      Demo.no_options initial_state = (Ok r, s') /\
    outputs (r_common r) = [].
Proof.
  eexists. eexists. split; vm_compute; reflexivity.
Qed.

(** ** Theme identity *)

Ltac break_match :=
  match goal with
  | |- context [match ?x with _ => _ end] =>
      lazymatch x with
      | context [match _ with _ => _ end] => fail
      | _ => destruct x eqn:?
      end
  end.

Section ThemeIdentity.

Variable w : World.

(** The state enters [parseTheme] through the touched files only, and the
    only change [parseTheme] makes to it is the allocation of the record. *)
Lemma parseTheme_touched (theme : ThemeSpec) (context ws td : str)
    (s s2 : State) :
  touched s2 = touched s ->
  parseTheme w theme context ws td s2 =
  match parseTheme w theme context ws td s with
  | (Ok a, _) => (Ok {| obj_ref := next_ref s2; obj_val := obj_val a |}, bump s2)
  | (Err e, _) => (Err e, s2)
  end.
Proof.
  intros H.
  destruct s2 as [n2 idx2 al2 t2 w2]. cbn [touched] in H. subst t2.
  unfold parseTheme, bind, existsSync, present, new_theme, ret, throw, bump.
  cbn [next_ref themeIndexes exportAliases touched warnings].
  repeat (cbn [next_ref themeIndexes exportAliases touched warnings] in *;
          try congruence;
          break_match;
          repeat match goal with
                 | E : (_, _) = (_, _) |- _ => injection E as <- <-
                 end;
          try discriminate; try reflexivity).
Qed.

Lemma parseTheme_Ok (theme : ThemeSpec) (context ws td : str)
    (s s1 : State) (a : ThemeObj) :
  parseTheme w theme context ws td s = (Ok a, s1) ->
  obj_ref a = next_ref s /\ s1 = bump s.
Proof.
  intros H.
  pose proof (parseTheme_touched theme context ws td s s eq_refl) as T.
  rewrite H in T. injection T as -> ->. split; reflexivity.
Qed.

Lemma set_add_same (a : ThemeObj) (idx : list ThemeObj) :
  set_add a (set_add a idx) = set_add a idx.
Proof.
  unfold set_add at 2.
  destruct (existsb (same_object a) idx) eqn:E.
  - unfold set_add. now rewrite E.
  - assert (Haa : same_object a a = true)
      by (unfold same_object; apply Nat.eqb_refl).
    unfold set_add. rewrite existsb_app. cbn [existsb].
    rewrite Haa, E. reflexivity.
Qed.

End ThemeIdentity.

(** C2, as the code has it: resolving the same theme reference twice gives
    two records with the same fields that are two objects; the theme index
    is a set of objects, so it holds both of them, and it holds an object
    that is added twice only once. *)
Theorem same_reference_gives_equal_but_distinct_records (w : World)
    (theme : ThemeSpec) (context ws td : str)
    (s s1 s1' s2 : State) (a b : ThemeObj) :
  parseTheme w theme context ws td s = (Ok a, s1) ->
  touched s1' = touched s1 ->
  next_ref s1 <= next_ref s1' ->
  parseTheme w theme context ws td s1' = (Ok b, s2) ->
  obj_val a = obj_val b /\
  same_object a b = false /\
  fold_left (fun idx t => set_add t idx) [a; b] [] = [a; b] /\
  fold_left (fun idx t => set_add t idx) [a; a] [] = [a].
Proof.
  intros Ha Ht Hn Hb.
  destruct (parseTheme_Ok _ _ _ _ _ _ _ _ Ha) as [Hra ->].
  pose proof (parseTheme_touched w theme context ws td s s1') as T.
  cbn [bump touched] in Ht. specialize (T Ht).
  rewrite Ha, Hb in T. injection T as -> _.
  cbn [bump next_ref] in Hn.
  assert (Hab : same_object a
                  {| obj_ref := next_ref s1'; obj_val := obj_val a |} = false).
  { unfold same_object. cbn [obj_ref]. apply Nat.eqb_neq. lia. }
  repeat split.
  - exact Hab.
  - cbn [fold_left]. unfold set_add. cbn [existsb app].
    unfold same_object in *. cbn [obj_ref] in *.
    rewrite Nat.eqb_sym, Hab. reflexivity.
  - cbn [fold_left]. unfold set_add. cbn [existsb app].
    unfold same_object. now rewrite Nat.eqb_refl.
Qed.

Lemma same_reference_gives_equal_but_distinct_records_witness :
  exists a s1 b s2,
    let w := Demo.world (lit "/proj") [lit "/proj/theme.css"] in
    let parse :=
      parseTheme w (ThemeString (lit "./theme.css")) (lit "/proj")
        (lit "/proj/.vivliostyle") (lit "/proj/.vivliostyle/themes") in
    parse initial_state = (Ok a, s1) /\
    parse s1 = (Ok b, s2) /\
    obj_val a =
      FileTheme (lit "theme.css") (lit "/proj/theme.css")
        (lit "/proj/.vivliostyle/theme.css") /\
    obj_val a = obj_val b /\
    same_object a b = false /\
    fold_left (fun idx t => set_add t idx) [a; b] [] = [a; b] /\
    fold_left (fun idx t => set_add t idx) [a; a] [] = [a].
Proof.
  do 4 eexists. cbv zeta.
  split; [vm_compute; reflexivity|].
  split; [vm_compute; reflexivity|].
  split; [vm_compute; reflexivity|].
  exact (same_reference_gives_equal_but_distinct_records
           (Demo.world (lit "/proj") [lit "/proj/theme.css"])
           (ThemeString (lit "./theme.css")) (lit "/proj")
           (lit "/proj/.vivliostyle") (lit "/proj/.vivliostyle/themes")
           initial_state _ _ _ _ _ eq_refl eq_refl (le_n _) eq_refl).
Defined.

(** C2, as stated, fails: a project that names the theme [./theme.css] twice
    resolves to a plan whose theme index holds two entries, with the same
    fields and distinct identities. *)
Lemma same_reference_twice_two_index_entries :
  exists r s' a b,
    resolveTaskConfig (Demo.world (lit "/proj") [lit "/proj/theme.css"])
      (Demo.with_theme (Demo.config_with None None [])
         (Some [ThemeString (lit "./theme.css");
                ThemeString (lit "./theme.css")]))
      Demo.no_options initial_state = (Ok r, s') /\
    themeIndexes s' = [a; b] /\
    obj_val a = obj_val b /\
    same_object a b = false.
Proof.
  do 4 eexists.
  split; [vm_compute; reflexivity|].
  split; [vm_compute; reflexivity|].
  split; vm_compute; reflexivity.
Qed.

(** ** Entries *)

Section EntryFacts.

Variable w : World.
Variable oc : CommonOpts.
Variable lo : str.
Variable toc : TocDefaults.
Variable pt : option str.

Lemma statFileSync_present (p : str) (m : option str) (s : State) :
  present w s p = true -> statFileSync w p m s = (Ok tt, s).
Proof.
  unfold statFileSync, bind, existsSync. now intros ->.
Qed.

Lemma statFileSync_absent (p : str) (m : option str) (s : State) :
  present w s p = false -> statFileSync w p m s = (Err (MissingFile p m), s).
Proof.
  unfold statFileSync, bind, existsSync. now intros ->.
Qed.

(** The fallback never fails: it returns the entry as it is, or, when the
    entry is a contents or cover entry whose path names no file, the entry
    with its path moved to [output], and logs one warning. *)
Lemma pathFallback_cases (entry : EntryObject) (s : State) :
  pathFallback w oc entry s = (Ok entry, s) \/
  exists p,
    e_path entry = Some p /\ truthy p = true /\
    isContentsEntry entry || isCoverEntry entry = true /\
    present w s (resolve w [entryContextDir oc; p]) = false /\
    pathFallback w oc entry s =
      (Ok (path_as_output entry),
       warn s (path_fallback_message (resolve w [entryContextDir oc; p]))).
Proof.
  unfold pathFallback.
  destruct (isContentsEntry entry || isCoverEntry entry) eqn:Hrel;
    [|left; reflexivity].
  destruct (e_path entry) as [p|] eqn:Hp; [|left; reflexivity].
  cbn [opt_truthy andb].
  destruct (truthy p) eqn:Htr; [|left; reflexivity].
  destruct (present w s (resolve w [entryContextDir oc; p])) eqn:Hex.
  - left. unfold try_catch, bind.
    now rewrite (statFileSync_present _ _ _ Hex).
  - right. exists p. repeat split; try assumption.
    unfold try_catch, bind.
    now rewrite (statFileSync_absent _ _ _ Hex).
Qed.

Lemma pathFallback_article (entry : EntryObject) (s : State) :
  isArticleEntry entry = true -> pathFallback w oc entry s = (Ok entry, s).
Proof.
  unfold isArticleEntry, pathFallback. intros H.
  apply andb_true_iff in H. destruct H as [H1 H2].
  apply negb_true_iff in H1, H2. now rewrite H1, H2.
Qed.

Lemma parseEntry_article (entry : EntryObject) (s : State) :
  isArticleEntry entry = true ->
  parseEntry w oc lo toc pt entry s = parseArticleEntry w oc lo pt entry s.
Proof.
  intros H. unfold parseEntry, bind.
  rewrite (pathFallback_article _ _ H).
  unfold isArticleEntry in H.
  apply andb_true_iff in H. destruct H as [H1 H2].
  apply negb_true_iff in H1, H2. now rewrite H1, H2.
Qed.

(** What [getInputInfo] returns for each shape of path. *)
Lemma getInputInfo_Ok (entry : EntryObject) (p : str) (s s' : State)
    (source : EntrySource) (m : option FileMetadata) :
  getInputInfo w oc lo entry p s = (Ok (source, m), s') ->
  if is_http p || startsWith (lit "/") p
  then m = None /\ exists href root, source = UriEntrySource href root
  else exists ct fm,
         source = FileEntrySource (resolve w [entryContextDir oc; p]) ct /\
         isManuscriptMediaType (mime w (resolve w [entryContextDir oc; p])) =
           Some ct /\
         m = Some fm /\
         present w s (resolve w [entryContextDir oc; p]) = true /\
         parseFileMetadata w ct (resolve w [entryContextDir oc; p])
           (workspaceDir oc) (Some (themesDir oc)) s = (Ok fm, s').
Proof.
  unfold getInputInfo.
  destruct (is_http p) eqn:Hh; cbn [orb].
  - destruct (new_URL w p); intros H; [|discriminate].
    inv_ok H. injection H as <- <-. split; eauto.
  - destruct (startsWith (lit "/") p) eqn:Hsl.
    + intros H. inv_ok H. injection H as <- <-. split; eauto.
    + intros H. inv_ok H.
      destruct (present w s (resolve w [entryContextDir oc; p])) eqn:Hex.
      * rewrite (statFileSync_present _ _ _ Hex) in Hm.
        injection Hm as <- <-.
        destruct (isManuscriptMediaType
                    (mime w (resolve w [entryContextDir oc; p])))
          as [ct|] eqn:Hct; [|discriminate].
        inv_ok H. inv_ok H. injection H as <- <-.
        exists ct, a. repeat split; assumption.
      * rewrite (statFileSync_absent _ _ _ Hex) in Hm. discriminate.
Qed.

End EntryFacts.

(** C10: a project-mode manuscript entry whose path is an http(s) URL or
    starts with a slash resolves to an entry with a URI source and the
    content type [text/html]; any other manuscript entry resolves to a file
    source, and its content type is the media type detected for that file. *)
Theorem uri_manuscript_content_type (w : World) (oc : CommonOpts) (lo : str)
    (toc : TocDefaults) (pt : option str) (entry : EntryObject) (p : str)
    (s s' : State) (pe : ParsedEntry) :
  isArticleEntry entry = true ->
  e_path entry = Some p ->
  parseEntry w oc lo toc pt entry s = (Ok pe, s') ->
  exists m,
    pe = Manuscript m /\
    if is_http p || startsWith (lit "/") p
    then m_contentType m = TextHtml /\
         exists href root, m_source m = UriEntrySource href root
    else exists pathname,
           m_source m = FileEntrySource pathname (m_contentType m) /\
           isManuscriptMediaType (mime w pathname) = Some (m_contentType m).
Proof.
  intros Hart Hp H.
  rewrite (parseEntry_article w oc lo toc pt _ _ Hart) in H.
  unfold parseArticleEntry in H. rewrite Hp in H.
  inv_ok H. destruct a as [source metadata].
  pose proof (getInputInfo_Ok w oc lo _ _ _ _ _ _ Hm) as Hinfo.
  repeat inv_ok H. eexists. split; [reflexivity|].
  cbn [m_contentType m_source].
  destruct (is_http p || startsWith (lit "/") p).
  - destruct Hinfo as (_ & href & root & ->). eauto.
  - destruct Hinfo as (ct & fm & -> & Hct & _). eauto.
Qed.

Lemma uri_manuscript_content_type_witness :
  exists m s',
    parseEntry (Demo.world (lit "/proj") []) (Demo.common (lit "/proj/ws"))
      Demo.local_origin (Demo.toc_defaults (lit "/proj/ws")) None
      (Demo.entry_at None (Some (lit "https://example.com/book/ch1")))
      initial_state = (Ok (Manuscript m), s') /\
    m_target m = lit "/proj/ws/example.com/book/ch1/index.html" /\
    m_contentType m = TextHtml /\
    exists href root, m_source m = UriEntrySource href root.
Proof.
  do 2 eexists.
  split; [vm_compute; reflexivity|].
  split; [vm_compute; reflexivity|].
  destruct (uri_manuscript_content_type
              (Demo.world (lit "/proj") []) (Demo.common (lit "/proj/ws"))
              Demo.local_origin (Demo.toc_defaults (lit "/proj/ws")) None
              (Demo.entry_at None (Some (lit "https://example.com/book/ch1")))
              (lit "https://example.com/book/ch1")
              initial_state _ _ eq_refl eq_refl eq_refl)
    as (m & Hm & Hrest).
  injection Hm as <-. exact Hrest.
Defined.

(** ** Theme inheritance *)

Section ThemeInheritance.

Variable w : World.
Variable oc : CommonOpts.
Variable lo : str.
Variable toc : TocDefaults.
Variable pt : option str.

Lemma parseFileMetadata_no_theme (ct : ManuscriptMediaType)
    (path ws : str) (td : option str) (s s' : State) (fm : FileMetadata) :
  metadata_declares_theme w path = false ->
  parseFileMetadata w ct path ws td s = (Ok fm, s') ->
  fm_themes fm = None.
Proof.
  unfold metadata_declares_theme, parseFileMetadata. intros Hno H.
  destruct ct.
  - destruct (readMarkdownMetadata w path) as [md|]; [|discriminate].
    destruct (md_theme md) as [t|].
    + rewrite Hno in H. destruct td as [[|c td]|];
        inv_ok H; reflexivity.
    + inv_ok H. reflexivity.
  - destruct (read_file w path); [|discriminate]. inv_ok H. reflexivity.
  - destruct (read_file w path); [|discriminate]. inv_ok H. reflexivity.
Qed.

Lemma getInputInfo_no_theme (entry : EntryObject) (p : str) (s s' : State)
    (source : EntrySource) (m : option FileMetadata) :
  metadata_declares_theme w (resolve w [entryContextDir oc; p]) = false ->
  getInputInfo w oc lo entry p s = (Ok (source, m), s') ->
  metadata_themes m = None.
Proof.
  intros Hno H. apply getInputInfo_Ok in H.
  destruct (is_http p || startsWith (lit "/") p).
  - destruct H as (-> & _). reflexivity.
  - destruct H as (ct & fm & _ & _ & -> & _ & Hfm).
    cbn [metadata_themes].
    exact (parseFileMetadata_no_theme _ _ _ _ _ _ _ Hno Hfm).
Qed.

Lemma optionalInputInfo_no_theme (entry : EntryObject) (s s' : State)
    (i : option (EntrySource * option FileMetadata)) :
  (forall p, e_path entry = Some p ->
     metadata_declares_theme w (resolve w [entryContextDir oc; p]) = false) ->
  optionalInputInfo w oc lo entry s = (Ok i, s') ->
  metadata_themes (metadata_of i) = None.
Proof.
  unfold optionalInputInfo. intros Hno H.
  destruct (e_path entry) as [[|c p]|].
  - inv_ok H. reflexivity.
  - inv_ok H. inv_ok H. destruct a as [source m]. cbn [metadata_of].
    exact (getInputInfo_no_theme _ _ _ _ _ _ (Hno _ eq_refl) Hm).
  - inv_ok H. reflexivity.
Qed.

Lemma entryThemes_default (entry : EntryObject) (m : option FileMetadata)
    (inherited : list ThemeObj) (s : State) :
  no_theme_override entry = true ->
  metadata_themes m = None ->
  entryThemes w oc entry m inherited s = (Ok inherited, s).
Proof.
  unfold no_theme_override, entryThemes. intros Hno ->.
  destruct (e_theme entry) as [f|]; [|reflexivity].
  apply negb_true_iff in Hno. now rewrite Hno.
Qed.

Lemma pathFallback_Ok (entry entry' : EntryObject) (s s1 : State) :
  pathFallback w oc entry s = (Ok entry', s1) ->
  e_rel entry' = e_rel entry /\
  e_theme entry' = e_theme entry /\
  e_imageSrc entry' = e_imageSrc entry /\
  (e_path entry' = e_path entry \/ e_path entry' = None).
Proof.
  intros H.
  destruct (pathFallback_cases w oc entry s) as [E|(p & _ & _ & _ & _ & E)];
    rewrite E in H; injection H as <- <-; cbn; auto.
Qed.

End ThemeInheritance.

(** C4: an entry with no theme override of its own and no theme declared in
    the metadata of its file resolves to the root themes when it is a
    manuscript or a contents entry, and to no theme when it is a cover
    entry. *)
Theorem default_theme_set (w : World) (oc : CommonOpts) (lo : str)
    (toc : TocDefaults) (pt : option str) (entry : EntryObject)
    (s s' : State) (pe : ParsedEntry) :
  no_theme_override entry = true ->
  (forall p, e_path entry = Some p ->
     metadata_declares_theme w (resolve w [entryContextDir oc; p]) = false) ->
  parseEntry w oc lo toc pt entry s = (Ok pe, s') ->
  is_cover pe = isCoverEntry entry /\
  entry_themes pe = if isCoverEntry entry then [] else rootThemes oc.
Proof.
  intros Hov Hmeta H. unfold parseEntry in H. inv_ok H.
  destruct (pathFallback_Ok w oc _ _ _ _ Hm) as (Hrel & Hth & _ & Hpath).
  assert (Hov' : no_theme_override a = true)
    by (unfold no_theme_override in *; now rewrite Hth).
  assert (Hmeta' : forall p, e_path a = Some p ->
            metadata_declares_theme w (resolve w [entryContextDir oc; p])
            = false).
  { intros p Hp. destruct Hpath as [E|E]; rewrite E in Hp;
      [auto|discriminate]. }
  assert (Hc : isContentsEntry a = isContentsEntry entry)
    by (unfold isContentsEntry; now rewrite Hrel).
  assert (Hv : isCoverEntry a = isCoverEntry entry)
    by (unfold isCoverEntry; now rewrite Hrel).
  rewrite Hc, Hv in H. clear Hm.
  destruct (isContentsEntry entry) eqn:Ec.
  - assert (Ev : isCoverEntry entry = false).
    { unfold isContentsEntry, isCoverEntry in *.
      destruct (e_rel entry) as [[r|rs]|]; try discriminate.
      apply str_eqb_eq in Ec. subst r. reflexivity. }
    rewrite Ev. unfold parseContentsEntry in H.
    inv_ok H. inv_ok H. inv_ok H.
    rewrite (entryThemes_default w oc _ _ _ _ Hov'
               (optionalInputInfo_no_theme w oc lo _ _ _ _ Hmeta' Hm)) in Hm1.
    injection Hm1 as <- <-.
    repeat inv_ok H. split; reflexivity.
  - destruct (isCoverEntry entry) eqn:Ev.
    + unfold parseCoverEntry in H. inv_ok H.
      unfold coverInputs in Hm. inv_ok Hm. inv_ok Hm. inv_ok Hm.
      rewrite (entryThemes_default w oc _ _ _ _ Hov'
                 (optionalInputInfo_no_theme w oc lo _ _ _ _ Hmeta' Hm0))
        in Hm2.
      injection Hm2 as <- <-.
      inv_ok Hm. inv_ok Hm. inv_ok H.
      repeat (break_in H; try discriminate).
      repeat inv_ok H. split; reflexivity.
    + unfold parseArticleEntry in H.
      destruct (e_path a) as [p|] eqn:Hp; [|discriminate].
      inv_ok H. destruct a0 as [source metadata].
      inv_ok H. inv_ok H.
      rewrite (entryThemes_default w oc _ _ _ _ Hov'
                 (getInputInfo_no_theme w oc lo _ _ _ _ _ _
                    (Hmeta' _ eq_refl) Hm)) in Hm1.
      injection Hm1 as <- <-.
      repeat inv_ok H. split; reflexivity.
Qed.

Lemma default_theme_set_witness :
  exists pe s',
    parseEntry (Demo.world (lit "/proj") [lit "/proj/a.md"])
      (Demo.common (lit "/proj/ws")) Demo.local_origin
      (Demo.toc_defaults (lit "/proj/ws")) None
      (Demo.entry_at None (Some (lit "a.md"))) initial_state = (Ok pe, s') /\
    is_cover pe = false /\
    entry_themes pe = rootThemes (Demo.common (lit "/proj/ws")).
Proof.
  do 2 eexists. split; [vm_compute; reflexivity|].
  eapply (default_theme_set
            (Demo.world (lit "/proj") [lit "/proj/a.md"])
            (Demo.common (lit "/proj/ws")) Demo.local_origin
            (Demo.toc_defaults (lit "/proj/ws")) None
            (Demo.entry_at None (Some (lit "a.md"))) initial_state).
  - reflexivity.
  - intros p Hp. injection Hp as <-. vm_compute. reflexivity.
  - vm_compute. reflexivity.
Defined.

(** ** Which errors a step can raise *)

Lemma mapM_Err {A B} (f : A -> M B) (l : list A) (s s' : State) (e : Error) :
  mapM f l s = (Err e, s') ->
  exists a s0, In a l /\ f a s0 = (Err e, s').
Proof.
  revert s. induction l as [|x l IH]; intros s H; [discriminate|].
  cbn [mapM] in H. apply bind_Err in H.
  destruct H as [H|(b & s1 & Hb & H)].
  - exists x, s. split; [now left|exact H].
  - apply bind_Err in H. destruct H as [H|(bs & s2 & Hbs & H)].
    + destruct (IH _ H) as (a & s0 & Hin & Ha).
      exists a, s0. split; [now right|exact Ha].
    + discriminate.
Qed.

Section ErrorKinds.

Variable w : World.
Variable oc : CommonOpts.
Variable lo : str.

Lemma parseTheme_Err (theme : ThemeSpec) (context ws td : str)
    (s s' : State) (e : Error) :
  parseTheme w theme context ws td s = (Err e, s') ->
  theme_or_read_error e = true.
Proof.
  unfold parseTheme, bind, existsSync, new_theme, ret, throw.
  repeat (break_match; try discriminate);
    intros H; injection H as <- <-; try discriminate;
    vm_compute; reflexivity.
Qed.

Lemma entryThemes_Err (entry : EntryObject) (m : option FileMetadata)
    (inherited : list ThemeObj) (s s' : State) (e : Error) :
  entryThemes w oc entry m inherited s = (Err e, s') ->
  theme_or_read_error e = true.
Proof.
  unfold entryThemes. intros H.
  destruct (e_theme entry) as [f|]; [|discriminate].
  destruct (theme_field_truthy f); [|discriminate].
  apply mapM_Err in H. destruct H as (t & s0 & _ & H).
  exact (parseTheme_Err _ _ _ _ _ _ _ H).
Qed.

Lemma parseFileMetadata_Err (ct : ManuscriptMediaType) (path ws : str)
    (td : option str) (s s' : State) (e : Error) :
  parseFileMetadata w ct path ws td s = (Err e, s') ->
  theme_or_read_error e = true.
Proof.
  unfold parseFileMetadata. intros H.
  destruct ct.
  - destruct (readMarkdownMetadata w path) as [md|];
      [|injection H as <- <-; reflexivity].
    destruct (md_theme md) as [t|]; [|discriminate].
    destruct td as [[|c td]|]; try discriminate.
    destruct (meta_truthy t); [|discriminate].
    apply bind_Err in H. destruct H as [H|(ts & s1 & _ & H)]; [|discriminate].
    apply mapM_Err in H. destruct H as (t0 & s0 & _ & H).
    exact (parseTheme_Err _ _ _ _ _ _ _ H).
  - destruct (read_file w path);
      [discriminate|injection H as <- <-; reflexivity].
  - destruct (read_file w path);
      [discriminate|injection H as <- <-; reflexivity].
Qed.

Lemma getInputInfo_Err (entry : EntryObject) (p : str) (s s' : State)
    (e : Error) :
  getInputInfo w oc lo entry p s = (Err e, s') ->
  is_missing_cover e = false.
Proof.
  unfold getInputInfo. intros H.
  destruct (is_http p).
  - destruct (new_URL w p); [discriminate|].
    injection H as <- <-. reflexivity.
  - destruct (startsWith (lit "/") p); [discriminate|].
    apply bind_Err in H. destruct H as [H|(u & s1 & _ & H)].
    + unfold statFileSync, bind, existsSync in H.
      destruct (present w s _); [discriminate|].
      injection H as <- <-. reflexivity.
    + destruct (isManuscriptMediaType _).
      * apply bind_Err in H. destruct H as [H|(fm & s2 & _ & H)];
          [|discriminate].
        apply parseFileMetadata_Err in H.
        destruct e; try discriminate; try reflexivity.
        cbn in H |- *. now apply negb_true_iff in H.
      * injection H as <- <-. vm_compute. reflexivity.
Qed.

End ErrorKinds.

(** ** The path of a contents or cover entry that names no file *)

Section PathFallback.

Variable w : World.
Variable oc : CommonOpts.
Variable lo : str.
Variable toc : TocDefaults.
Variable pt : option str.

Lemma pathFallback_no_path (entry : EntryObject) (s : State) :
  e_path entry = None -> pathFallback w oc entry s = (Ok entry, s).
Proof.
  unfold pathFallback. intros ->. cbn [opt_truthy].
  now rewrite andb_false_r.
Qed.

Lemma parseEntry_after_fallback (entry : EntryObject) (p : str) (s : State) :
  isContentsEntry entry || isCoverEntry entry = true ->
  e_path entry = Some p -> truthy p = true ->
  present w s (resolve w [entryContextDir oc; p]) = false ->
  parseEntry w oc lo toc pt entry s =
  parseEntry w oc lo toc pt (path_as_output entry)
    (warn s (path_fallback_message (resolve w [entryContextDir oc; p]))).
Proof.
  intros Hrel Hp Htr Hex.
  destruct (pathFallback_cases w oc entry s) as [E|(q & Hq & _ & _ & _ & E)].
  - exfalso. unfold pathFallback in E. rewrite Hrel, Hp in E.
    cbn [opt_truthy andb] in E. rewrite Htr in E.
    unfold try_catch, bind in E.
    rewrite (statFileSync_absent w _ _ _ Hex) in E.
    unfold logWarn, ret in E. injection E as _ Es.
    apply (f_equal warnings) in Es. cbn [warnings] in Es.
    apply (f_equal (@List.length str)) in Es.
    rewrite length_app in Es. cbn [List.length] in Es. lia.
  - rewrite Hp in Hq. injection Hq as <-.
    unfold parseEntry at 1 2. unfold bind. rewrite E.
    now rewrite (pathFallback_no_path (path_as_output entry)).
Qed.

Lemma optionalInputInfo_no_path (entry : EntryObject) (s : State) :
  e_path entry = None -> optionalInputInfo w oc lo entry s = (Ok None, s).
Proof. unfold optionalInputInfo. now intros ->. Qed.

Lemma ensureCoverImage_Err (src : option str) (s s' : State) (e : Error) :
  ensureCoverImage w oc src s = (Err e, s') ->
  plain_missing_file e = false /\ is_missing_cover e = false.
Proof.
  unfold ensureCoverImage. intros H.
  destruct src as [[|c src]|]; try discriminate.
  apply bind_Err in H. destruct H as [H|(u & s1 & _ & H)]; [|discriminate].
  destruct (truthy _); [|discriminate].
  unfold statFileSync, bind, existsSync in H.
  destruct (present w s _); [discriminate|].
  injection H as <- <-. split; reflexivity.
Qed.

Lemma theme_error_not_missing (e : Error) :
  theme_or_read_error e = true ->
  plain_missing_file e = false /\ is_missing_cover e = false.
Proof.
  destruct e as [m|p [m|]|m|p]; cbn; try discriminate; auto.
  intros H. apply negb_true_iff in H. auto.
Qed.

Lemma declaredTarget_no_input (entry : EntryObject) (s : State) :
  exists t, declaredTarget w oc entry None s = (Ok t, s).
Proof.
  unfold declaredTarget.
  destruct (e_output entry) as [[|c o]|]; eexists; reflexivity.
Qed.

Lemma stageIfSame_no_input (target : str) (s : State) :
  stageIfSame w oc None target s = (Ok target, s).
Proof. reflexivity. Qed.

(** After the fallback no step looks for a file without a message of its
    own, so the missing file is never reported. *)
Lemma parseEntry_no_path_Err (entry : EntryObject) (s s' : State) (e : Error) :
  e_path entry = None ->
  parseEntry w oc lo toc pt entry s = (Err e, s') ->
  plain_missing_file e = false.
Proof.
  intros Hp H. unfold parseEntry, bind in H.
  rewrite (pathFallback_no_path _ _ Hp) in H.
  destruct (isContentsEntry entry).
  - unfold parseContentsEntry in H.
    apply bind_Err in H. destruct H as [H|(i & s1 & Hi & H)];
      rewrite (optionalInputInfo_no_path _ _ Hp) in *; [discriminate|].
    injection Hi as <- <-.
    destruct (declaredTarget_no_input entry s) as (t & Et).
    apply bind_Err in H. destruct H as [H|(t' & s2 & Ht & H)];
      rewrite Et in *; [discriminate|].
    injection Ht as <- <-.
    apply bind_Err in H. destruct H as [H|(ts & s3 & _ & H)].
    + exact (proj1 (theme_error_not_missing _
                      (entryThemes_Err _ _ _ _ _ _ _ _ H))).
    + apply bind_Err in H. destruct H as [H|(u & s4 & _ & H)];
        [discriminate|].
      apply bind_Err in H. destruct H as [H|(t2 & s5 & _ & H)];
        discriminate.
  - destruct (isCoverEntry entry).
    + unfold parseCoverEntry in H.
      apply bind_Err in H. destruct H as [H|([[i t] ts] & s1 & Hi & H)].
      * unfold coverInputs in H.
        apply bind_Err in H. destruct H as [H|(i & s1 & Hi & H)];
          rewrite (optionalInputInfo_no_path _ _ Hp) in *; [discriminate|].
        injection Hi as <- <-.
        destruct (declaredTarget_no_input entry s) as (t & Et).
        apply bind_Err in H. destruct H as [H|(t' & s2 & Ht & H)];
          rewrite Et in *; [discriminate|].
        apply bind_Err in H. destruct H as [H|(ts & s3 & _ & H)].
        -- exact (proj1 (theme_error_not_missing _
                           (entryThemes_Err _ _ _ _ _ _ _ _ H))).
        -- apply bind_Err in H. destruct H as [H|(u & s4 & _ & H)];
             discriminate.
      * apply bind_Err in H. destruct H as [H|(img & s2 & _ & H)].
        -- exact (proj1 (ensureCoverImage_Err _ _ _ _ H)).
        -- destruct img as [[|c img]|];
             try (injection H as <- <-; reflexivity).
           apply bind_Err in H. destruct H as [H|(t2 & s5 & Hst & H)];
             [|discriminate].
           unfold coverInputs in Hi. inv_ok Hi.
           rewrite (optionalInputInfo_no_path _ _ Hp) in Hm.
           injection Hm as <- <-.
           repeat inv_ok Hi. injection Hi as <- _ _.
           discriminate.
    + unfold parseArticleEntry in H. rewrite Hp in H.
      injection H as <- <-. reflexivity.
Qed.

Lemma composeProjectConfig_propagates (config : ParsedBuildTask)
    (s s' : State) (e : Error) :
  mapM (parseEntry w oc (localOriginOf oc) (tocConfigOf w oc config)
          (projectTitleOf config (packageJsonOf w oc s)))
    (cfg_entry config) (fresh_aliases s) = (Err e, s') ->
  composeProjectConfig w oc config s = (Err e, s').
Proof.
  intros H.
  unfold composeProjectConfig, bind, readPackageJson, new_exportAliases.
  now rewrite H.
Qed.

End PathFallback.

(** C8: a contents or cover entry whose path names no file does not fail on
    that account.  The fallback succeeds, logs one warning, and hands on the
    entry with its path moved to the output field and the path cleared;
    resolution goes on exactly as for that entry, never reports the missing
    file, and for a contents entry without a theme override it succeeds
    with the declared path, resolved in the workspace, as its target.  Every
    error raised while the entries are parsed is the error of the whole
    project resolution. *)
Theorem missing_path_becomes_output (w : World) (oc : CommonOpts) (lo : str)
    (toc : TocDefaults) (pt : option str) (entry : EntryObject) (p : str)
    (s : State) :
  isContentsEntry entry || isCoverEntry entry = true ->
  e_path entry = Some p ->
  truthy p = true ->
  present w s (resolve w [entryContextDir oc; p]) = false ->
  let s1 :=
    warn s (path_fallback_message (resolve w [entryContextDir oc; p])) in
  pathFallback w oc entry s = (Ok (path_as_output entry), s1) /\
  e_path (path_as_output entry) = None /\
  e_output (path_as_output entry) = Some p /\
  parseEntry w oc lo toc pt entry s =
    parseEntry w oc lo toc pt (path_as_output entry) s1 /\
  (forall e s', parseEntry w oc lo toc pt entry s = (Err e, s') ->
                plain_missing_file e = false) /\
  (isContentsEntry entry = true -> no_theme_override entry = true ->
   exists c s',
     parseEntry w oc lo toc pt entry s = (Ok (Contents c), s') /\
     c_target c = resolve w [workspaceDir oc; p] /\
     c_template c = None /\
     warnings s' = warnings s ++
       [path_fallback_message (resolve w [entryContextDir oc; p])]) /\
  (forall config s0 s' e,
     mapM (parseEntry w oc (localOriginOf oc) (tocConfigOf w oc config)
             (projectTitleOf config (packageJsonOf w oc s0)))
       (cfg_entry config) (fresh_aliases s0) = (Err e, s') ->
     composeProjectConfig w oc config s0 = (Err e, s')).
Proof.
  intros Hrel Hp Htr Hex s1.
  pose proof (parseEntry_after_fallback w oc lo toc pt _ _ _ Hrel Hp Htr Hex)
    as Hparse.
  fold s1 in Hparse.
  split.
  { destruct (pathFallback_cases w oc entry s)
      as [E|(q & Hq & _ & _ & _ & E)].
    - exfalso. unfold pathFallback in E. rewrite Hrel, Hp in E.
      cbn [opt_truthy andb] in E. rewrite Htr in E.
      unfold try_catch, bind in E.
      rewrite (statFileSync_absent w _ _ _ Hex) in E.
      unfold logWarn, ret in E. injection E as _ Es.
      apply (f_equal warnings) in Es. cbn [warnings] in Es.
      apply (f_equal (@List.length str)) in Es.
      rewrite length_app in Es. cbn [List.length] in Es. lia.
    - rewrite Hp in Hq. injection Hq as <-. exact E. }
  split; [reflexivity|].
  split; [exact Hp|].
  split; [exact Hparse|].
  split.
  { intros e s' H. rewrite Hparse in H.
    exact (parseEntry_no_path_Err w oc lo toc pt (path_as_output entry)
             _ _ _ eq_refl H). }
  split.
  { intros Hc Hov. rewrite Hparse.
    unfold parseEntry, bind.
    rewrite (pathFallback_no_path w oc (path_as_output entry) s1 eq_refl).
    change (isContentsEntry (path_as_output entry))
      with (isContentsEntry entry).
    rewrite Hc. unfold parseContentsEntry, bind.
    rewrite (optionalInputInfo_no_path w oc lo (path_as_output entry) s1
               eq_refl).
    unfold declaredTarget. cbn [path_as_output e_output]. rewrite Hp.
    destruct p as [|c p']; [discriminate|].
    cbn [ret metadata_of].
    rewrite (entryThemes_default w oc (path_as_output entry) None
               (rootThemes oc) s1 Hov eq_refl).
    cbn [add_themes stageIfSame ret].
    do 2 eexists. split; [reflexivity|].
    cbn [c_target c_template warnings s1 warn]. auto. }
  intros config s0 s' e.
  apply composeProjectConfig_propagates.
Qed.

Lemma missing_path_becomes_output_witness :
  exists c s',
    parseEntry (Demo.world (lit "/proj") []) (Demo.common (lit "/proj/ws"))
      Demo.local_origin (Demo.toc_defaults (lit "/proj/ws")) None
      (Demo.entry_at (Some (lit "contents")) (Some (lit "toc.html")))
      initial_state = (Ok (Contents c), s') /\
    c_target c = lit "/proj/ws/toc.html" /\
    c_template c = None /\
    List.length (warnings s') = 1.
Proof.
  destruct (missing_path_becomes_output
              (Demo.world (lit "/proj") []) (Demo.common (lit "/proj/ws"))
              Demo.local_origin (Demo.toc_defaults (lit "/proj/ws")) None
              (Demo.entry_at (Some (lit "contents")) (Some (lit "toc.html")))
              (lit "toc.html") initial_state
              eq_refl eq_refl eq_refl eq_refl)
    as (_ & _ & _ & _ & _ & Hc & _).
  destruct (Hc eq_refl eq_refl) as (c & s' & Hrun & Ht & Htpl & Hw).
  exists c, s'. split; [exact Hrun|].
  split; [rewrite Ht; vm_compute; reflexivity|].
  split; [exact Htpl|].
  rewrite Hw. reflexivity.
Defined.

(** ** The cover image *)

Lemma toUnix_nonempty (p : str) : p <> [] -> Path.toUnix p <> [].
Proof.
  destruct p as [|c r]; [congruence|]. intros _. unfold Path.toUnix.
  cbn [map]. discriminate.
Qed.

Lemma resolve_nonempty (cwd0 : str) (args : list str) :
  Path.resolve cwd0 args <> [].
Proof.
  unfold Path.resolve. apply toUnix_nonempty.
  unfold Path.posix_resolve.
  destruct (Path.gather (cwd0 :: map Path.toUnix args)) as [r [|]];
    [discriminate|].
  destruct (Path.normalizeString (negb false) r); discriminate.
Qed.

Section CoverImage.

Variable w : World.
Variable oc : CommonOpts.
Variable lo : str.
Variable toc : TocDefaults.
Variable pt : option str.

Lemma getTargetPath_Err (source : EntrySource) (s s' : State) (e : Error) :
  getTargetPath w oc source s = (Err e, s') -> is_missing_cover e = false.
Proof.
  unfold getTargetPath. destruct source as [pathname ct|href root];
    [discriminate|].
  destruct (new_URL_dummy w href); [discriminate|].
  intros H. injection H as <- <-. reflexivity.
Qed.

Lemma coverInputs_Err (entry : EntryObject) (s s' : State) (e : Error) :
  coverInputs w oc lo entry s = (Err e, s') -> is_missing_cover e = false.
Proof.
  unfold coverInputs. intros H.
  apply bind_Err in H. destruct H as [H|(i & s1 & _ & H)].
  { unfold optionalInputInfo in H.
    destruct (e_path entry) as [[|c p]|]; try discriminate.
    apply bind_Err in H. destruct H as [H|(x & s1 & _ & H)]; [|discriminate].
    exact (getInputInfo_Err _ _ _ _ _ _ _ _ H). }
  apply bind_Err in H. destruct H as [H|(t & s2 & _ & H)].
  { unfold declaredTarget in H.
    destruct (e_output entry) as [[|c o]|];
      (destruct i as [[source m]|]; [|discriminate]);
      try discriminate;
      (apply bind_Err in H; destruct H as [H|(x & s2 & _ & H)];
       [exact (getTargetPath_Err _ _ _ _ H)|discriminate]). }
  apply bind_Err in H. destruct H as [H|(ts & s3 & _ & H)].
  { exact (proj2 (theme_error_not_missing _
                    (entryThemes_Err _ _ _ _ _ _ _ _ H))). }
  apply bind_Err in H. destruct H as [H|(u & s4 & _ & H)]; discriminate.
Qed.

Lemma stageIfSame_total (i : option (EntrySource * option FileMetadata))
    (target : str) (s : State) :
  exists t s', stageIfSame w oc i target s = (Ok t, s').
Proof.
  unfold stageIfSame.
  destruct i as [[[pathname ct|href root] m]|]; try (do 2 eexists; reflexivity).
  destruct (pathEquals w pathname target); do 2 eexists; reflexivity.
Qed.

Lemma ensureCoverImage_declared (src : str) (s : State) :
  truthy src = true ->
  present w s (resolve w [entryContextDir oc; src]) = true ->
  ensureCoverImage w oc (Some src) s =
  (Ok (Some (resolve w [entryContextDir oc; src])), s).
Proof.
  intros Htr Hex. unfold ensureCoverImage.
  destruct src as [|c src]; [discriminate|].
  assert (Hne : truthy (resolve w [entryContextDir oc; c :: src]) = true).
  { destruct (resolve w [entryContextDir oc; c :: src]) eqn:E;
      [now apply resolve_nonempty in E|reflexivity]. }
  cbv beta iota zeta. rewrite Hne. unfold bind.
  now rewrite (statFileSync_present w _ _ _ Hex).
Qed.

Lemma ensureCoverImage_Ok (src : option str) (s s' : State)
    (img : option str) :
  opt_truthy src = true ->
  ensureCoverImage w oc src s = (Ok img, s') ->
  opt_truthy img = true.
Proof.
  unfold ensureCoverImage. destruct src as [[|c src]|]; try discriminate.
  intros _ H. inv_ok H. inv_ok H.
  cbn [opt_truthy].
  destruct (resolve w [entryContextDir oc; c :: src]) eqn:E;
    [now apply resolve_nonempty in E|reflexivity].
Qed.

Lemma or_str_truthy (a b : option str) (src : str) :
  or_str a b = Some src -> truthy src = true -> opt_truthy (or_str a b) = true.
Proof. intros -> H. exact H. Qed.

Lemma cover_entry_rel (entry entry' : EntryObject) :
  e_rel entry' = e_rel entry -> isCoverEntry entry = true ->
  isCoverEntry entry' = true /\ isContentsEntry entry' = false.
Proof.
  unfold isCoverEntry, isContentsEntry. intros -> H.
  split; [exact H|].
  destruct (e_rel entry) as [[r|rs]|]; try reflexivity.
  apply str_eqb_eq in H. subst r. reflexivity.
Qed.

End CoverImage.

(** C5: a cover entry for which neither the entry nor the project declares an
    image source never resolves: once its template, target and themes are
    resolved, resolution fails with the error whose message asks to set the
    [cover] property (an error raised by those earlier steps comes first).
    When a source is declared, resolution never fails with that error, and
    when moreover the image file exists and the earlier steps succeed, the
    entry resolves with the resolved image path. *)
Theorem cover_image_is_mandatory (w : World) (oc : CommonOpts) (lo : str)
    (toc : TocDefaults) (pt : option str) (entry : EntryObject) :
  isCoverEntry entry = true ->
  (opt_truthy (e_imageSrc entry) = false -> cover oc = None ->
   forall s, exists entry' s1,
     pathFallback w oc entry s = (Ok entry', s1) /\
     parseEntry w oc lo toc pt entry s =
       match coverInputs w oc lo entry' s1 with
       | (Ok _, s2) => (Err (MkError missing_cover_message), s2)
       | (Err e, s2) => (Err e, s2)
       end) /\
  includes (lit "Please set 'cover' property") missing_cover_message = true /\
  (forall src,
     or_str (e_imageSrc entry) (cover_src oc) = Some src ->
     truthy src = true ->
     (forall s e s', parseEntry w oc lo toc pt entry s = (Err e, s') ->
                     is_missing_cover e = false) /\
     (file_exists w (resolve w [entryContextDir oc; src]) = true ->
      forall s entry' s1 ins s2,
        pathFallback w oc entry s = (Ok entry', s1) ->
        coverInputs w oc lo entry' s1 = (Ok ins, s2) ->
        exists v s',
          parseEntry w oc lo toc pt entry s = (Ok (Cover v), s') /\
          v_coverImageSrc v = resolve w [entryContextDir oc; src])).
Proof.
  intros Hcover. split; [|split; [vm_compute; reflexivity|]].
  - intros Himg Hnone s.
    destruct (pathFallback w oc entry s) as [[entry'|e] s1] eqn:Hfb.
    2:{ destruct (pathFallback_cases w oc entry s)
          as [E|(q & _ & _ & _ & _ & E)]; rewrite E in Hfb; discriminate. }
    exists entry', s1. split; [reflexivity|].
    destruct (pathFallback_Ok w oc _ _ _ _ Hfb) as (Hrel & _ & Hsrc & _).
    destruct (cover_entry_rel _ _ Hrel Hcover) as [Hv Hc].
    unfold parseEntry, bind. rewrite Hfb, Hc, Hv.
    unfold parseCoverEntry, bind.
    destruct (coverInputs w oc lo entry' s1) as [[[[i t] ts]|e] s2];
      [|reflexivity].
    unfold cover_src. rewrite Hnone, Hsrc.
    unfold opt_truthy in Himg.
    destruct (e_imageSrc entry) as [[|c img]|]; try discriminate;
      reflexivity.
  - intros src Hsrc Htr. split.
    + intros s e s' H. unfold parseEntry in H.
      apply bind_Err in H. destruct H as [H|(entry' & s1 & Hfb & H)].
      { destruct (pathFallback_cases w oc entry s)
          as [E|(q & _ & _ & _ & _ & E)]; rewrite E in H; discriminate. }
      destruct (pathFallback_Ok w oc _ _ _ _ Hfb) as (Hrel & _ & Himg & _).
      destruct (cover_entry_rel _ _ Hrel Hcover) as [Hv Hc].
      rewrite Hc, Hv in H. unfold parseCoverEntry in H.
      apply bind_Err in H. destruct H as [H|([[i t] ts] & s2 & _ & H)].
      { exact (coverInputs_Err w oc lo _ _ _ _ H). }
      rewrite Himg, Hsrc in H.
      apply bind_Err in H. destruct H as [H|(img & s3 & Hi & H)].
      { exact (proj2 (ensureCoverImage_Err w oc _ _ _ _ H)). }
      apply (ensureCoverImage_Ok w oc (Some src)) in Hi; [|exact Htr].
      destruct img as [[|c img]|]; try discriminate.
      apply bind_Err in H. destruct H as [H|(t2 & s4 & _ & H)];
        [|discriminate].
      destruct (stageIfSame_total w oc i
                  match t with
                  | Some t0 => t0
                  | None =>
                      resolve w
                        [workspaceDir oc;
                         or_default (or_str (e_path entry') (cover_htmlPath oc))
                           (COVER_HTML_FILENAME (consts w))]
                  end s3) as (t3 & s5 & E).
      rewrite E in H. discriminate.
    + intros Hex s entry' s1 [[i t] ts] s2 Hfb Hins.
      destruct (pathFallback_Ok w oc _ _ _ _ Hfb) as (Hrel & _ & Himg & _).
      destruct (cover_entry_rel _ _ Hrel Hcover) as [Hv Hc].
      unfold parseEntry, bind. rewrite Hfb, Hc, Hv.
      unfold parseCoverEntry, bind. rewrite Hins, Himg, Hsrc.
      rewrite (ensureCoverImage_declared w oc src s2 Htr)
        by (unfold present; now rewrite Hex).
      destruct (resolve w [entryContextDir oc; src]) as [|c img] eqn:Er;
        [now apply resolve_nonempty in Er|].
      match goal with
      | |- context [stageIfSame w oc i ?tg s2] =>
          destruct (stageIfSame_total w oc i tg s2) as (t3 & s5 & E);
          rewrite E
      end.
      do 2 eexists. split; reflexivity.
Qed.

Lemma cover_image_is_mandatory_witness :
  let w := Demo.world (lit "/proj") [lit "/proj/cover.png"] in
  let run entry :=
    parseEntry w (Demo.common (lit "/proj/ws")) Demo.local_origin
      (Demo.toc_defaults (lit "/proj/ws")) None entry initial_state in
  run (Demo.cover_entry None None) =
    (Err (MkError missing_cover_message), initial_state) /\
  exists v s',
    run (Demo.cover_entry None (Some (lit "cover.png"))) =
      (Ok (Cover v), s') /\
    v_coverImageSrc v = lit "/proj/cover.png".
Proof.
  cbv zeta. split.
  - destruct (proj1 (cover_image_is_mandatory
                       (Demo.world (lit "/proj") [lit "/proj/cover.png"])
                       (Demo.common (lit "/proj/ws")) Demo.local_origin
                       (Demo.toc_defaults (lit "/proj/ws")) None
                       (Demo.cover_entry None None) eq_refl)
                eq_refl eq_refl initial_state)
      as (entry' & s1 & Hfb & Hrun).
    vm_compute in Hfb. injection Hfb as <- <-.
    rewrite Hrun. vm_compute. reflexivity.
  - destruct (proj2 (proj2 (cover_image_is_mandatory
                       (Demo.world (lit "/proj") [lit "/proj/cover.png"])
                       (Demo.common (lit "/proj/ws")) Demo.local_origin
                       (Demo.toc_defaults (lit "/proj/ws")) None
                       (Demo.cover_entry None (Some (lit "cover.png")))
                       eq_refl))
                (lit "cover.png") eq_refl eq_refl) as [_ Hok].
    destruct (Hok eq_refl initial_state
                (Demo.cover_entry None (Some (lit "cover.png")))
                initial_state (None, None, []) initial_state
                eq_refl eq_refl) as (v & s' & Hrun & Hsrc).
    exists v, s'. split; [exact Hrun|].
    rewrite Hsrc. vm_compute. reflexivity.
Defined.

(** ** Unrecognized manuscript types *)

(** A manuscript entry whose path names an existing local file of a media
    type that is not a manuscript type fails with the error of
    [getInputInfo]; the message carries the detected media type and the
    string of the entry object. *)
Lemma unrecognized_manuscript_type_fails (w : World) (oc : CommonOpts)
    (lo : str) (toc : TocDefaults) (pt : option str) (entry : EntryObject)
    (p : str) (s : State) :
  isArticleEntry entry = true ->
  e_path entry = Some p ->
  is_http p || startsWith (lit "/") p = false ->
  present w s (resolve w [entryContextDir oc; p]) = true ->
  isManuscriptMediaType (mime w (resolve w [entryContextDir oc; p])) = None ->
  parseEntry w oc lo toc pt entry s =
  (Err (MkError
          (lit "Invalid manuscript type " ++
           show_media_type (mime w (resolve w [entryContextDir oc; p])) ++
           lit " detected: [object Object]")), s).
Proof.
  intros Hart Hp Hloc Hex Hty.
  rewrite (parseEntry_article w oc lo toc pt _ _ Hart).
  unfold parseArticleEntry. rewrite Hp. unfold bind at 1.
  unfold getInputInfo.
  apply orb_false_iff in Hloc. destruct Hloc as [-> ->].
  unfold bind. rewrite (statFileSync_present w _ _ _ Hex), Hty.
  reflexivity.
Qed.

(** C6, on the code: the error raised for a manuscript [figure.png] of type
    [image/png] names the media type, but its message ends with the string
    of the entry object and holds the path nowhere. *)
Lemma unrecognized_type_message_omits_path :
  exists msg,
    parseEntry (Demo.world (lit "/proj") [lit "/proj/figure.png"])
      (Demo.common (lit "/proj/ws")) Demo.local_origin
      (Demo.toc_defaults (lit "/proj/ws")) None
      (Demo.entry_at None (Some (lit "figure.png"))) initial_state =
      (Err (MkError msg), initial_state) /\
    msg = lit "Invalid manuscript type image/png detected: [object Object]" /\
    includes (lit "image/png") msg = true /\
    includes (lit "figure.png") msg = false.
Proof.
  eexists. split.
  - apply (unrecognized_manuscript_type_fails
             (Demo.world (lit "/proj") [lit "/proj/figure.png"])
             (Demo.common (lit "/proj/ws")) Demo.local_origin
             (Demo.toc_defaults (lit "/proj/ws")) None
             (Demo.entry_at None (Some (lit "figure.png")))
             (lit "figure.png") initial_state);
      vm_compute; reflexivity.
  - repeat split; vm_compute; reflexivity.
Qed.

(** ** Source and target at the same path *)

Section Collision.

Variable w : World.
Variable oc : CommonOpts.
Variable lo : str.
Variable toc : TocDefaults.
Variable pt : option str.

Lemma stageIfSame_file (pathname target : str) (ct : ManuscriptMediaType)
    (m : option FileMetadata) (s : State) :
  pathEquals w pathname target = true ->
  stageIfSame w oc (Some (FileEntrySource pathname ct, m)) target s =
  (Ok (tmp_sibling w oc target), staged w oc s target).
Proof. unfold stageIfSame. now intros ->. Qed.

Lemma stageIfSame_other (i : option (EntrySource * option FileMetadata))
    (target : str) (s : State) :
  match i with
  | Some (FileEntrySource pathname _, _) => pathEquals w pathname target = false
  | _ => True
  end ->
  stageIfSame w oc i target s = (Ok target, s).
Proof.
  unfold stageIfSame.
  destruct i as [[[pathname ct|href root] m]|]; try reflexivity.
  now intros ->.
Qed.

(** The contents and the cover branch end with the collision check on the
    template and the target they have computed. *)
Lemma template_collision_is_checked (entry : EntryObject) (s s' : State)
    (pe : ParsedEntry) :
  isContentsEntry entry || isCoverEntry entry = true ->
  parseEntry w oc lo toc pt entry s = (Ok pe, s') ->
  exists i target s0,
    stageIfSame w oc i target s0 = (Ok (entry_target pe), s') /\
    match pe with
    | Contents c => c_template c = template_of i
    | Cover v => v_template v = template_of i
    | Manuscript _ => False
    end.
Proof.
  intros Hrel H. unfold parseEntry in H. inv_ok H.
  destruct (pathFallback_Ok w oc _ _ _ _ Hm) as (Hr & _).
  assert (Hc : isContentsEntry a = isContentsEntry entry)
    by (unfold isContentsEntry; now rewrite Hr).
  assert (Hv : isCoverEntry a = isCoverEntry entry)
    by (unfold isCoverEntry; now rewrite Hr).
  rewrite Hc, Hv in H. clear Hm.
  destruct (isContentsEntry entry).
  - unfold parseContentsEntry in H. repeat inv_ok H.
    do 3 eexists. split; [eassumption|reflexivity].
  - cbn [orb] in Hrel. rewrite Hrel in H.
    unfold parseCoverEntry in H. inv_ok H.
    destruct a0 as [[i t] ts]. inv_ok H.
    repeat (break_in H; try discriminate).
    repeat inv_ok H.
    do 3 eexists. split; [eassumption|reflexivity].
Qed.

End Collision.

Section ManuscriptStaging.

Variable w : World.
Variable oc : CommonOpts.
Variable lo : str.
Variable toc : TocDefaults.
Variable pt : option str.

Lemma same_staging_refl (s : State) : same_staging s s.
Proof. split; reflexivity. Qed.

Lemma same_staging_trans (s1 s2 s3 : State) :
  same_staging s1 s2 -> same_staging s2 s3 -> same_staging s1 s3.
Proof. intros [A1 T1] [A2 T2]. split; congruence. Qed.

Lemma mapM_same_staging {A B} (f : A -> M B) (l : list A) :
  (forall a s b s', f a s = (Ok b, s') -> same_staging s s') ->
  forall s bs s', mapM f l s = (Ok bs, s') -> same_staging s s'.
Proof.
  intros Hf. induction l as [|a l IH]; intros s bs s' H; cbn [mapM] in H.
  - inv_ok H. apply same_staging_refl.
  - inv_ok H. inv_ok H. inv_ok H.
    eapply same_staging_trans; [eapply Hf; eassumption|].
    eapply IH; eassumption.
Qed.

Lemma parseTheme_same_staging (theme : ThemeSpec) (context ws td : str)
    (s s' : State) (a : ThemeObj) :
  parseTheme w theme context ws td s = (Ok a, s') -> same_staging s s'.
Proof.
  intros H. apply parseTheme_Ok in H. destruct H as [_ ->].
  split; reflexivity.
Qed.

Lemma parseFileMetadata_same_staging (ct : ManuscriptMediaType)
    (path ws : str) (td : option str) (s s' : State) (fm : FileMetadata) :
  parseFileMetadata w ct path ws td s = (Ok fm, s') -> same_staging s s'.
Proof.
  unfold parseFileMetadata. intros H.
  destruct ct.
  - destruct (readMarkdownMetadata w path) as [md|]; [|discriminate].
    destruct (md_theme md) as [t|]; [|inv_ok H; apply same_staging_refl].
    destruct td as [[|c td]|]; try (inv_ok H; apply same_staging_refl).
    destruct (meta_truthy t); [|inv_ok H; apply same_staging_refl].
    inv_ok H. inv_ok H.
    exact (mapM_same_staging _ _
             (fun a0 s1 b s2 Hp =>
                parseTheme_same_staging _ _ _ _ _ _ _ Hp)
             _ _ _ Hm).
  - destruct (read_file w path); [|discriminate].
    inv_ok H. apply same_staging_refl.
  - destruct (read_file w path); [|discriminate].
    inv_ok H. apply same_staging_refl.
Qed.

Lemma entryThemes_same_staging (entry : EntryObject)
    (m : option FileMetadata) (inherited ts : list ThemeObj) (s s' : State) :
  entryThemes w oc entry m inherited s = (Ok ts, s') -> same_staging s s'.
Proof.
  unfold entryThemes. intros H.
  destruct (e_theme entry) as [f|]; [|inv_ok H; apply same_staging_refl].
  destruct (theme_field_truthy f); [|inv_ok H; apply same_staging_refl].
  exact (mapM_same_staging _ _
           (fun a0 s1 b s2 Hp => parseTheme_same_staging _ _ _ _ _ _ _ Hp)
           _ _ _ H).
Qed.

(** The target that the path rules give to a source, before any staging. *)
Lemma getTargetPath_file (pathname : str) (ct : ManuscriptMediaType)
    (s : State) :
  getTargetPath w oc (FileEntrySource pathname ct) s =
  (Ok (resolve w [workspaceDir oc;
                  replace_suffix (lit ".md") (lit ".html")
                    (relative w (entryContextDir oc) pathname)]), s).
Proof. reflexivity. Qed.

(** The manuscript branch never stages: it registers no alias and touches
    no file, whatever its source and its target are. *)
Lemma manuscript_branch_never_stages (entry : EntryObject) (s s' : State)
    (pe : ParsedEntry) :
  isArticleEntry entry = true ->
  parseEntry w oc lo toc pt entry s = (Ok pe, s') ->
  same_staging s s' /\
  exists m,
    pe = Manuscript m /\
    forall pathname ct,
      m_source m = FileEntrySource pathname ct ->
      m_target m =
        match e_output entry with
        | Some ((_ :: _) as o) => resolve w [workspaceDir oc; o]
        | _ => resolve w [workspaceDir oc;
                          replace_suffix (lit ".md") (lit ".html")
                            (relative w (entryContextDir oc) pathname)]
        end.
Proof.
  intros Hart H.
  rewrite (parseEntry_article w oc lo toc pt _ _ Hart) in H.
  unfold parseArticleEntry in H.
  destruct (e_path entry) as [p|]; [|discriminate].
  inv_ok H. destruct a as [source metadata].
  assert (S1 : same_staging s s0).
  { pose proof (getInputInfo_Ok w oc lo _ _ _ _ _ _ Hm) as Hi.
    unfold getInputInfo in Hm.
    destruct (is_http p); cbn [orb] in Hi.
    - destruct (new_URL w p); [|discriminate]. inv_ok Hm.
      apply same_staging_refl.
    - destruct (startsWith (lit "/") p).
      + inv_ok Hm. apply same_staging_refl.
      + destruct Hi as (ct & fm & _ & _ & _ & _ & Hfm).
        exact (parseFileMetadata_same_staging _ _ _ _ _ _ _ Hfm). }
  inv_ok H.
  assert (S2 : s1 = s0 /\
               forall pathname ct, source = FileEntrySource pathname ct ->
                 a =
                 match e_output entry with
                 | Some ((_ :: _) as o) => resolve w [workspaceDir oc; o]
                 | _ => resolve w [workspaceDir oc;
                                   replace_suffix (lit ".md") (lit ".html")
                                     (relative w (entryContextDir oc)
                                        pathname)]
                 end).
  { destruct (e_output entry) as [[|c o]|].
    - destruct source as [pathname ct|href root].
      + rewrite getTargetPath_file in Hm0. injection Hm0 as <- <-.
        split; [reflexivity|]. intros ? ? E. injection E as E1 E2.
        subst. reflexivity.
      + unfold getTargetPath in Hm0.
        destruct (new_URL_dummy w href); [|discriminate]. inv_ok Hm0.
        split; [reflexivity|]. intros ? ? E. discriminate.
    - inv_ok Hm0. split; [reflexivity|]. reflexivity.
    - destruct source as [pathname ct|href root].
      + rewrite getTargetPath_file in Hm0. injection Hm0 as <- <-.
        split; [reflexivity|]. intros ? ? E. injection E as E1 E2.
        subst. reflexivity.
      + unfold getTargetPath in Hm0.
        destruct (new_URL_dummy w href); [|discriminate]. inv_ok Hm0.
        split; [reflexivity|]. intros ? ? E. discriminate. }
  destruct S2 as [-> Htarget].
  inv_ok H.
  pose proof (entryThemes_same_staging _ _ _ _ _ _ Hm1) as S3.
  inv_ok H. unfold add_themes in Hm2. injection Hm2 as _ <-.
  inv_ok H.
  split.
  - eapply same_staging_trans; [exact S1|].
    eapply same_staging_trans; [exact S3|]. split; reflexivity.
  - eexists. split; [reflexivity|]. exact Htarget.
Qed.

End ManuscriptStaging.

(** C1, on the code: in a project whose workspace is the entry context
    directory, the HTML manuscript [a.html] is its own target.  A contents
    entry on that file is staged: a temporary sibling becomes its target, an
    alias leads back to the file and the placeholder is touched.  The
    manuscript entry is not: its target stays the source file, no alias is
    registered and nothing is touched. *)
Lemma manuscript_collision_is_not_staged :
  let w := Demo.world (lit "/proj") [lit "/proj/a.html"] in
  let run entry :=
    parseEntry w (Demo.common (lit "/proj")) Demo.local_origin
      (Demo.toc_defaults (lit "/proj")) None entry initial_state in
  (exists c s',
     run (Demo.entry_at (Some (lit "contents")) (Some (lit "a.html"))) =
       (Ok (Contents c), s') /\
     c_template c = Some (FileEntrySource (lit "/proj/a.html") TextHtml) /\
     c_target c = lit "/proj/.vs-1.a.html" /\
     exportAliases s' =
       [{| alias_source := lit "/proj/.vs-1.a.html";
           alias_target := lit "/proj/a.html" |}] /\
     touched s' = [lit "/proj/.vs-1.a.html"]) /\
  (exists m s',
     run (Demo.entry_at None (Some (lit "a.html"))) =
       (Ok (Manuscript m), s') /\
     m_source m = FileEntrySource (lit "/proj/a.html") TextHtml /\
     m_target m = lit "/proj/a.html" /\
     pathEquals w (lit "/proj/a.html") (m_target m) = true /\
     exportAliases s' = [] /\
     touched s' = []).
Proof.
  cbv zeta. split.
  - do 2 eexists. split; [vm_compute; reflexivity|].
    repeat split; vm_compute; reflexivity.
  - do 2 eexists. split; [vm_compute; reflexivity|].
    repeat split; vm_compute; reflexivity.
Qed.

(** ** Single-input mode *)

Section SingleInput.

Import PathSpec PathFacts.

Variable w : World.
Variable oc : CommonOpts.

Lemma parseFileMetadata_single (p ws : str) (s s1 : State)
    (fm : FileMetadata) :
  parseFileMetadata w TextMarkdown p ws None s = (Ok fm, s1) ->
  s1 = s /\ fm_themes fm = None.
Proof.
  unfold parseFileMetadata. intros H.
  destruct (readMarkdownMetadata w p) as [md|]; [|discriminate].
  destruct (md_theme md); inv_ok H; split; reflexivity.
Qed.

Variables ecd ws sub : list str.
Variable stem : str.

Hypothesis Hecd : entryContextDir oc = abs_path ecd.
Hypothesis Hws : workspaceDir oc = abs_path ws.
Hypothesis Cecd : Forall clean ecd.
Hypothesis Cws : Forall clean ws.
Hypothesis Csub : Forall clean sub.
Hypothesis Pstem : Forall plain stem.
Hypothesis Pprefix : Forall plain (temporaryFilePrefix oc).

Let source := abs_path (ecd ++ sub ++ [stem ++ lit ".md"]).

Lemma plain_md : Forall plain (lit ".md").
Proof. repeat constructor. Qed.

Lemma plain_html : Forall plain (lit ".html").
Proof. repeat constructor. Qed.

Lemma clean_md : clean (stem ++ lit ".md").
Proof.
  apply clean_long; [apply Forall_app; split; [exact Pstem|exact plain_md]|].
  rewrite length_app. cbn. lia.
Qed.

Lemma clean_html : clean (stem ++ lit ".html").
Proof.
  apply clean_long; [apply Forall_app; split; [exact Pstem|exact plain_html]|].
  rewrite length_app. cbn. lia.
Qed.

Lemma clean_tmp (ext : str) :
  Forall plain ext -> 3 <= List.length ext ->
  clean (temporaryFilePrefix oc ++ stem ++ ext).
Proof.
  intros He Hl. apply clean_long.
  - repeat (apply Forall_app; split); assumption.
  - rewrite !length_app. lia.
Qed.

Lemma source_dirname : Path.dirname source = abs_path (ecd ++ sub).
Proof.
  unfold source. rewrite app_assoc.
  apply dirname_child; [apply Forall_app; now split|exact clean_md].
Qed.

Lemma source_basename : Path.basename source = stem ++ lit ".md".
Proof.
  unfold source. rewrite app_assoc.
  apply basename_child; [apply Forall_app; now split|exact clean_md].
Qed.

Lemma single_target :
  replace_suffix (lit ".md") (lit ".html")
    (resolve w [workspaceDir oc;
                relative w (entryContextDir oc) (Path.dirname source);
                temporaryFilePrefix oc ++ Path.basename source]) =
  abs_path (ws ++ sub ++ [temporaryFilePrefix oc ++ stem ++ lit ".html"]).
Proof.
  rewrite source_dirname, source_basename, Hecd, Hws.
  unfold relative, resolve.
  rewrite relative_below by assumption.
  rewrite resolve_below
    by (first [assumption|apply clean_tmp; [exact plain_md|cbn; lia]]).
  rewrite !app_assoc.
  rewrite (abs_path_app_last _ (temporaryFilePrefix oc ++ stem) (lit ".md")).
  rewrite replace_suffix_app.
  now rewrite <- abs_path_app_last.
Qed.

Lemma single_alias_target :
  resolve w
    [Path.dirname
       (abs_path (ws ++ sub ++ [temporaryFilePrefix oc ++ stem ++ lit ".html"]));
     replace_suffix (lit ".md") (lit ".html") (Path.basename source)] =
  abs_path (ws ++ sub ++ [stem ++ lit ".html"]).
Proof.
  rewrite source_basename, replace_suffix_app.
  rewrite (app_assoc ws sub), dirname_child
    by (first [apply Forall_app; now split
              |apply clean_tmp; [exact plain_html|cbn; lia]]).
  unfold resolve. rewrite resolve_child
    by (first [apply Forall_app; now split|exact clean_html]).
  now rewrite <- app_assoc.
Qed.

Hypothesis Pmanifest : Forall plain (MANIFEST_FILENAME (consts w)).
Hypothesis Lmanifest : 3 <= List.length (MANIFEST_FILENAME (consts w)).

Lemma single_manifest_tmp :
  resolve w [workspaceDir oc;
             temporaryFilePrefix oc ++ MANIFEST_FILENAME (consts w)] =
  abs_path (ws ++ [temporaryFilePrefix oc ++ MANIFEST_FILENAME (consts w)]).
Proof.
  rewrite Hws. unfold resolve. apply resolve_child; [exact Cws|].
  apply clean_long; [apply Forall_app; now split|].
  rewrite length_app. lia.
Qed.

Lemma single_manifest :
  resolve w [workspaceDir oc; MANIFEST_FILENAME (consts w)] =
  abs_path (ws ++ [MANIFEST_FILENAME (consts w)]).
Proof.
  rewrite Hws. unfold resolve. apply resolve_child; [exact Cws|].
  now apply clean_long.
Qed.

Variable config : ParsedBuildTask.
Variable input : InputOption.

Hypothesis Hfmt : in_format input = FmtMarkdown.
Hypothesis Huri : isValidUri w (in_entry input) = false.
Hypothesis Hin : in_entry input = source.

Lemma single_markdown_run (s s' : State) (r : ResolvedTaskConfig) :
  composeSingleInputConfig w oc config input s = (Ok r, s') ->
  let tmp_target :=
    abs_path (ws ++ sub ++ [temporaryFilePrefix oc ++ stem ++ lit ".html"]) in
  let tmp_manifest :=
    abs_path (ws ++ [temporaryFilePrefix oc ++ MANIFEST_FILENAME (consts w)]) in
  r_viewerInput r = WebPublicationManifestConfig tmp_manifest true /\
  (exists m,
     r_entries r = [Manuscript m] /\
     m_target m = tmp_target /\
     m_source m = FileEntrySource source TextMarkdown) /\
  r_exportAliases r =
    [{| alias_source := tmp_target;
        alias_target := abs_path (ws ++ sub ++ [stem ++ lit ".html"]) |};
     {| alias_source := tmp_manifest;
        alias_target := abs_path (ws ++ [MANIFEST_FILENAME (consts w)]) |}] /\
  touched s' = touched s ++ [tmp_target; tmp_manifest].
Proof.
  intros H. cbv zeta.
  unfold composeSingleInputConfig in H.
  rewrite Huri, Hfmt, Hin in H. cbn [negb] in H.
  inv_ok H. unfold new_exportAliases in Hm. injection Hm as _ <-.
  inv_ok H. inv_ok Hm.
  inv_ok H. inv_ok Hm.
  destruct (parseFileMetadata_single _ _ _ _ _ Hm0) as [-> Hth].
  rewrite single_target in Hm. rewrite single_alias_target in Hm.
  repeat inv_ok Hm.
  inv_ok H. rewrite single_manifest_tmp, single_manifest in Hm.
  repeat inv_ok Hm.
  repeat inv_ok H.
  unfold touchTmpFile, add_themes, push_alias in *.
  injection Hm1 as _ <-. injection Hm2 as _ <-. injection Hm3 as _ <-.
  injection Hm4 as _ <-. injection Hm5 as _ <-.
  injection Hm as <- <-.
  cbn [r_viewerInput r_entries r_exportAliases exportAliases touched].
  rewrite <- !app_assoc. cbn [app].
  repeat split. eexists. repeat split.
Qed.

End SingleInput.

(** In single-input mode with a markdown input given as the absolute path
    [<entryContextDir>/<subdir>/<stem>.md] (not a URI; [<subdir>] may be
    empty), the viewer-input descriptor is a manifest to generate at
    [<workspaceDir>/<tempPrefix><MANIFEST_FILENAME>], the single manuscript
    entry has the target [<workspaceDir>/<subdir>/<tempPrefix><stem>.html],
    an export alias maps that temporary target to
    [<workspaceDir>/<subdir>/<stem>.html], and a second alias maps the
    temporary manifest to [<workspaceDir>/<MANIFEST_FILENAME>]; both
    temporary files are touched. *)
Theorem single_markdown_input_plan (w : World) (oc : CommonOpts)
    (config : ParsedBuildTask) (input : InputOption)
    (ecd ws sub : list str) (stem : str) (s s' : State)
    (r : ResolvedTaskConfig) :
  in_format input = FmtMarkdown ->
  isValidUri w (in_entry input) = false ->
  in_entry input =
    PathSpec.abs_path (ecd ++ sub ++ [stem ++ lit ".md"]) ->
  entryContextDir oc = PathSpec.abs_path ecd ->
  workspaceDir oc = PathSpec.abs_path ws ->
  Forall PathSpec.clean ecd ->
  Forall PathSpec.clean ws ->
  Forall PathSpec.clean sub ->
  Forall PathSpec.plain stem ->
  Forall PathSpec.plain (temporaryFilePrefix oc) ->
  Forall PathSpec.plain (MANIFEST_FILENAME (consts w)) ->
  3 <= List.length (MANIFEST_FILENAME (consts w)) ->
  composeSingleInputConfig w oc config input s = (Ok r, s') ->
  let tmp_target :=
    PathSpec.abs_path
      (ws ++ sub ++ [temporaryFilePrefix oc ++ stem ++ lit ".html"]) in
  let tmp_manifest :=
    PathSpec.abs_path
      (ws ++ [temporaryFilePrefix oc ++ MANIFEST_FILENAME (consts w)]) in
  r_viewerInput r = WebPublicationManifestConfig tmp_manifest true /\
  (exists m,
     r_entries r = [Manuscript m] /\
     m_target m = tmp_target /\
     m_source m = FileEntrySource (in_entry input) TextMarkdown) /\
  r_exportAliases r =
    [{| alias_source := tmp_target;
        alias_target :=
          PathSpec.abs_path (ws ++ sub ++ [stem ++ lit ".html"]) |};
     {| alias_source := tmp_manifest;
        alias_target :=
          PathSpec.abs_path (ws ++ [MANIFEST_FILENAME (consts w)]) |}] /\
  touched s' = touched s ++ [tmp_target; tmp_manifest].
Proof.
  intros Hfmt Huri Hin Hecd Hws Cecd Cws Csub Pstem Ppre Pman Lman H.
  rewrite Hin.
  exact (single_markdown_run w oc ecd ws sub stem Hecd Hws Cecd Cws Csub
           Pstem Ppre Pman Lman config input Hfmt Huri Hin s s' r H).
Qed.

(** Closed side conditions on segments and names. *)
Ltac solve_segments :=
  vm_compute;
  repeat first [ apply Forall_nil | apply Forall_cons | split
               | discriminate | reflexivity | lia ].

Lemma single_markdown_input_plan_witness :
  let w := Demo.world (lit "/proj") [lit "/proj/sample.md"] in
  let oc := Demo.common (lit "/proj/.vivliostyle") in
  let input :=
    {| in_format := FmtMarkdown; in_entry := lit "/proj/sample.md" |} in
  exists r s',
    composeSingleInputConfig w oc (Demo.config_with None None []) input
      initial_state = (Ok r, s') /\
    r_viewerInput r =
      WebPublicationManifestConfig
        (lit "/proj/.vivliostyle/.vs-1.publication.json") true /\
    (exists m,
       r_entries r = [Manuscript m] /\
       m_target m = lit "/proj/.vivliostyle/.vs-1.sample.html" /\
       m_source m = FileEntrySource (lit "/proj/sample.md") TextMarkdown) /\
    r_exportAliases r =
      [{| alias_source := lit "/proj/.vivliostyle/.vs-1.sample.html";
          alias_target := lit "/proj/.vivliostyle/sample.html" |};
       {| alias_source := lit "/proj/.vivliostyle/.vs-1.publication.json";
          alias_target := lit "/proj/.vivliostyle/publication.json" |}] /\
    touched s' =
      [lit "/proj/.vivliostyle/.vs-1.sample.html";
       lit "/proj/.vivliostyle/.vs-1.publication.json"].
Proof.
  cbv zeta. do 2 eexists. split; [vm_compute; reflexivity|].
  apply (single_markdown_input_plan
           (Demo.world (lit "/proj") [lit "/proj/sample.md"])
           (Demo.common (lit "/proj/.vivliostyle"))
           (Demo.config_with None None [])
           {| in_format := FmtMarkdown; in_entry := lit "/proj/sample.md" |}
           [lit "proj"] [lit "proj"; lit ".vivliostyle"] [] (lit "sample")
           initial_state);
    first [ reflexivity | solve_segments ].
Defined.

(** An input in a subdirectory of the entry context directory is staged in
    the same subdirectory of the workspace. *)
Example single_markdown_target_keeps_subdirectory :
  exists r s' m,
    resolveTaskConfig (Demo.world (lit "/proj") [lit "/proj/docs/sample.md"])
      (Demo.config_with None None [])
      {| opt_cwd := None; opt_config := None;
         opt_input := Some {| in_format := FmtMarkdown;
                              in_entry := lit "/proj/docs/sample.md" |} |}
      initial_state = (Ok r, s') /\
    workspaceDir (r_common r) = lit "/proj/.vivliostyle" /\
    r_entries r = [Manuscript m] /\
    m_target m = lit "/proj/.vivliostyle/docs/.vs-1.sample.html".
Proof.
  do 3 eexists.
  split; [vm_compute; reflexivity|].
  split; [vm_compute; reflexivity|].
  split; vm_compute; reflexivity.
Qed.

(** C7, on the code: the test on the input of [composeSingleInputConfig] is
    inverted, so an input that is not a URI is taken as it is given, neither
    resolved against the entry context directory nor looked for there.  With
    the context directory [/proj], which holds [sample.md], in a process
    that runs in [/home/user], the input [sample.md] is read from the
    working directory: resolution fails when no such file is there, and when
    one is there the entry keeps the relative source path and its target
    leaves the workspace [/proj/.vivliostyle]. *)
Lemma single_input_path_is_not_resolved :
  let options :=
    {| opt_cwd := Some (lit "/proj"); opt_config := None;
       opt_input := Some {| in_format := FmtMarkdown;
                            in_entry := lit "sample.md" |} |} in
  resolveTaskConfig (Demo.world (lit "/home/user") [lit "/proj/sample.md"])
    (Demo.config_with None None []) options initial_state =
    (Err (ReadError (lit "sample.md")), initial_state) /\
  exists r s' m,
    resolveTaskConfig
      (Demo.world (lit "/home/user")
         [lit "/proj/sample.md"; lit "/home/user/sample.md"])
      (Demo.config_with None None []) options initial_state = (Ok r, s') /\
    workspaceDir (r_common r) = lit "/proj/.vivliostyle" /\
    r_entries r = [Manuscript m] /\
    m_source m = FileEntrySource (lit "sample.md") TextMarkdown /\
    m_target m = lit "/proj/home/user/.vs-1.sample.html" /\
    m_target m <> lit "/proj/.vivliostyle/.vs-1.sample.html".
Proof.
  cbv zeta. split; [vm_compute; reflexivity|].
  do 3 eexists.
  split; [vm_compute; reflexivity|].
  split; [vm_compute; reflexivity|].
  split; [vm_compute; reflexivity|].
  split; [vm_compute; reflexivity|].
  split; [vm_compute; reflexivity|].
  vm_compute. discriminate.
Qed.

Lemma split_by_no_sep (sep : ascii) (s : str) :
  Forall (fun c => Ascii.eqb c sep = false) s -> split_by sep s = [s].
Proof.
  induction 1 as [|c s Hc Hs IH]; cbn; [reflexivity|].
  now rewrite Hc, IH.
Qed.

Lemma split_by_app (sep : ascii) (x y : str) :
  Forall (fun c => Ascii.eqb c sep = false) x ->
  split_by sep (x ++ sep :: y) = x :: split_by sep y.
Proof.
  induction 1 as [|c s Hc Hs IH]; cbn.
  - now rewrite Ascii.eqb_refl.
  - now rewrite Hc, IH.
Qed.

Lemma split_by_length (sep : ascii) (s : str) :
  List.length (split_by sep s) =
  S (List.length (filter (fun c => Ascii.eqb c sep) s)).
Proof.
  induction s as [|c s IH]; cbn; [reflexivity|].
  destruct (Ascii.eqb c sep); cbn; [now rewrite IH|].
  destruct (split_by sep s) as [|h t]; cbn in *; lia.
Qed.

Lemma split_by_head_empty (sep : ascii) (s : str) :
  (exists t, split_by sep s = [] :: t) <->
  s = [] \/ exists r, s = sep :: r.
Proof.
  destruct s as [|c r]; cbn.
  - split; [now left|]. intros _. now exists [].
  - destruct (Ascii.eqb c sep) eqn:E.
    + apply Ascii.eqb_eq in E. subst c. split.
      * intros _. right. now exists r.
      * intros _. now exists (split_by sep r).
    + split.
      * intros [t Ht]. destruct (split_by sep r); discriminate.
      * intros [H|[r' H]]; [discriminate|].
        injection H as -> _. now rewrite Ascii.eqb_refl in E.
Qed.

(** X1: Writing a page size whose components are not empty and hold no
    comma (a format alone, or a width and a height around one comma) and
    parsing the text gives the page size back, and leaves the state as it
    was.  (With an empty height the text [<width>,] is read as a format.) *)
Theorem parsePageSize_round_trip (p : PageSize) (s : State) :
  well_formed_size p -> parsePageSize (show_size p) s = (Ok p, s).
Proof.
  destruct p as [f|w h]; cbn [well_formed_size show_size].
  - intros [Hf Hc]. unfold parsePageSize.
    rewrite (split_by_no_sep _ _ Hc).
    destruct f; [contradiction|reflexivity].
  - intros (Hw & Hh & Hcw & Hch). unfold parsePageSize.
    rewrite (split_by_app _ _ _ Hcw), (split_by_no_sep _ _ Hch).
    destruct w; [contradiction|]. destruct h; [contradiction|].
    reflexivity.
Qed.

Lemma parsePageSize_round_trip_witness :
  parsePageSize (lit "182mm,257mm") initial_state =
  (Ok (SizeWH (lit "182mm") (lit "257mm")), initial_state).
Proof.
  apply (parsePageSize_round_trip (SizeWH (lit "182mm") (lit "257mm"))).
  cbn. repeat split; try discriminate; repeat constructor.
Defined.

(** X2: [parsePageSize] throws [Cannot parse size: <size>] exactly when the
    text is empty, begins with a comma, or holds two commas or more. *)
Theorem parsePageSize_rejects (size : str) (s : State) :
  parsePageSize size s =
    (Err (MkError (lit "Cannot parse size: " ++ size)), s) <->
  (size = [] \/ (exists r, size = ","%char :: r) \/ 2 <= commas size).
Proof.
  unfold commas.
  pose proof (split_by_length "," size) as L.
  pose proof (split_by_head_empty "," size) as Hd.
  unfold parsePageSize.
  destruct (split_by "," size) as [|w [|h [|x t]]] eqn:E; cbn in L.
  - discriminate.
  - destruct w as [|c w]; cbn [truthy].
    + split; [|intros _; reflexivity].
      intros _. destruct Hd as [Hd _].
      destruct (Hd (ex_intro _ [] eq_refl)) as [H|H]; auto.
    + split.
      * intros H. discriminate.
      * intros [H|[H|H]].
        -- destruct Hd as [_ Hd]. destruct (Hd (or_introl H)). discriminate.
        -- destruct Hd as [_ Hd]. destruct (Hd (or_intror H)). discriminate.
        -- lia.
  - destruct w as [|c w]; cbn [truthy negb].
    + split; [|intros _; reflexivity].
      intros _. destruct Hd as [Hd _].
      destruct (Hd (ex_intro _ [h] eq_refl)) as [H|H]; auto.
    + split.
      * intros H. destruct h; discriminate.
      * intros [H|[H|H]].
        -- destruct Hd as [_ Hd]. destruct (Hd (or_introl H)). discriminate.
        -- destruct Hd as [_ Hd]. destruct (Hd (or_intror H)). discriminate.
        -- lia.
  - split; [intros _; right; right; lia|intros _; reflexivity].
Qed.

Module PathFacts2.
Import Path PathSpec PathFacts.

Lemma join_segs_clean_not_absolute (segs : list str) :
  Forall clean segs -> isAbsolute (join_segs segs) = false.
Proof.
  intros H. destruct segs as [|s segs]; [reflexivity|].
  inversion H as [|? ? Hs ?]; subst.
  destruct segs; cbn [join_segs];
    [rewrite <- (app_nil_r s)|]; now apply clean_not_absolute.
Qed.

(** Resolving a relative path given in one piece: the segments are
    appended to the directory. *)
Lemma resolve_rel (cwd0 : str) (a rel : list str) :
  Forall clean a -> Forall clean rel -> rel <> [] ->
  resolve cwd0 [abs_path a; join_segs rel] = abs_path (a ++ rel).
Proof.
  intros Ha Hrel Hne.
  destruct (exists_last Hne) as (sub & name & ->).
  apply Forall_app in Hrel. destruct Hrel as [Hsub Hname].
  inversion Hname as [|? ? Hn _]; subst.
  destruct sub as [|s0 sub'].
  { cbn [app join_segs]. now apply resolve_child. }
  rewrite <- (resolve_below cwd0 a (s0 :: sub') name Ha Hsub Hn).
  unfold resolve. f_equal. cbn [map].
  assert (Hall : Forall clean ((s0 :: sub') ++ [name]))
    by (apply Forall_app; split; assumption).
  rewrite (toUnix_join _ Hall), (toUnix_join _ Hsub).
  rewrite (toUnix_plain name) by now destruct Hn as (_ & ? & _).
  unfold posix_resolve. cbn [gather].
  rewrite join_snoc.
  pose proof (join_nonempty s0 sub') as Hj.
  inversion Hsub as [|? ? Hs0 Hsub']; subst.
  specialize (Hj Hs0).
  pose proof (join_segs_clean_not_absolute _ Hsub) as Hna.
  destruct (join_segs (s0 :: sub')) as [|c0 js0] eqn:Ej; [congruence|].
  assert (Hn0 : name <> []) by now destruct Hn.
  destruct name as [|cn rn]; [congruence|].
  assert (Hnn : isAbsolute (cn :: rn) = false).
  { rewrite <- (app_nil_r (cn :: rn)). now apply clean_not_absolute. }
  rewrite Hnn.
  change ((c0 :: js0) ++ "/"%char :: cn :: rn) with
    (c0 :: (js0 ++ "/"%char :: cn :: rn)).
  cbn [isAbsolute] in Hna |- *. rewrite Hna.
  cbn [app]. rewrite <- !app_assoc. cbn [app]. reflexivity.
Qed.

Lemma endsWith_app (p x : str) : endsWith p (x ++ p) = true.
Proof. unfold endsWith. rewrite rev_app_distr. apply startsWith_app. Qed.

Lemma basename_rel (segs : list str) (name : str) :
  Forall clean segs -> clean name ->
  basename (join_segs (segs ++ [name])) = name.
Proof.
  intros Hs Hn. unfold basename.
  rewrite toUnix_join
    by (apply Forall_app; split; [exact Hs|now constructor]).
  rewrite join_snoc.
  assert (Hp : toUnix name = name)
    by (apply toUnix_plain; now destruct Hn as (_ & ? & _)).
  destruct segs as [|s segs'].
  - change name with ([] ++ name) at 1.
    unfold posix_basename.
    destruct Hn as (Hne & Hpl & _).
    assert (Hr : Forall plain (rev name)) by now apply Forall_rev.
    destruct (rev name) as [|c r] eqn:E.
    { apply (f_equal (@rev ascii)) in E. rewrite rev_involutive in E.
      now subst name. }
    cbn [app]. rewrite E.
    assert (Hc : is_slash c = false) by (inversion Hr as [|? ? [? _] ?]; auto).
    rewrite dropWhile_head by exact Hc.
    assert (T : takeWhile not_slash (c :: r) = c :: r).
    { clear E. apply plain_not_slash in Hr.
      induction Hr as [|x l Hx Hl IH]; cbn; [reflexivity|].
      now rewrite Hx, IH. }
    rewrite T, <- E, rev_involutive. exact Hp.
  - rewrite posix_basename_child by exact Hn. exact Hp.
Qed.

End PathFacts2.

(** X3: A theme that [parseTheme] returns as a package was recognised by
    [parsePackageName] as a registry package or as a directory; its name
    is not empty and its location is [node_modules/<name>] under the
    themes directory. *)
Theorem package_theme_comes_from_registry_or_directory (w : World)
    (theme : ThemeSpec) (context ws td : str) (s s' : State) (t : ThemeObj)
    (name specifier location : str) (importPath : option ImportPath) :
  parseTheme w theme context ws td s = (Ok t, s') ->
  obj_val t = PackageTheme name specifier location importPath ->
  exists parsed,
    parsePackageName w (specifier_of theme) context = Some parsed /\
    (pkg_registry parsed = true \/ pkg_type parsed = PkgDirectory) /\
    name <> [] /\
    location = Path.join [td; lit "node_modules"; name].
Proof.
  intros H Hv. unfold parseTheme in H.
  destruct theme as [sp|sp imp]; cbn [specifier_of];
    (destruct (isValidUri w sp);
     [unfold new_theme in H; injection H as <- _; discriminate Hv|];
     inv_ok H;
     destruct (a && endsWith (lit ".css") (resolve w [context; sp]));
     [unfold new_theme in H; injection H as <- _; discriminate Hv|];
     destruct (parsePackageName w sp context) as [parsed|];
     [|discriminate H];
     exists parsed; split; [reflexivity|];
     destruct (pkg_registry parsed) eqn:Er, (pkg_type parsed) eqn:Et;
     cbn [negb andb] in H; try discriminate H;
     inv_ok H; destruct a0 as [[[|c n]|] rs]; try discriminate H;
     unfold new_theme in H; injection H as <- _;
     cbn [obj_val] in Hv; injection Hv as <- <- <- <-;
     (split; [auto|split; [discriminate|reflexivity]])).
Qed.

Lemma package_theme_comes_from_registry_or_directory_witness :
  let w := DemoThemes.world (lit "/proj") [] [lit "theme-techbook"] in
  exists t s',
    parseTheme w (ThemeString (lit "theme-techbook")) (lit "/proj")
      (lit "/proj/ws") (lit "/proj/ws/themes") initial_state = (Ok t, s') /\
    obj_val t =
      PackageTheme (lit "theme-techbook") (lit "theme-techbook")
        (lit "/proj/ws/themes/node_modules/theme-techbook") None /\
    exists parsed,
      parsePackageName w (lit "theme-techbook") (lit "/proj") = Some parsed /\
      (pkg_registry parsed = true \/ pkg_type parsed = PkgDirectory) /\
      lit "theme-techbook" <> [] /\
      lit "/proj/ws/themes/node_modules/theme-techbook" =
      Path.join [lit "/proj/ws/themes"; lit "node_modules";
                 lit "theme-techbook"].
Proof.
  cbv zeta. do 2 eexists.
  split; [vm_compute; reflexivity|].
  split; [vm_compute; reflexivity|].
  exact (package_theme_comes_from_registry_or_directory
           (DemoThemes.world (lit "/proj") [] [lit "theme-techbook"])
           (ThemeString (lit "theme-techbook")) (lit "/proj")
           (lit "/proj/ws") (lit "/proj/ws/themes") initial_state _ _
           _ _ _ _ eq_refl eq_refl).
Defined.

Section LocalStylesheet.
Import PathSpec PathFacts PathFacts2.

(** X4: A specifier [sub/name.css] that is no URL and names an existing
    file below the context directory becomes a file theme: its source is
    the file, and its location has the same relative place below the
    workspace directory. *)
Theorem local_stylesheet_theme_is_mirrored (w : World)
    (ctx wsd sub : list str) (stem td : str) (s : State) :
  let name := stem ++ lit ".css" in
  let specifier := Path.join_segs (sub ++ [name]) in
  Forall clean ctx -> Forall clean wsd -> Forall clean sub -> clean name ->
  isValidUri w specifier = false ->
  present w s (abs_path (ctx ++ sub ++ [name])) = true ->
  parseTheme w (ThemeString specifier) (abs_path ctx) (abs_path wsd) td s =
  (Ok {| obj_ref := next_ref s;
         obj_val := FileTheme name (abs_path (ctx ++ sub ++ [name]))
                      (abs_path (wsd ++ sub ++ [name])) |},
   bump s).
Proof.
  intros name specifier Hctx Hws Hsub Hname Huri Hex.
  assert (Hrel : Forall clean (sub ++ [name]))
    by (apply Forall_app; split; [exact Hsub|now constructor]).
  assert (Hne : sub ++ [name] <> []) by (now destruct sub).
  unfold parseTheme. rewrite Huri.
  unfold resolve, relative.
  subst specifier.
  rewrite (resolve_rel _ ctx (sub ++ [name]) Hctx Hrel Hne).
  unfold bind, existsSync. rewrite Hex.
  assert (He : endsWith (lit ".css") (abs_path (ctx ++ sub ++ [name])) = true).
  { subst name. rewrite app_assoc, abs_path_app_last. apply endsWith_app. }
  rewrite He. cbn [andb].
  rewrite (relative_below _ ctx (sub ++ [name]) Hctx Hrel).
  rewrite (resolve_rel _ wsd (sub ++ [name]) Hws Hrel Hne).
  rewrite (basename_rel sub name Hsub Hname).
  reflexivity.
Qed.

End LocalStylesheet.

Lemma local_stylesheet_theme_is_mirrored_witness :
  parseTheme (Demo.world (lit "/proj") [lit "/proj/styles/book.css"])
    (ThemeString (lit "styles/book.css")) (lit "/proj") (lit "/proj/ws")
    (lit "/proj/ws/themes") initial_state =
  (Ok {| obj_ref := 0;
         obj_val := FileTheme (lit "book.css") (lit "/proj/styles/book.css")
                      (lit "/proj/ws/styles/book.css") |},
   bump initial_state).
Proof.
  apply (local_stylesheet_theme_is_mirrored
           (Demo.world (lit "/proj") [lit "/proj/styles/book.css"])
           [lit "proj"] [lit "proj"; lit "ws"] [lit "styles"] (lit "book")
           (lit "/proj/ws/themes") initial_state);
    first [ reflexivity | solve_segments ].
Defined.

(** ** Titles of HTML manuscripts *)

Lemma strip_prefix_Some (p s r : str) :
  strip_prefix p s = Some r -> s = p ++ r.
Proof.
  revert s. induction p as [|x p IH]; intros [|y s] H; cbn in H;
    try discriminate; try (injection H as <-; reflexivity).
  destruct (Ascii.eqb x y) eqn:E; [|discriminate].
  apply Ascii.eqb_eq in E. subst y. cbn. f_equal. now apply IH.
Qed.

Lemma startsWith_true (p s : str) :
  startsWith p s = true -> exists r, s = p ++ r.
Proof.
  revert s. induction p as [|x p IH]; intros s H.
  - now exists s.
  - destruct s as [|y s]; [discriminate|]. cbn in H.
    apply andb_true_iff in H. destruct H as [E H].
    apply Ascii.eqb_eq in E. subst y.
    destruct (IH _ H) as [r ->]. now exists r.
Qed.

Lemma takeWhile_dropWhile (f : ascii -> bool) (l : str) :
  Path.takeWhile f l ++ Path.dropWhile f l = l.
Proof.
  induction l as [|c l IH]; cbn; [reflexivity|].
  destruct (f c); cbn; [now rewrite IH|reflexivity].
Qed.

Lemma takeWhile_Forall (f : ascii -> bool) (l : str) :
  Forall (fun c => f c = true) (Path.takeWhile f l).
Proof.
  induction l as [|c l IH]; cbn; [constructor|].
  destruct (f c) eqn:E; constructor; assumption.
Qed.

Lemma title_at_Some (s t : str) :
  title_at s = Some t ->
  no_lt t /\ exists post, s = lit "<title>" ++ t ++ lit "</title>" ++ post.
Proof.
  unfold title_at. intros H.
  destruct (strip_prefix (lit "<title>") s) as [rest|] eqn:E; [|discriminate].
  apply strip_prefix_Some in E.
  destruct (startsWith (lit "</title>") (Path.dropWhile not_lt rest)) eqn:Es;
    [|discriminate].
  injection H as <-.
  apply startsWith_true in Es. destruct Es as [post Hpost].
  split.
  - eapply Forall_impl; [|apply takeWhile_Forall].
    intros c Hc. unfold not_lt in Hc. now apply negb_true_iff in Hc.
  - exists post. rewrite E. f_equal.
    rewrite <- (takeWhile_dropWhile not_lt rest) at 1.
    now rewrite Hpost.
Qed.

Lemma match_title_Some (s t : str) :
  match_title s = Some t ->
  no_lt t /\
  exists pre post, s = pre ++ lit "<title>" ++ t ++ lit "</title>" ++ post.
Proof.
  induction s as [|c s IH]; cbn [match_title]; intros H.
  - destruct (title_at []) eqn:E; [|discriminate]. discriminate E.
  - destruct (title_at (c :: s)) as [t'|] eqn:E.
    + injection H as ->. apply title_at_Some in E.
      destruct E as [Hn [post Hp]]. split; [exact Hn|].
      exists [], post. exact Hp.
    + destruct (IH H) as [Hn (pre & post & Hp)]. split; [exact Hn|].
      exists (c :: pre), post. now rewrite Hp.
Qed.

(** X5: For a manuscript that is not Markdown, [parseFileMetadata] reads
    the file, leaves the state as it was and reports no theme; a title it
    reports is not empty, holds no [<], and stands between [<title>] and
    [</title>] in the file. *)
Theorem html_title_is_a_title_element (w : World) (ct : ManuscriptMediaType)
    (path ws : str) (td : option str) (s s' : State) (fm : FileMetadata) :
  ct <> TextMarkdown ->
  parseFileMetadata w ct path ws td s = (Ok fm, s') ->
  s' = s /\
  fm_themes fm = None /\
  exists content,
    read_file w path = Some content /\
    forall t, fm_title fm = Some t ->
      t <> [] /\ no_lt t /\
      exists pre post,
        content = pre ++ lit "<title>" ++ t ++ lit "</title>" ++ post.
Proof.
  intros Hct H.
  assert (H' : match read_file w path with
               | None => throw (ReadError path)
               | Some content =>
                   ret {| fm_title :=
                            match match_title content with
                            | Some ((_ :: _) as t) => Some t
                            | _ => None
                            end;
                          fm_themes := None |}
               end s = (Ok fm, s')).
  { destruct ct; [congruence|exact H|exact H]. }
  clear H. destruct (read_file w path) as [content|]; [|discriminate].
  inv_ok H'. split; [reflexivity|]. split; [reflexivity|].
  exists content. split; [reflexivity|].
  cbn [fm_title]. intros t Ht.
  destruct (match_title content) as [[|c t']|] eqn:E; try discriminate.
  injection Ht as <-. split; [discriminate|].
  now apply match_title_Some.
Qed.

Lemma html_title_is_a_title_element_witness :
  let w :=
    {| consts := Demo.the_consts;
       cwd := lit "/proj";
       now := lit "0";
       file_exists := fun _ => true;
       read_file := fun _ =>
         Some (lit "<html><head><title>Moby Dick</title></head></html>");
       mime := Demo.mime_of;
       readMarkdownMetadata := fun _ => None;
       parsePackageName := fun _ _ => None;
       package_json_name := fun _ => None;
       readJSON := fun _ => None;
       isValidUri := Demo.is_uri;
       pathEquals := fun a b => str_eqb a b;
       new_URL := Demo.parse_url;
       new_URL_dummy := Demo.parse_url;
       pathToFileURL := fun p =>
         {| url_protocol := lit "file:"; url_host := []; url_pathname := p |};
       url_href := fun u => url_pathname u |} in
  parseFileMetadata w TextHtml (lit "/proj/a.html") (lit "/proj/ws") None
    initial_state =
  (Ok {| fm_title := Some (lit "Moby Dick"); fm_themes := None |},
   initial_state) /\
  exists content,
    read_file w (lit "/proj/a.html") = Some content /\
    forall t, Some (lit "Moby Dick") = Some t ->
      t <> [] /\ no_lt t /\
      exists pre post,
        content = pre ++ lit "<title>" ++ t ++ lit "</title>" ++ post.
Proof.
  cbv zeta. split; [vm_compute; reflexivity|].
  refine (proj2 (proj2
    (html_title_is_a_title_element _ TextHtml (lit "/proj/a.html")
       (lit "/proj/ws") None initial_state initial_state
       {| fm_title := Some (lit "Moby Dick"); fm_themes := None |} _ _))).
  - discriminate.
  - vm_compute. reflexivity.
Defined.

(** ** The theme index of a plan *)

Lemma mapM_invariant {A B} (R : State -> State -> Prop) (f : A -> M B)
    (l : list A) :
  (forall s, R s s) ->
  (forall s1 s2 s3, R s1 s2 -> R s2 s3 -> R s1 s3) ->
  (forall a s b s', f a s = (Ok b, s') -> R s s') ->
  forall s bs s', mapM f l s = (Ok bs, s') -> R s s'.
Proof.
  intros Hrefl Htrans Hf.
  induction l as [|a l IH]; intros s bs s' H; cbn [mapM] in H.
  - inv_ok H. apply Hrefl.
  - inv_ok H. inv_ok H. inv_ok H.
    eapply Htrans; [eapply Hf; eassumption|].
    eapply IH; eassumption.
Qed.

Lemma mapM_length {A B} (f : A -> M B) (l : list A) (s s' : State)
    (bs : list B) :
  mapM f l s = (Ok bs, s') -> List.length bs = List.length l.
Proof.
  revert s bs. induction l as [|a l IH]; intros s bs H; cbn [mapM] in H.
  - inv_ok H. reflexivity.
  - inv_ok H. inv_ok H. inv_ok H. cbn. f_equal. eapply IH; eassumption.
Qed.

Section ThemeIndex.

Variable w : World.

Lemma same_index_refl (s : State) : same_index s s.
Proof. reflexivity. Qed.

Lemma same_index_trans (s1 s2 s3 : State) :
  same_index s1 s2 -> same_index s2 s3 -> same_index s1 s3.
Proof. unfold same_index. congruence. Qed.

Lemma parseTheme_same_index (theme : ThemeSpec) (context ws td : str)
    (s s' : State) (a : ThemeObj) :
  parseTheme w theme context ws td s = (Ok a, s') -> same_index s s'.
Proof.
  intros H. apply parseTheme_Ok in H. destruct H as [_ ->]. reflexivity.
Qed.

Lemma mapM_parseTheme_same_index (l : list ThemeSpec) (context ws td : str)
    (s s' : State) (ts : list ThemeObj) :
  mapM (fun theme => parseTheme w theme context ws td) l s = (Ok ts, s') ->
  same_index s s'.
Proof.
  apply (mapM_invariant same_index _ l same_index_refl same_index_trans).
  intros a s0 b s1. apply parseTheme_same_index.
Qed.

Lemma parseFileMetadata_same_index (ct : ManuscriptMediaType)
    (path ws : str) (td : option str) (s s' : State) (fm : FileMetadata) :
  parseFileMetadata w ct path ws td s = (Ok fm, s') -> same_index s s'.
Proof.
  unfold parseFileMetadata. intros H.
  destruct ct.
  - destruct (readMarkdownMetadata w path) as [md|]; [|discriminate].
    destruct (md_theme md) as [t|]; [|inv_ok H; reflexivity].
    destruct td as [[|c td]|]; try (inv_ok H; reflexivity).
    destruct (meta_truthy t); [|inv_ok H; reflexivity].
    inv_ok H. inv_ok H.
    eapply mapM_parseTheme_same_index; eassumption.
  - destruct (read_file w path); [|discriminate]. inv_ok H. reflexivity.
  - destruct (read_file w path); [|discriminate]. inv_ok H. reflexivity.
Qed.

Lemma statFileSync_Ok (p : str) (m : option str) (s s' : State) (u : unit) :
  statFileSync w p m s = (Ok u, s') -> s' = s /\ present w s p = true.
Proof.
  unfold statFileSync, bind, existsSync.
  destruct (present w s p); intros H; [|discriminate].
  injection H as _ <-. split; reflexivity.
Qed.

Variable oc : CommonOpts.
Variable lo : str.
Variable toc : TocDefaults.
Variable pt : option str.

Lemma getInputInfo_same_index (entry : EntryObject) (p : str) (s s' : State)
    (i : EntrySource * option FileMetadata) :
  getInputInfo w oc lo entry p s = (Ok i, s') -> same_index s s'.
Proof.
  unfold getInputInfo. intros H.
  destruct (is_http p).
  - destruct (new_URL w p); [|discriminate]. inv_ok H. reflexivity.
  - destruct (startsWith (lit "/") p); [inv_ok H; reflexivity|].
    inv_ok H. apply statFileSync_Ok in Hm. destruct Hm as [-> _].
    destruct (isManuscriptMediaType _); [|discriminate].
    inv_ok H. inv_ok H.
    eapply parseFileMetadata_same_index; eassumption.
Qed.

Lemma optionalInputInfo_same_index (entry : EntryObject) (s s' : State)
    (i : option (EntrySource * option FileMetadata)) :
  optionalInputInfo w oc lo entry s = (Ok i, s') -> same_index s s'.
Proof.
  unfold optionalInputInfo. intros H.
  destruct (e_path entry) as [[|c p]|]; try (inv_ok H; reflexivity).
  inv_ok H. inv_ok H. eapply getInputInfo_same_index; eassumption.
Qed.

Lemma getTargetPath_state (source : EntrySource) (s s' : State) (t : str) :
  getTargetPath w oc source s = (Ok t, s') -> s' = s.
Proof.
  unfold getTargetPath. intros H. destruct source.
  - now inv_ok H.
  - destruct (new_URL_dummy w href); [|discriminate]. now inv_ok H.
Qed.

Lemma declaredTarget_state (entry : EntryObject)
    (i : option (EntrySource * option FileMetadata)) (s s' : State)
    (t : option str) :
  declaredTarget w oc entry i s = (Ok t, s') -> s' = s.
Proof.
  unfold declaredTarget. intros H.
  destruct (e_output entry) as [[|c o]|]; try (now inv_ok H);
    (destruct i as [[source m]|]; [|now inv_ok H];
     inv_ok H; inv_ok H; eapply getTargetPath_state; eassumption).
Qed.

Lemma entryThemes_same_index (entry : EntryObject)
    (m : option FileMetadata) (inherited ts : list ThemeObj) (s s' : State) :
  entryThemes w oc entry m inherited s = (Ok ts, s') -> same_index s s'.
Proof.
  unfold entryThemes. intros H.
  destruct (e_theme entry) as [f|]; [|inv_ok H; reflexivity].
  destruct (theme_field_truthy f); [|inv_ok H; reflexivity].
  eapply mapM_parseTheme_same_index; eassumption.
Qed.

Lemma stageIfSame_same_index
    (i : option (EntrySource * option FileMetadata)) (target t : str)
    (s s' : State) :
  stageIfSame w oc i target s = (Ok t, s') -> same_index s s'.
Proof.
  unfold stageIfSame. intros H.
  destruct i as [[[pathname ct|href root] m]|]; try (inv_ok H; reflexivity).
  destruct (pathEquals w pathname target); [|inv_ok H; reflexivity].
  unfold bind, push_alias, touchTmpFile, ret in H.
  injection H as _ <-. reflexivity.
Qed.

Lemma ensureCoverImage_state (src : option str) (s s' : State)
    (r : option str) :
  ensureCoverImage w oc src s = (Ok r, s') -> s' = s.
Proof.
  unfold ensureCoverImage. intros H.
  destruct src as [[|c src]|]; try (now inv_ok H).
  inv_ok H. inv_ok H.
  destruct (truthy _); [|now inv_ok Hm].
  apply statFileSync_Ok in Hm. now destruct Hm.
Qed.

Lemma pathFallback_same_index (entry entry' : EntryObject) (s s' : State) :
  pathFallback w oc entry s = (Ok entry', s') -> same_index s s'.
Proof.
  intros H.
  destruct (pathFallback_cases w oc entry s) as [E|(p & _ & _ & _ & _ & E)];
    rewrite E in H; injection H as _ <-; reflexivity.
Qed.

Lemma index_grows_refl (s : State) : index_grows s s.
Proof. intros t H. exact H. Qed.

Lemma index_grows_trans (s1 s2 s3 : State) :
  index_grows s1 s2 -> index_grows s2 s3 -> index_grows s1 s3.
Proof. intros H1 H2 t H. apply H2, H1, H. Qed.

Lemma same_index_grows (s s' : State) : same_index s s' -> index_grows s s'.
Proof. intros H t. unfold indexed. now rewrite H. Qed.

Lemma set_add_keeps (t u : ThemeObj) (idx : list ThemeObj) :
  existsb (same_object t) idx = true ->
  existsb (same_object t) (set_add u idx) = true.
Proof.
  intros H. unfold set_add.
  destruct (existsb (same_object u) idx); [exact H|].
  rewrite existsb_app, H. reflexivity.
Qed.

Lemma set_add_has (t : ThemeObj) (idx : list ThemeObj) :
  existsb (same_object t) (set_add t idx) = true.
Proof.
  unfold set_add.
  destruct (existsb (same_object t) idx) eqn:E; [exact E|].
  rewrite existsb_app. cbn [existsb]. unfold same_object at 2.
  rewrite Nat.eqb_refl. apply orb_true_r.
Qed.

Lemma fold_set_add_keeps (t : ThemeObj) (ts idx : list ThemeObj) :
  existsb (same_object t) idx = true ->
  existsb (same_object t)
    (fold_left (fun idx0 u => set_add u idx0) ts idx) = true.
Proof.
  revert idx. induction ts as [|u ts IH]; intros idx H; cbn [fold_left].
  - exact H.
  - apply IH. now apply set_add_keeps.
Qed.

Lemma fold_set_add_has (ts idx : list ThemeObj) :
  Forall (fun t =>
            existsb (same_object t)
              (fold_left (fun idx0 u => set_add u idx0) ts idx) = true) ts.
Proof.
  revert idx. induction ts as [|u ts IH]; intros idx; constructor.
  - cbn [fold_left]. apply fold_set_add_keeps, set_add_has.
  - cbn [fold_left]. apply IH.
Qed.

Lemma add_themes_Ok (ts : list ThemeObj) (s s' : State) (u : unit) :
  add_themes ts s = (Ok u, s') ->
  index_grows s s' /\ Forall (indexed s') ts.
Proof.
  unfold add_themes. intros H. injection H as _ <-. split.
  - intros t Ht. unfold indexed in *. cbn [themeIndexes].
    now apply fold_set_add_keeps.
  - unfold indexed. cbn [themeIndexes]. apply fold_set_add_has.
Qed.

Lemma Forall_indexed_grows (s s' : State) (ts : list ThemeObj) :
  index_grows s s' -> Forall (indexed s) ts -> Forall (indexed s') ts.
Proof. intros G H. eapply Forall_impl; [|exact H]. exact G. Qed.

Ltac grow_step :=
  match goal with
  | H : optionalInputInfo _ _ _ _ _ = (Ok _, _) |- _ =>
      apply optionalInputInfo_same_index, same_index_grows in H
  | H : declaredTarget _ _ _ _ _ = (Ok _, _) |- _ =>
      apply declaredTarget_state in H; subst
  | H : entryThemes _ _ _ _ _ _ = (Ok _, _) |- _ =>
      apply entryThemes_same_index, same_index_grows in H
  | H : stageIfSame _ _ _ _ _ = (Ok _, _) |- _ =>
      apply stageIfSame_same_index, same_index_grows in H
  | H : ensureCoverImage _ _ _ _ = (Ok _, _) |- _ =>
      apply ensureCoverImage_state in H; subst
  | H : getInputInfo _ _ _ _ _ _ = (Ok _, _) |- _ =>
      apply getInputInfo_same_index, same_index_grows in H
  | H : getTargetPath _ _ _ _ = (Ok _, _) |- _ =>
      apply getTargetPath_state in H; subst
  | H : add_themes _ _ = (Ok _, _) |- _ =>
      apply add_themes_Ok in H; destruct H
  end.

Ltac solve_grows :=
  first [ apply index_grows_refl
        | match goal with
          | H : index_grows ?a _ |- index_grows ?a _ =>
              apply (index_grows_trans _ _ _ H); solve_grows
          end ].

Ltac solve_indexed :=
  match goal with
  | H : Forall (indexed _) ?ts |- Forall (indexed _) ?ts =>
      apply (fun G => Forall_indexed_grows _ _ _ G H); solve_grows
  end.

Lemma parseEntry_indexes (entry : EntryObject) (s s' : State)
    (pe : ParsedEntry) :
  parseEntry w oc lo toc pt entry s = (Ok pe, s') ->
  index_grows s s' /\ Forall (indexed s') (entry_themes pe).
Proof.
  unfold parseEntry. intros H. inv_ok H.
  apply pathFallback_same_index, same_index_grows in Hm.
  destruct (isContentsEntry a); [|destruct (isCoverEntry a)].
  - unfold parseContentsEntry in H. repeat inv_ok H.
    repeat grow_step. cbn [entry_themes c_themes].
    split; [solve_grows|solve_indexed].
  - unfold parseCoverEntry in H. inv_ok H.
    destruct a0 as [[inputInfo target] themes].
    unfold coverInputs in Hm0. repeat inv_ok Hm0.
    injection Hm0 as <- <- <-.
    inv_ok H.
    match type of H with
    | (match ?x with _ => _ end) _ = _ =>
        destruct x as [[|c src]|]; try discriminate H
    end.
    repeat inv_ok H. repeat grow_step.
    cbn [entry_themes v_themes].
    split; [solve_grows|solve_indexed].
  - unfold parseArticleEntry in H.
    destruct (e_path a) as [p|]; [|discriminate].
    inv_ok H. destruct a0 as [source metadata].
    inv_ok H. inv_ok H. inv_ok H. inv_ok H.
    assert (Hs : s1 = s2).
    { destruct (e_output a) as [[|c o]|]; try (now inv_ok Hm1);
        symmetry; eapply getTargetPath_state; eassumption. }
    subst s2. clear Hm1.
    repeat grow_step. cbn [entry_themes m_themes].
    split; [solve_grows|solve_indexed].
Qed.

Lemma mapM_parseEntry_indexes (l : list EntryObject) (s s' : State)
    (pes : list ParsedEntry) :
  mapM (parseEntry w oc lo toc pt) l s = (Ok pes, s') ->
  index_grows s s' /\
  Forall (fun pe => Forall (indexed s') (entry_themes pe)) pes.
Proof.
  revert s pes. induction l as [|e l IH]; intros s pes H; cbn [mapM] in H.
  - inv_ok H. split; [apply index_grows_refl|constructor].
  - inv_ok H. inv_ok H. inv_ok H.
    apply parseEntry_indexes in Hm. destruct Hm as [G1 F1].
    apply IH in Hm0. destruct Hm0 as [G2 F2]. split.
    + eapply index_grows_trans; eassumption.
    + constructor; [|exact F2].
      eapply Forall_indexed_grows; eassumption.
Qed.

End ThemeIndex.

(** ** The plan of a project *)

Ltac bind_inv H x sx Hx :=
  apply bind_Ok in H; destruct H as (x & sx & Hx & H).

Section ProjectPlan.

Variable w : World.

Lemma fallbackProjectTitleOf_state (pt : option str)
    (entries : list ParsedEntry) (outs : list OutputConfig) (s s' : State)
    (t : option str) :
  fallbackProjectTitleOf pt entries outs s = (Ok t, s') -> s' = s.
Proof.
  unfold fallbackProjectTitleOf. intros H.
  destruct (opt_truthy pt); [now inv_ok H|].
  destruct entries as [|e [|e' l]];
    try destruct (opt_truthy (entry_title e));
    try destruct outs; try discriminate H; now inv_ok H.
Qed.

(** A successful run of [composeProjectConfig], step by step. *)
Lemma composeProjectConfig_Ok (oc : CommonOpts) (config : ParsedBuildTask)
    (s s' : State) (r : ResolvedTaskConfig) :
  composeProjectConfig w oc config s = (Ok r, s') ->
  let pt := projectTitleOf config (packageJsonOf w oc s) in
  exists parsed fallback,
    mapM (parseEntry w oc (localOriginOf oc) (tocConfigOf w oc config) pt)
      (cfg_entry config) (fresh_aliases s) = (Ok parsed, s') /\
    fallbackProjectTitleOf pt parsed (outputs oc) s' = (Ok fallback, s') /\
    r_title r = (if opt_truthy pt then pt else fallback) /\
    r_exportAliases r = exportAliases s' /\
    exists cover_page toc_page,
      r_entries r = cover_page ++ toc_page ++ parsed /\
      toc_page =
        match cfg_toc config with
        | Some _ =>
            if existsb is_contents parsed then []
            else [generated_toc w oc config]
        | None => []
        end /\
      match cover oc with
      | Some c =>
          match rc_htmlPath c with
          | Some ((_ :: _) as htmlPath) =>
              if existsb is_cover (toc_page ++ parsed) then cover_page = []
              else
                exists img cv,
                  ensureCoverImage w oc (Some (rc_src c)) s' = (Ok img, s') /\
                  cover_page = [Cover cv] /\
                  v_target cv = htmlPath /\ v_themes cv = []
          | _ => cover_page = []
          end
      | None => cover_page = []
      end.
Proof.
  intros H pt. unfold composeProjectConfig in H.
  bind_inv H pkg s1 Hpkg.
  unfold readPackageJson in Hpkg. injection Hpkg as <- <-.
  bind_inv H u s2 Hal.
  unfold new_exportAliases in Hal. injection Hal as _ <-.
  bind_inv H parsed s3 Hparsed.
  bind_inv H fallback s4 Hfb.
  pose proof (fallbackProjectTitleOf_state _ _ _ _ _ _ Hfb) as ->.
  bind_inv H entries2 s5 Hent.
  bind_inv H aliases s6 Hals. injection Hals as <- <-.
  apply ret_Ok in H. destruct H as [<- <-].
  cbn [r_title r_exportAliases r_entries].
  set (toc_page :=
         match cfg_toc config with
         | Some _ =>
             if existsb is_contents parsed then []
             else [generated_toc w oc config]
         | None => []
         end).
  assert (E1 : match cfg_toc config with
               | Some _ =>
                   if existsb is_contents parsed then parsed
                   else generated_toc w oc config :: parsed
               | None => parsed
               end = toc_page ++ parsed).
  { subst toc_page. destruct (cfg_toc config); [|reflexivity].
    destruct (existsb is_contents parsed); reflexivity. }
  unfold generated_toc in E1 at 1. rewrite E1 in Hent.
  assert (Hs : s5 = s3 /\
    exists cover_page,
      entries2 = cover_page ++ toc_page ++ parsed /\
      match cover oc with
      | Some c =>
          match rc_htmlPath c with
          | Some ((_ :: _) as htmlPath) =>
              if existsb is_cover (toc_page ++ parsed) then cover_page = []
              else
                exists img cv,
                  ensureCoverImage w oc (Some (rc_src c)) s3 = (Ok img, s3) /\
                  cover_page = [Cover cv] /\
                  v_target cv = htmlPath /\ v_themes cv = []
          | _ => cover_page = []
          end
      | None => cover_page = []
      end).
  { destruct (cover oc) as [c|];
      [|apply ret_Ok in Hent; destruct Hent as [<- <-];
        split; [reflexivity|]; now exists []].
    destruct (rc_htmlPath c) as [[|ch hp]|];
      try (apply ret_Ok in Hent; destruct Hent as [<- <-];
           split; [reflexivity|]; now exists []).
    destruct (existsb is_cover (toc_page ++ parsed));
      [apply ret_Ok in Hent; destruct Hent as [<- <-];
       split; [reflexivity|]; now exists []|].
    bind_inv Hent img s7 Himg.
    pose proof (ensureCoverImage_state _ _ _ _ _ _ Himg) as ->.
    apply ret_Ok in Hent. destruct Hent as [<- <-].
    split; [reflexivity|].
    eexists [_]. split; [reflexivity|].
    exists img. eexists. split; [exact Himg|].
    split; [reflexivity|]. split; reflexivity. }
  destruct Hs as [-> (cover_page & -> & Hcover)].
  exists parsed, fallback.
  split; [exact Hparsed|]. split; [exact Hfb|].
  split; [reflexivity|]. split; [reflexivity|].
  exists cover_page, toc_page.
  split; [reflexivity|]. split; [reflexivity|]. exact Hcover.
Qed.

(** A successful run of [resolveTaskConfig]: the common options, then one
    of the two composers. *)
Lemma resolveTaskConfig_Ok (config : ParsedBuildTask)
    (options : InlineOptions) (s s' : State) (r : ResolvedTaskConfig) :
  resolveTaskConfig w config options s = (Ok r, s') ->
  exists oc s2,
    context oc = context_of w options /\
    workspaceDir oc =
      resolve w [context_of w options;
                 match cfg_workspaceDir config with
                 | Some d => d
                 | None => lit ".vivliostyle"
                 end] /\
    themesDir oc = resolve w [workspaceDir oc; lit "themes"] /\
    entryContextDir oc =
      match cfg_entryContext config with
      | Some ((_ :: _) as ec) => resolve w [context_of w options; ec]
      | _ => context_of w options
      end /\
    outputs oc = resolveOutputs w (context_of w options) config /\
    touched s2 = touched s /\
    Forall (indexed s2) (rootThemes oc) /\
    (forall c htmlPath,
       cover oc = Some c -> rc_htmlPath c = Some htmlPath ->
       exists p, htmlPath = resolve w [workspaceDir oc; p]) /\
    match single_input options with
    | Some input => composeSingleInputConfig w oc config input s2 = (Ok r, s')
    | None => composeProjectConfig w oc config s2 = (Ok r, s')
    end.
Proof.
  unfold resolveTaskConfig. intros H.
  bind_inv H psize s1 Hsize.
  assert (Hs1 : s1 = s).
  { destruct (cfg_size config) as [[|c sz]|]; try (now inv_ok Hsize).
    bind_inv Hsize p s0 Hp. apply ret_Ok in Hsize. destruct Hsize as [_ <-].
    unfold parsePageSize in Hp.
    destruct (split_by "," (c :: sz)) as [|x [|y [|z t]]];
      try discriminate Hp.
    - destruct (truthy x); [now inv_ok Hp|discriminate Hp].
    - destruct (truthy x); cbn [negb] in Hp; [|discriminate Hp].
      destruct (truthy y); now inv_ok Hp. }
  subst s1. clear Hsize.
  bind_inv H roots s1 Hroots.
  assert (Ht : touched s1 = touched s).
  { destruct (cfg_theme config) as [ts|]; [|now inv_ok Hroots].
    revert Hroots.
    apply (mapM_invariant (fun a b => touched b = touched a) _ ts);
      [reflexivity|intros; congruence|].
    intros a s0 b s2 Hp. apply parseTheme_Ok in Hp.
    destruct Hp as [_ ->]. reflexivity. }
  clear Hroots.
  bind_inv H u s2 Hset.
  unfold set_themeIndexes in Hset. injection Hset as _ <-.
  eexists. eexists.
  repeat match goal with |- _ /\ _ => split end;
    [..|unfold single_input;
        destruct (opt_config options) as [[|c cs]|],
                 (opt_input options) as [i|]; exact H];
    try reflexivity.
  - exact Ht.
  - cbn [rootThemes]. unfold indexed. cbn [themeIndexes].
    apply fold_set_add_has.
  - cbn [cover workspaceDir]. intros c htmlPath Hc Hh.
    destruct (cfg_cover config) as [cv|]; [|discriminate Hc].
    injection Hc as <-. cbn [rc_htmlPath] in Hh.
    destruct (cv_htmlPath cv) as [[[|ch hp]|]|]; try discriminate Hh;
      injection Hh as <-; eexists; reflexivity.
Qed.

End ProjectPlan.

Section PlanFacts.

Variable w : World.

Lemma composeSingleInputConfig_indexes (oc : CommonOpts)
    (config : ParsedBuildTask) (input : InputOption) (s s' : State)
    (r : ResolvedTaskConfig) :
  composeSingleInputConfig w oc config input s = (Ok r, s') ->
  index_grows s s' /\
  Forall (fun e => Forall (indexed s') (entry_themes e)) (r_entries r).
Proof.
  unfold composeSingleInputConfig. intros H.
  bind_inv H u s1 Hal.
  unfold new_exportAliases in Hal. injection Hal as _ <-.
  bind_inv H sourcePath s2 Hsrc.
  assert (G0 : index_grows s s2).
  { apply same_index_grows.
    destruct (negb (isValidUri w (in_entry input)));
      [now inv_ok Hsrc|].
    bind_inv Hsrc u0 s3 Hst. apply (statFileSync_Ok w) in Hst.
    destruct Hst as [-> _]. now inv_ok Hsrc. }
  clear Hsrc.
  bind_inv H entries s3 Hent.
  assert (E : index_grows s2 s3 /\
              Forall (fun e => Forall (indexed s3) (entry_themes e)) entries).
  { destruct (in_format input);
      try (inv_ok Hent; split; [apply index_grows_refl|constructor]).
    bind_inv Hent metadata s4 Hmeta.
    apply parseFileMetadata_same_index, same_index_grows in Hmeta.
    bind_inv Hent u1 s5 Htouch.
    unfold touchTmpFile in Htouch. injection Htouch as _ <-.
    bind_inv Hent u2 s6 Hadd.
    apply add_themes_Ok in Hadd. destruct Hadd as [G1 F1].
    bind_inv Hent u3 s7 Hpush.
    unfold push_alias in Hpush. injection Hpush as _ <-.
    apply ret_Ok in Hent. destruct Hent as [<- <-]. split.
    - intros t Ht. apply G1. exact (Hmeta t Ht).
    - constructor; [|constructor]. exact F1. }
  clear Hent. destruct E as [G1 F1].
  bind_inv H vi s4 Hvi.
  assert (G2 : index_grows s3 s4).
  { apply same_index_grows. destruct (in_format input).
    - unfold bind, touchTmpFile, push_alias, ret in Hvi.
      injection Hvi as _ <-. reflexivity.
    - bind_inv Hvi url s5 Hurl. apply ret_Ok in Hvi. destruct Hvi as [_ <-].
      destruct (isValidUri w sourcePath);
        [destruct (new_URL w sourcePath); [|discriminate]|];
        now inv_ok Hurl.
    - now inv_ok Hvi.
    - now inv_ok Hvi.
    - now inv_ok Hvi. }
  clear Hvi. destruct vi as [fallbackTitle viewerInput].
  bind_inv H aliases s5 Hals. injection Hals as _ <-.
  apply ret_Ok in H. destruct H as [<- <-]. cbn [r_entries]. split.
  - intros t Ht. apply G2, G1, G0. exact Ht.
  - eapply Forall_impl; [|exact F1]. cbn beta. intros e He.
    eapply Forall_indexed_grows; eassumption.
Qed.

Lemma composeProjectConfig_indexes (oc : CommonOpts)
    (config : ParsedBuildTask) (s s' : State) (r : ResolvedTaskConfig) :
  composeProjectConfig w oc config s = (Ok r, s') ->
  Forall (indexed s) (rootThemes oc) ->
  index_grows s s' /\
  Forall (fun e => Forall (indexed s') (entry_themes e)) (r_entries r).
Proof.
  intros H Hroot. apply composeProjectConfig_Ok in H. cbv zeta in H.
  destruct H as (parsed & fallback & Hparsed & _ & _ & _ &
                 cover_page & toc_page & -> & Htoc & Hcover).
  apply mapM_parseEntry_indexes in Hparsed. destruct Hparsed as [G F].
  change (index_grows s s') in G. split; [exact G|].
  apply Forall_app. split; [|apply Forall_app; split; [|exact F]].
  - destruct (cover oc) as [c|]; [|subst; constructor].
    destruct (rc_htmlPath c) as [[|ch hp]|]; try (subst; constructor).
    destruct (existsb is_cover (toc_page ++ parsed)); [subst; constructor|].
    destruct Hcover as (img & cv & _ & -> & _ & Hth).
    constructor; [|constructor]. cbn [entry_themes]. rewrite Hth.
    constructor.
  - subst toc_page. destruct (cfg_toc config); [|constructor].
    destruct (existsb is_contents parsed); [constructor|].
    constructor; [|constructor]. cbn [generated_toc entry_themes c_themes].
    eapply Forall_indexed_grows; eassumption.
Qed.






End PlanFacts.

(** X6: In a resolved plan every root theme and every theme of every entry
    is one of the objects of the theme index. *)
Theorem plan_themes_are_indexed (w : World) (config : ParsedBuildTask)
    (options : InlineOptions) (s s' : State) (r : ResolvedTaskConfig) :
  resolveTaskConfig w config options s = (Ok r, s') ->
  Forall (indexed s') (rootThemes (r_common r)) /\
  Forall (fun e => Forall (indexed s') (entry_themes e)) (r_entries r).
Proof.
  intros H. apply resolveTaskConfig_Ok in H.
  destruct H as (oc & s2 & _ & _ & _ & _ & _ & _ & Hroot & _ & H).
  destruct (single_input options) as [input|].
  - pose proof (composeSingleInputConfig_common _ _ _ _ _ _ _ H) as ->.
    apply composeSingleInputConfig_indexes in H. destruct H as [G F].
    split; [|exact F]. eapply Forall_indexed_grows; eassumption.
  - pose proof (composeProjectConfig_common _ _ _ _ _ _ H) as ->.
    apply composeProjectConfig_indexes in H; [|exact Hroot].
    destruct H as [G F].
    split; [|exact F]. eapply Forall_indexed_grows; eassumption.
Qed.


Lemma plan_themes_are_indexed_witness :
  let w := Demo.world (lit "/proj") [lit "/proj/a.html"] in
  let config :=
    Demo.with_theme
      (Demo.config_with (Some (lit "Book")) None
         [Demo.entry_at None (Some (lit "a.html"))])
      (Some [ThemeString (lit "https://example.com/theme.css")]) in
  exists r s',
    resolveTaskConfig w config Demo.no_options initial_state = (Ok r, s') /\
    List.length (rootThemes (r_common r)) = 1 /\
    Forall (indexed s') (rootThemes (r_common r)) /\
    Forall (fun e => Forall (indexed s') (entry_themes e)) (r_entries r).
Proof.
  cbv zeta. do 2 eexists.
  split; [vm_compute; reflexivity|]. split; [reflexivity|].
  eapply (plan_themes_are_indexed
            (Demo.world (lit "/proj") [lit "/proj/a.html"])
            (Demo.with_theme
               (Demo.config_with (Some (lit "Book")) None
                  [Demo.entry_at None (Some (lit "a.html"))])
               (Some [ThemeString (lit "https://example.com/theme.css")]))
            Demo.no_options initial_state).
  vm_compute. reflexivity.
Defined.


(** ** Titles of a project *)

(** X8: A project that resolves has a title.  It is the project title (the
    configured title or, when none is configured, the name of the package)
    when that is not empty; otherwise it is the title of the only declared
    entry, when that is not empty, or the base name of the path of the first
    output, which may be the empty text. *)
Theorem project_plan_has_a_title (w : World) (oc : CommonOpts)
    (config : ParsedBuildTask) (s s' : State) (r : ResolvedTaskConfig) :
  composeProjectConfig w oc config s = (Ok r, s') ->
  let projectTitle := projectTitleOf config (packageJsonOf w oc s) in
  exists t,
    r_title r = Some t /\
    if opt_truthy projectTitle then projectTitle = Some t /\ t <> []
    else
      (exists front e,
         r_entries r = front ++ [e] /\
         List.length (cfg_entry config) = 1 /\
         entry_title e = Some t /\ t <> []) \/
      (exists o rest,
         outputs oc = o :: rest /\ t = Path.basename (output_path o)).
Proof.
  intros H. apply composeProjectConfig_Ok in H. cbv zeta in H |- *.
  destruct H as (parsed & fallback & Hparsed & Hfb & -> & _ &
                 cover_page & toc_page & -> & _).
  apply mapM_length in Hparsed.
  unfold fallbackProjectTitleOf in Hfb.
  destruct (opt_truthy (projectTitleOf config (packageJsonOf w oc s))) eqn:E.
  - destruct (projectTitleOf config (packageJsonOf w oc s)) as [[|c t]|];
      try discriminate E.
    exists (c :: t). split; [reflexivity|]. split; [reflexivity|discriminate].
  - destruct parsed as [|e [|e' l]].
    + destruct (outputs oc) as [|o rest]; [discriminate Hfb|]. inv_ok Hfb.
      eexists. split; [reflexivity|]. right. now exists o, rest.
    + destruct (opt_truthy (entry_title e)) eqn:Et.
      * inv_ok Hfb. destruct (entry_title e) as [[|c t]|] eqn:Ee;
          try discriminate Et.
        exists (c :: t). split; [reflexivity|]. left.
        exists (cover_page ++ toc_page), e.
        split; [now rewrite app_assoc|].
        split; [now rewrite <- Hparsed|].
        split; [exact Ee|discriminate].
      * destruct (outputs oc) as [|o rest]; [discriminate Hfb|]. inv_ok Hfb.
        eexists. split; [reflexivity|]. right. now exists o, rest.
    + destruct (outputs oc) as [|o rest]; [discriminate Hfb|]. inv_ok Hfb.
      eexists. split; [reflexivity|]. right. now exists o, rest.
Qed.

(** X9: With [output: []] in the project file, no title in it, no package
    name and a number of entries other than one, resolution fails: the
    default output file is named after the title of the project. *)
Theorem empty_outputs_need_a_title (w : World) (config : ParsedBuildTask)
    (options : InlineOptions) (s : State) :
  cfg_output config = Some [] ->
  single_input options = None ->
  opt_truthy (cfg_title config) = false ->
  (forall p, opt_truthy (package_name w p) = false) ->
  List.length (cfg_entry config) <> 1 ->
  exists e s', resolveTaskConfig w config options s = (Err e, s').
Proof.
  intros Hout Hmode Htitle Hpkg Hlen.
  destruct (resolveTaskConfig w config options s) as [[r|e] s'] eqn:E;
    [exfalso|eauto].
  apply resolveTaskConfig_Ok in E.
  destruct E as (oc & s2 & _ & _ & _ & _ & Houts & _ & _ & _ & H).
  rewrite Hmode in H.
  unfold resolveOutputs in Houts. rewrite Hout in Houts. cbn [map] in Houts.
  apply composeProjectConfig_Ok in H. cbv zeta in H.
  destruct H as (parsed & fallback & Hparsed & Hfb & _).
  apply mapM_length in Hparsed.
  assert (Hpt : opt_truthy (projectTitleOf config (packageJsonOf w oc s2))
                = false).
  { unfold projectTitleOf, nullish.
    destruct (cfg_title config) as [t|]; [exact Htitle|].
    unfold packageJsonOf.
    destruct (present w s2 _); [|reflexivity].
    apply Hpkg. }
  unfold fallbackProjectTitleOf in Hfb. rewrite Hpt, Houts in Hfb.
  destruct parsed as [|e [|e' l]]; try discriminate Hfb.
  cbn in Hparsed. congruence.
Qed.

Lemma empty_outputs_need_a_title_witness :
  exists e s',
    resolveTaskConfig (Demo.world (lit "/proj") [])
      (Demo.config_with None (Some []) []) Demo.no_options initial_state =
    (Err e, s').
Proof.
  apply (empty_outputs_need_a_title (Demo.world (lit "/proj") [])
           (Demo.config_with None (Some []) []) Demo.no_options
           initial_state);
    first [ reflexivity | discriminate ].
Defined.

Lemma project_plan_has_a_title_witness :
  exists r s',
    composeProjectConfig (Demo.world (lit "/proj") [])
      (Demo.common (lit "/proj/ws"))
      (Demo.config_with (Some (lit "Book")) None []) initial_state =
    (Ok r, s') /\
    r_title r = Some (lit "Book").
Proof.
  do 2 eexists. split; [vm_compute; reflexivity|].
  destruct (project_plan_has_a_title (Demo.world (lit "/proj") [])
              (Demo.common (lit "/proj/ws"))
              (Demo.config_with (Some (lit "Book")) None []) initial_state
              _ _ eq_refl) as (t & Ht & Hsrc).
  vm_compute in Hsrc. destruct Hsrc as [E _]. injection E as <-.
  exact Ht.
Defined.

(** ** Single-input mode, other than Markdown *)

Section SingleInputFormats.

Variable w : World.
Variable oc : CommonOpts.
Variable config : ParsedBuildTask.

(** A successful run of [composeSingleInputConfig] on an input that is not
    Markdown. *)
Lemma composeSingleInputConfig_other (input : InputOption) (s s' : State)
    (r : ResolvedTaskConfig) :
  in_format input <> FmtMarkdown ->
  composeSingleInputConfig w oc config input s = (Ok r, s') ->
  exists sourcePath,
    (if negb (isValidUri w (in_entry input))
     then sourcePath = in_entry input
     else sourcePath = resolve w [entryContextDir oc; in_entry input] /\
          present w s sourcePath = true) /\
    s' = fresh_aliases s /\
    r_entries r = [] /\
    r_exportAliases r = [] /\
    r_input_entry r = sourcePath /\
    r_input_format r = in_format input /\
    r_title r =
      (if opt_truthy (cfg_title config) then cfg_title config else None) /\
    match in_format input with
    | FmtMarkdown => False
    | FmtWebbook =>
        exists url,
          (if isValidUri w sourcePath then new_URL w sourcePath = Some url
           else url = pathToFileURL w sourcePath) /\
          r_viewerInput r =
            WebBookEntryConfig
              (url_href w
                 (if is_http_i (url_protocol url) &&
                     negb (endsWith (lit "/") (url_pathname url)) &&
                     negb (ends_html (url_pathname url))
                  then {| url_protocol := url_protocol url;
                          url_host := url_host url;
                          url_pathname := url_pathname url ++ lit "/" |}
                  else url))
    | FmtPubManifest =>
        r_viewerInput r = WebPublicationManifestConfig sourcePath false
    | FmtEpubOpf => r_viewerInput r = EpubOpfEntryConfig sourcePath
    | FmtEpub =>
        r_viewerInput r =
          EpubEntryConfig sourcePath
            (Path.join [sourcePath;
                        lit "../" ++ temporaryFilePrefix oc ++
                        Path.basename sourcePath])
    end.
Proof.
  intros Hfmt H. unfold composeSingleInputConfig in H.
  bind_inv H u s1 Hal.
  unfold new_exportAliases in Hal. injection Hal as _ <-.
  bind_inv H sourcePath s2 Hsrc.
  exists sourcePath.
  assert (Hs : (if negb (isValidUri w (in_entry input))
                then sourcePath = in_entry input
                else sourcePath = resolve w [entryContextDir oc; in_entry input]
                     /\ present w s sourcePath = true) /\
               s2 = fresh_aliases s).
  { destruct (negb (isValidUri w (in_entry input))).
    - apply ret_Ok in Hsrc. destruct Hsrc as [<- <-]. split; reflexivity.
    - bind_inv Hsrc u0 s3 Hst. apply (statFileSync_Ok w) in Hst.
      destruct Hst as [-> Hp]. apply ret_Ok in Hsrc.
      destruct Hsrc as [<- <-]. repeat split. exact Hp. }
  destruct Hs as [Hs ->]. split; [exact Hs|]. clear Hs Hsrc.
  bind_inv H entries s3 Hent.
  assert (He : entries = [] /\ s3 = fresh_aliases s).
  { destruct (in_format input); [congruence|..];
      apply ret_Ok in Hent; destruct Hent as [<- <-]; split; reflexivity. }
  destruct He as [-> ->]. clear Hent.
  bind_inv H vi s4 Hvi.
  destruct vi as [fallbackTitle viewerInput].
  bind_inv H aliases s5 Hals. injection Hals as <- <-.
  apply ret_Ok in H. destruct H as [<- <-].
  cbn [r_entries r_exportAliases r_input_entry r_input_format r_title
       r_viewerInput].
  destruct (in_format input); [congruence|..].
  - bind_inv Hvi url s6 Hurl. apply ret_Ok in Hvi.
    destruct Hvi as [Hvi <-]. injection Hvi as <- <-.
    assert (Hu : (if isValidUri w sourcePath
                  then new_URL w sourcePath = Some url
                  else url = pathToFileURL w sourcePath) /\
                 s6 = fresh_aliases s).
    { destruct (isValidUri w sourcePath).
      - destruct (new_URL w sourcePath); [|discriminate Hurl].
        apply ret_Ok in Hurl. destruct Hurl as [<- <-]. split; reflexivity.
      - apply ret_Ok in Hurl. destruct Hurl as [<- <-]. split; reflexivity. }
    destruct Hu as [Hu ->].
    repeat split. exists url. split; [exact Hu|reflexivity].
  - apply ret_Ok in Hvi. destruct Hvi as [Hvi <-]. injection Hvi as <- <-.
    repeat split.
  - apply ret_Ok in Hvi. destruct Hvi as [Hvi <-]. injection Hvi as <- <-.
    repeat split.
  - apply ret_Ok in Hvi. destruct Hvi as [Hvi <-]. injection Hvi as <- <-.
    repeat split.
Qed.

End SingleInputFormats.

(** X10: A single input that is not Markdown yields a plan without entries
    and without aliases; no file is touched, the theme index and the
    warnings stay as they were, and the title is the configured one. *)
Theorem other_formats_stage_nothing (w : World) (oc : CommonOpts)
    (config : ParsedBuildTask) (input : InputOption) (s s' : State)
    (r : ResolvedTaskConfig) :
  in_format input <> FmtMarkdown ->
  composeSingleInputConfig w oc config input s = (Ok r, s') ->
  r_entries r = [] /\
  r_exportAliases r = [] /\
  touched s' = touched s /\
  themeIndexes s' = themeIndexes s /\
  warnings s' = warnings s /\
  r_title r = (if opt_truthy (cfg_title config) then cfg_title config
               else None).
Proof.
  intros Hfmt H.
  destruct (composeSingleInputConfig_other w oc config input s s' r Hfmt H)
    as (sp & _ & -> & He & Ha & _ & _ & Ht & _).
  repeat split; assumption.
Qed.

Lemma other_formats_stage_nothing_witness :
  let w := Demo.world (lit "/proj") [] in
  let input := {| in_format := FmtPubManifest;
                  in_entry := lit "/proj/publication.json" |} in
  exists r s',
    composeSingleInputConfig w (Demo.common (lit "/proj/ws"))
      Demo.empty_config input initial_state = (Ok r, s') /\
    r_entries r = [] /\
    r_exportAliases r = [] /\
    touched s' = touched initial_state /\
    themeIndexes s' = themeIndexes initial_state /\
    warnings s' = warnings initial_state /\
    r_title r = None.
Proof.
  cbv zeta. do 2 eexists. split; [vm_compute; reflexivity|].
  apply (other_formats_stage_nothing (Demo.world (lit "/proj") [])
           (Demo.common (lit "/proj/ws")) Demo.empty_config
           {| in_format := FmtPubManifest;
              in_entry := lit "/proj/publication.json" |} initial_state).
  - discriminate.
  - vm_compute. reflexivity.
Defined.

Section Sibling.
Import Path PathSpec PathFacts PathFacts2.

Lemma toUnix_dotdot_child (sib : str) :
  Forall plain sib -> toUnix (lit "../" ++ sib) = lit "../" ++ sib.
Proof.
  intros H. unfold toUnix.
  assert (Hb : Forall (fun c => is_backslash c = false) (lit "../" ++ sib)).
  { apply Forall_app. split; [repeat constructor|].
    eapply Forall_impl; [|exact H]. now intros c [_ ?]. }
  rewrite (map_unbackslash_id _ Hb).
  cbn [lit list_ascii_of_string app]. f_equal.
  cbn [collapse].
  change (is_slash "."%char) with false.
  change (is_slash "/"%char) with true. cbv iota.
  f_equal. f_equal.
  destruct sib as [|c sib]; [reflexivity|].
  inversion H as [|? ? [Hc _] Hs]; subst.
  cbn [collapse]. rewrite Hc. f_equal. now apply collapse_plain.
Qed.

Lemma join_sibling (dir : list str) (name sib : str) :
  Forall clean dir -> clean name -> clean sib ->
  join [abs_path (dir ++ [name]); lit "../" ++ sib] = abs_path (dir ++ [sib]).
Proof.
  intros Hdir Hname Hsib.
  assert (Hall : Forall clean (dir ++ [name]))
    by (apply Forall_app; split; [exact Hdir|now constructor]).
  assert (Hres : Forall clean (dir ++ [sib]))
    by (apply Forall_app; split; [exact Hdir|now constructor]).
  assert (Hps : Forall plain sib) by now destruct Hsib as (_ & ? & _).
  unfold join. cbn [map].
  rewrite (toUnix_normal_abs _ (abs_path_normal _ Hall)).
  rewrite (toUnix_dotdot_child _ Hps).
  assert (E : posix_join [abs_path (dir ++ [name]); lit "../" ++ sib] =
              abs_path (dir ++ [sib])).
  { unfold posix_join.
    assert (Hf : filter truthy [abs_path (dir ++ [name]); lit "../" ++ sib] =
                 [abs_path (dir ++ [name]); lit "../" ++ sib]) by reflexivity.
    rewrite Hf. cbn [join_segs].
    set (p := abs_path (dir ++ [name]) ++ "/"%char :: lit "../" ++ sib).
    assert (Hp : p = "/"%char :: (join_segs (dir ++ [name]) ++
                        "/"%char :: lit "../" ++ sib)) by reflexivity.
    unfold posix_normalize. rewrite Hp at 1.
    assert (Habs : isAbsolute p = true) by reflexivity.
    rewrite Habs. cbn [negb].
    assert (Hsplit : split p = ([] :: dir ++ [name]) ++ [lit ".."; sib]).
    { subst p. rewrite split_app_slash, (split_abs_path _ Hall).
      change (lit "../" ++ sib) with (lit ".." ++ "/"%char :: sib).
      rewrite split_app_slash.
      rewrite (split_no_slash sib) by (apply clean_no_slash, Hsib).
      destruct (dir ++ [name]) as [|d0 dl] eqn:Ed;
        [now destruct dir|].
      reflexivity. }
    assert (Hnorm : norm_segs false [] (split p) = dir ++ [sib]).
    { rewrite Hsplit. cbn [app]. rewrite norm_segs_skip.
      rewrite norm_segs_clean_prefix by exact Hall.
      rewrite rev_app_distr. cbn [rev app].
      assert (Hnd : is_dotdot name = false)
        by now destruct Hname as (_ & _ & _ & ?).
      cbn [norm_segs lit list_ascii_of_string].
      change (is_dot ["."%char; "."%char]) with false.
      change (is_dotdot ["."%char; "."%char]) with true.
      cbv iota. rewrite Hnd.
      destruct Hsib as (Hs1 & Hs2 & Hs3 & Hs4).
      destruct sib as [|c0 sib0]; [congruence|].
      rewrite Hs3, Hs4, app_nil_r.
      cbn [rev]. now rewrite rev_involutive. }
    unfold normalizeString. rewrite Hnorm.
    assert (Hjn : join_segs (dir ++ [sib]) <> []).
    { destruct dir as [|d dir'].
      - cbn. now destruct Hsib.
      - inversion Hdir; subst. now apply join_nonempty. }
    destruct (join_segs (dir ++ [sib])) as [|c0 r0] eqn:Ej; [congruence|].
    assert (Htr : endsWith (lit "/") p = false).
    { subst p. unfold endsWith. cbn [lit list_ascii_of_string rev].
      rewrite !rev_app_distr. cbn [rev]. rewrite <- !app_assoc.
      assert (Hr : Forall plain (rev sib)) by now apply Forall_rev.
      rewrite rev_app_distr.
      destruct (rev sib) as [|c r] eqn:Er.
      { apply (f_equal (@rev ascii)) in Er. rewrite rev_involutive in Er.
        cbn in Er. destruct Hsib. congruence. }
      inversion Hr as [|? ? [Hc _] ?]; subst.
      cbn [app startsWith]. unfold is_slash in Hc.
      rewrite Ascii.eqb_sym, Hc. reflexivity. }
    rewrite Htr. unfold abs_path. rewrite Ej. reflexivity. }
  rewrite E. apply toUnix_normal_abs, abs_path_normal, Hres.
Qed.

End Sibling.

(** X11: An EPUB given as a local single input is to be unpacked in the
    directory of the archive, under the name of the archive behind the
    temporary-file prefix; the plan has no entry. *)
Theorem epub_is_unpacked_beside_the_archive (w : World) (oc : CommonOpts)
    (config : ParsedBuildTask) (dir : list str) (name : str) (s : State) :
  Forall PathSpec.clean dir ->
  PathSpec.clean name ->
  PathSpec.clean (temporaryFilePrefix oc ++ name) ->
  isValidUri w (PathSpec.abs_path (dir ++ [name])) = false ->
  exists r,
    composeSingleInputConfig w oc config
      {| in_format := FmtEpub;
         in_entry := PathSpec.abs_path (dir ++ [name]) |} s =
    (Ok r, fresh_aliases s) /\
    r_viewerInput r =
      EpubEntryConfig (PathSpec.abs_path (dir ++ [name]))
        (PathSpec.abs_path (dir ++ [temporaryFilePrefix oc ++ name])) /\
    r_entries r = [].
Proof.
  intros Hdir Hname Htmp Huri.
  unfold composeSingleInputConfig. cbn [in_format in_entry].
  unfold bind at 1. unfold new_exportAliases.
  rewrite Huri. cbn [negb]. unfold bind, ret.
  eexists. split; [reflexivity|].
  cbn [r_viewerInput r_entries]. split; [|reflexivity].
  rewrite (PathFacts.basename_child _ _ Hdir Hname).
  f_equal. rewrite app_assoc.
  change (lit "../" ++ temporaryFilePrefix oc ++ name)
    with (lit "../" ++ (temporaryFilePrefix oc ++ name)).
  rewrite <- app_assoc.
  exact (join_sibling dir name _ Hdir Hname Htmp).
Qed.

Lemma epub_is_unpacked_beside_the_archive_witness :
  exists r,
    composeSingleInputConfig (Demo.world (lit "/proj") [])
      (Demo.common (lit "/proj/ws")) Demo.empty_config
      {| in_format := FmtEpub; in_entry := lit "/books/moby.epub" |}
      initial_state = (Ok r, fresh_aliases initial_state) /\
    r_viewerInput r =
      EpubEntryConfig (lit "/books/moby.epub")
        (lit "/books/.vs-1.moby.epub") /\
    r_entries r = [].
Proof.
  apply (epub_is_unpacked_beside_the_archive (Demo.world (lit "/proj") [])
           (Demo.common (lit "/proj/ws")) Demo.empty_config
           [lit "books"] (lit "moby.epub") initial_state);
    first [ reflexivity | solve_segments ].
Defined.

(** ** Sources and targets of project entries *)

Section EntryPaths.
Import PathSpec PathFacts PathFacts2.

Variable w : World.
Variable oc : CommonOpts.

Lemma endsWith_md_html (x : str) :
  endsWith (lit ".md") (x ++ lit ".html") = false.
Proof. unfold endsWith. rewrite rev_app_distr. reflexivity. Qed.

Lemma replace_suffix_html (x : str) :
  replace_suffix (lit ".md") (lit ".html") (x ++ lit ".html") =
  x ++ lit ".html".
Proof. unfold replace_suffix. now rewrite endsWith_md_html. Qed.

(** X12: The manuscripts [sub/x.md] and [sub/x.html] of the entry context
    directory have the same target, [sub/x.html] below the workspace
    directory. *)
Theorem markdown_and_html_share_a_target (ecd wsd sub : list str)
    (stem : str) (ct ct' : ManuscriptMediaType) (s : State) :
  entryContextDir oc = abs_path ecd ->
  workspaceDir oc = abs_path wsd ->
  Forall clean ecd -> Forall clean wsd -> Forall clean sub ->
  clean (stem ++ lit ".md") -> clean (stem ++ lit ".html") ->
  getTargetPath w oc
    (FileEntrySource (abs_path (ecd ++ sub ++ [stem ++ lit ".md"])) ct) s =
  (Ok (abs_path (wsd ++ sub ++ [stem ++ lit ".html"])), s) /\
  getTargetPath w oc
    (FileEntrySource (abs_path (ecd ++ sub ++ [stem ++ lit ".html"])) ct') s =
  (Ok (abs_path (wsd ++ sub ++ [stem ++ lit ".html"])), s).
Proof.
  intros Hecd Hwsd Hce Hcw Hcs Hmd Hhtml.
  assert (Hne : forall n : str, sub ++ [n] <> []) by (intro; now destruct sub).
  assert (Hrel : forall n, clean n -> Forall clean (sub ++ [n]))
    by (intros n Hn; apply Forall_app; split; [exact Hcs|now constructor]).
  unfold getTargetPath, resolve, relative, ret.
  rewrite Hecd, Hwsd. split; do 2 f_equal.
  - rewrite (relative_below _ ecd (sub ++ [stem ++ lit ".md"]) Hce
               (Hrel _ Hmd)).
    rewrite join_app_last, replace_suffix_app, <- join_app_last.
    apply (resolve_rel _ wsd (sub ++ [stem ++ lit ".html"]) Hcw
             (Hrel _ Hhtml) (Hne _)).
  - rewrite (relative_below _ ecd (sub ++ [stem ++ lit ".html"]) Hce
               (Hrel _ Hhtml)).
    rewrite join_app_last, replace_suffix_html, <- join_app_last.
    apply (resolve_rel _ wsd (sub ++ [stem ++ lit ".html"]) Hcw
             (Hrel _ Hhtml) (Hne _)).
Qed.

Lemma truthy_localOrigin : truthy (localOriginOf oc) = true.
Proof. reflexivity. Qed.

(** X13: An entry path that begins with [/] is taken as a URL on the local
    origin, rooted at [.local] below the workspace directory; no file is
    looked up and no metadata is read. *)
Theorem absolute_entry_path_is_a_local_url (entry : EntryObject) (p : str)
    (s : State) :
  startsWith (lit "/") p = true ->
  getInputInfo w oc (localOriginOf oc) entry p s =
  (Ok (UriEntrySource (localOriginOf oc ++ p)
         (Path.join [workspaceDir oc; lit ".local"]), None), s).
Proof.
  intros Hp. unfold getInputInfo.
  destruct p as [|c p]; [discriminate Hp|].
  cbn [lit list_ascii_of_string startsWith] in Hp.
  apply andb_true_iff in Hp. destruct Hp as [Hc _].
  apply Ascii.eqb_eq in Hc. subst c.
  change (is_http ("/"%char :: p)) with false. cbv iota.
  change (startsWith (lit "/") ("/"%char :: p)) with true. cbv iota.
  rewrite truthy_localOrigin. reflexivity.
Qed.

Variable toc : TocDefaults.
Variable pt : option str.
Variable lo : str.

(** X14: A manuscript entry whose path is neither a URL nor rooted and
    whose file is absent makes [parseEntry] fail on the resolved path,
    before anything is changed. *)
Theorem missing_manuscript_is_an_error (entry : EntryObject) (p : str)
    (s : State) :
  isArticleEntry entry = true ->
  e_path entry = Some p ->
  is_http p = false ->
  startsWith (lit "/") p = false ->
  present w s (resolve w [entryContextDir oc; p]) = false ->
  parseEntry w oc lo toc pt entry s =
  (Err (MissingFile (resolve w [entryContextDir oc; p]) None), s).
Proof.
  intros Hart Hp Hh Hsl Hex.
  rewrite (parseEntry_article w oc lo toc pt _ _ Hart).
  unfold parseArticleEntry. rewrite Hp.
  unfold bind at 1. unfold getInputInfo. rewrite Hh, Hsl.
  unfold bind at 1. now rewrite (statFileSync_absent w _ _ _ Hex).
Qed.

End EntryPaths.

Lemma markdown_and_html_share_a_target_witness :
  let w := Demo.world (lit "/proj") [] in
  let oc := Demo.common (lit "/proj/ws") in
  getTargetPath w oc
    (FileEntrySource (lit "/proj/doc/ch1.md") TextMarkdown) initial_state =
  (Ok (lit "/proj/ws/doc/ch1.html"), initial_state) /\
  getTargetPath w oc
    (FileEntrySource (lit "/proj/doc/ch1.html") TextHtml) initial_state =
  (Ok (lit "/proj/ws/doc/ch1.html"), initial_state).
Proof.
  apply (markdown_and_html_share_a_target (Demo.world (lit "/proj") [])
           (Demo.common (lit "/proj/ws")) [lit "proj"] [lit "proj"; lit "ws"]
           [lit "doc"] (lit "ch1") TextMarkdown TextHtml initial_state);
    first [ reflexivity | solve_segments ].
Defined.

Lemma absolute_entry_path_is_a_local_url_witness :
  let w := Demo.world (lit "/proj") [lit "/proj/a.md"] in
  let oc := Demo.common (lit "/proj/ws") in
  file_exists w (lit "/proj/a.md") = true /\
  getInputInfo w oc (localOriginOf oc) (Demo.entry_at None None)
    (lit "/proj/a.md") initial_state =
  (Ok (UriEntrySource (lit "http://localhost:13000/proj/a.md")
         (lit "/proj/ws/.local"), None), initial_state).
Proof.
  split; [reflexivity|].
  apply (absolute_entry_path_is_a_local_url
           (Demo.world (lit "/proj") [lit "/proj/a.md"])
           (Demo.common (lit "/proj/ws")) (Demo.entry_at None None)
           (lit "/proj/a.md") initial_state).
  reflexivity.
Defined.

Lemma missing_manuscript_is_an_error_witness :
  parseEntry (Demo.world (lit "/proj") []) (Demo.common (lit "/proj/ws"))
    Demo.local_origin (Demo.toc_defaults (lit "/proj/ws")) None
    (Demo.entry_at None (Some (lit "missing.md"))) initial_state =
  (Err (MissingFile (lit "/proj/missing.md") None), initial_state).
Proof.
  apply (missing_manuscript_is_an_error (Demo.world (lit "/proj") [])
           (Demo.common (lit "/proj/ws"))
           (Demo.toc_defaults (lit "/proj/ws")) None Demo.local_origin
           (Demo.entry_at None (Some (lit "missing.md")))
           (lit "missing.md") initial_state);
    reflexivity.
Defined.

(** ** Absolute paths *)

Module AbsoluteFacts.
Import Path.

Lemma toUnix_isAbsolute (p : str) :
  isAbsolute p = true -> isAbsolute (toUnix p) = true.
Proof.
  destruct p as [|c p]; [discriminate|]. cbn [isAbsolute]. intros H.
  unfold toUnix. cbn [map isAbsolute]. unfold unbackslash.
  destruct (is_backslash c); [reflexivity|exact H].
Qed.

Lemma gather_absolute_first (a : str) (rest : list str) :
  isAbsolute a = true -> snd (gather (a :: rest)) = true.
Proof.
  intros H. cbn [gather]. destruct (gather rest) as [r [|]]; [reflexivity|].
  destruct a; [discriminate H|exact H].
Qed.

Lemma resolve_isAbsolute (cwd0 : str) (args : list str) :
  isAbsolute cwd0 = true -> isAbsolute (resolve cwd0 args) = true.
Proof.
  intros H. unfold resolve. apply toUnix_isAbsolute.
  unfold posix_resolve.
  pose proof (gather_absolute_first cwd0 (map toUnix args) H) as G.
  destruct (gather (cwd0 :: map toUnix args)) as [r abs].
  cbn [snd] in G. subst abs. reflexivity.
Qed.

Lemma join_segs_head (x : str) (rest : list str) :
  isAbsolute x = true -> isAbsolute (join_segs (x :: rest)) = true.
Proof.
  destruct x as [|c x]; [discriminate|]. intros H.
  destruct rest; exact H.
Qed.

Lemma posix_normalize_isAbsolute (p : str) :
  isAbsolute p = true -> isAbsolute (posix_normalize p) = true.
Proof.
  intros H. unfold posix_normalize.
  destruct p as [|c p]; [discriminate H|].
  rewrite H. cbn [negb].
  destruct (normalizeString false (c :: p)); reflexivity.
Qed.

Lemma join_isAbsolute (a : str) (rest : list str) :
  isAbsolute a = true -> isAbsolute (join (a :: rest)) = true.
Proof.
  intros H. unfold join. apply toUnix_isAbsolute.
  apply toUnix_isAbsolute in H.
  unfold posix_join. cbn [map filter].
  destruct (toUnix a) as [|c a'] eqn:E; [discriminate H|].
  cbn [truthy]. apply posix_normalize_isAbsolute.
  now apply join_segs_head.
Qed.

Lemma replace_md_isAbsolute (p : str) :
  isAbsolute p = true ->
  isAbsolute (replace_suffix (lit ".md") (lit ".html") p) = true.
Proof.
  intros H. unfold replace_suffix.
  destruct (endsWith (lit ".md") p) eqn:E; [|exact H].
  destruct p as [|c p]; [discriminate H|].
  cbn [isAbsolute] in H. unfold is_slash in H.
  apply Ascii.eqb_eq in H. subst c.
  destruct p as [|a [|b [|c p']]].
  - discriminate E.
  - unfold endsWith in E. cbn [rev app lit list_ascii_of_string] in E.
    cbn [startsWith] in E.
    change (Ascii.eqb "m" "/") with false in E.
    rewrite andb_false_r in E. discriminate E.
  - unfold endsWith in E. cbn [rev app lit list_ascii_of_string] in E.
    cbn [startsWith] in E.
    change (Ascii.eqb "." "/") with false in E.
    cbn [andb] in E. rewrite !andb_false_r in E. discriminate E.
  - reflexivity.
Qed.

End AbsoluteFacts.

Section AbsoluteTargets.
Import AbsoluteFacts.

Variable w : World.
Hypothesis Hcwd : Path.isAbsolute (cwd w) = true.

Lemma resolve_abs (args : list str) :
  Path.isAbsolute (resolve w args) = true.
Proof. apply resolve_isAbsolute, Hcwd. Qed.

Variable oc : CommonOpts.
Hypothesis Hws : Path.isAbsolute (workspaceDir oc) = true.
Variable lo : str.
Variable toc : TocDefaults.
Hypothesis Htoc : Path.isAbsolute (td_target toc) = true.
Variable pt : option str.

Lemma getInputInfo_rooted (entry : EntryObject) (p : str) (s s' : State)
    (source : EntrySource) (m : option FileMetadata) :
  getInputInfo w oc lo entry p s = (Ok (source, m), s') -> rooted source.
Proof.
  unfold getInputInfo. intros H.
  destruct (is_http p).
  - destruct (new_URL w p); [|discriminate H].
    apply ret_Ok in H. destruct H as [H _]. injection H as <- _.
    apply join_isAbsolute, Hws.
  - destruct (startsWith (lit "/") p).
    + apply ret_Ok in H. destruct H as [H _]. injection H as <- _.
      apply join_isAbsolute, Hws.
    + bind_inv H u s1 Hst.
      destruct (isManuscriptMediaType _); [|discriminate H].
      bind_inv H md s2 Hmd. apply ret_Ok in H. destruct H as [H _].
      injection H as <- _. exact I.
Qed.

Lemma getTargetPath_abs (source : EntrySource) (s s' : State) (t : str) :
  rooted source ->
  getTargetPath w oc source s = (Ok t, s') -> Path.isAbsolute t = true.
Proof.
  unfold getTargetPath. intros Hr H. destruct source as [pathname ct|href root].
  - apply ret_Ok in H. destruct H as [<- _]. apply resolve_abs.
  - destruct (new_URL_dummy w href); [|discriminate H].
    apply ret_Ok in H. destruct H as [<- _].
    apply join_isAbsolute, Hr.
Qed.

Lemma optionalInputInfo_rooted (entry : EntryObject) (s s' : State)
    (source : EntrySource) (m : option FileMetadata) :
  optionalInputInfo w oc lo entry s = (Ok (Some (source, m)), s') ->
  rooted source.
Proof.
  unfold optionalInputInfo. intros H.
  destruct (e_path entry) as [[|c p]|]; try (inv_ok H; discriminate).
  bind_inv H i s1 Hi. apply ret_Ok in H. destruct H as [H _].
  injection H as ->. eapply getInputInfo_rooted; eassumption.
Qed.

Lemma declaredTarget_abs (entry : EntryObject)
    (i : option (EntrySource * option FileMetadata)) (s s' : State)
    (t : str) :
  match i with Some (source, _) => rooted source | None => True end ->
  declaredTarget w oc entry i s = (Ok (Some t), s') ->
  Path.isAbsolute t = true.
Proof.
  unfold declaredTarget. intros Hr H.
  assert (G : match i with
              | Some (source, _) =>
                  (x <- getTargetPath w oc source ;; ret (Some x))%monad
              | None => ret None
              end s = (Ok (Some t), s') -> Path.isAbsolute t = true).
  { destruct i as [[source m]|]; [|intros G; inv_ok G; discriminate].
    intros G. bind_inv G x s1 Hx. apply ret_Ok in G. destruct G as [G _].
    injection G as <-. eapply getTargetPath_abs; eassumption. }
  destruct (e_output entry) as [[|c o]|]; try (exact (G H)).
  apply ret_Ok in H. destruct H as [H _]. injection H as <-.
  apply resolve_abs.
Qed.

Lemma stageIfSame_abs (i : option (EntrySource * option FileMetadata))
    (target t : str) (s s' : State) :
  Path.isAbsolute target = true ->
  stageIfSame w oc i target s = (Ok t, s') -> Path.isAbsolute t = true.
Proof.
  unfold stageIfSame. intros Ht H.
  destruct i as [[[pathname ct|href root] m]|];
    try (apply ret_Ok in H; destruct H as [<- _]; exact Ht).
  destruct (pathEquals w pathname target);
    [|apply ret_Ok in H; destruct H as [<- _]; exact Ht].
  unfold bind, push_alias, touchTmpFile, ret in H.
  injection H as <- _. apply resolve_abs.
Qed.

Lemma parseEntry_target_abs (entry : EntryObject) (s s' : State)
    (pe : ParsedEntry) :
  parseEntry w oc lo toc pt entry s = (Ok pe, s') ->
  Path.isAbsolute (entry_target pe) = true.
Proof.
  unfold parseEntry. intros H.
  bind_inv H entry' s1 Hfb. clear Hfb.
  destruct (isContentsEntry entry'); [|destruct (isCoverEntry entry')].
  - unfold parseContentsEntry in H.
    bind_inv H i s2 Hi. bind_inv H t s3 Ht. bind_inv H th s4 Hth.
    bind_inv H u s5 Hadd. bind_inv H t' s6 Hst.
    apply ret_Ok in H. destruct H as [<- _]. cbn [entry_target c_target].
    eapply stageIfSame_abs; [|exact Hst].
    destruct t as [t|]; [|exact Htoc].
    eapply declaredTarget_abs; [|exact Ht].
    destruct i as [[source m]|]; [|exact I].
    eapply optionalInputInfo_rooted; eassumption.
  - unfold parseCoverEntry in H.
    bind_inv H inputs s2 Hin. destruct inputs as [[i t] th].
    unfold coverInputs in Hin.
    bind_inv Hin i0 s3 Hi. bind_inv Hin t0 s4 Ht. bind_inv Hin th0 s5 Hth.
    bind_inv Hin u s6 Hadd. apply ret_Ok in Hin. destruct Hin as [Hin _].
    injection Hin as <- <- <-.
    bind_inv H img s7 Himg.
    destruct img as [[|c src]|]; try discriminate H.
    bind_inv H t' s8 Hst.
    apply ret_Ok in H. destruct H as [<- _]. cbn [entry_target v_target].
    eapply stageIfSame_abs; [|exact Hst].
    destruct t0 as [t|]; [|apply resolve_abs].
    eapply declaredTarget_abs; [|exact Ht].
    destruct i0 as [[source m]|]; [|exact I].
    eapply optionalInputInfo_rooted; eassumption.
  - unfold parseArticleEntry in H.
    destruct (e_path entry') as [p|]; [|discriminate H].
    bind_inv H info s2 Hinfo. destruct info as [source metadata].
    bind_inv H t s3 Ht. bind_inv H th s4 Hth. bind_inv H u s5 Hadd.
    apply ret_Ok in H. destruct H as [<- _]. cbn [entry_target m_target].
    apply getInputInfo_rooted in Hinfo.
    destruct (e_output entry') as [[|c o]|];
      try (eapply getTargetPath_abs; eassumption).
    apply ret_Ok in Ht. destruct Ht as [<- _]. apply resolve_abs.
Qed.

Lemma mapM_parseEntry_target_abs (l : list EntryObject) (s s' : State)
    (pes : list ParsedEntry) :
  mapM (parseEntry w oc lo toc pt) l s = (Ok pes, s') ->
  Forall (fun pe => Path.isAbsolute (entry_target pe) = true) pes.
Proof.
  revert s pes. induction l as [|e l IH]; intros s pes H; cbn [mapM] in H.
  - inv_ok H. constructor.
  - bind_inv H pe s1 Hpe. bind_inv H rest s2 Hrest.
    apply ret_Ok in H. destruct H as [<- <-]. constructor.
    + eapply parseEntry_target_abs; eassumption.
    + eapply IH; eassumption.
Qed.

End AbsoluteTargets.

(** X15: When the working directory of the process is absolute, so are the
    workspace directory, the themes directory, the path of every output
    and the target of every entry of a resolved plan. *)
Theorem plan_paths_are_absolute (w : World) (config : ParsedBuildTask)
    (options : InlineOptions) (s s' : State) (r : ResolvedTaskConfig) :
  Path.isAbsolute (cwd w) = true ->
  resolveTaskConfig w config options s = (Ok r, s') ->
  Path.isAbsolute (workspaceDir (r_common r)) = true /\
  Path.isAbsolute (themesDir (r_common r)) = true /\
  Forall (fun o => Path.isAbsolute (output_path o) = true)
    (outputs (r_common r)) /\
  Forall (fun e => Path.isAbsolute (entry_target e) = true) (r_entries r).
Proof.
  intros Hcwd H. apply resolveTaskConfig_Ok in H.
  destruct H as (oc & s2 & _ & Hws & Htd & _ & Hout & _ & _ & Hcov & H).
  assert (Aws : Path.isAbsolute (workspaceDir oc) = true)
    by (rewrite Hws; now apply resolve_abs).
  assert (Atd : Path.isAbsolute (themesDir oc) = true)
    by (rewrite Htd; now apply resolve_abs).
  assert (Aout : Forall (fun o => Path.isAbsolute (output_path o) = true)
                   (outputs oc)).
  { rewrite Hout. unfold resolveOutputs.
    destruct (cfg_output config) as [targets|].
    - apply Forall_map, Forall_forall. intros t _.
      unfold resolveOutput.
      destruct (t_format t); cbn [output_path]; now apply resolve_abs.
    - constructor; [|constructor]. cbn [output_path]. now apply resolve_abs. }
  destruct (single_input options) as [input|].
  - pose proof (composeSingleInputConfig_common _ _ _ _ _ _ _ H) as ->.
    repeat split; try assumption.
    unfold composeSingleInputConfig in H.
    bind_inv H u s3 Hal. bind_inv H sourcePath s4 Hsrc.
    bind_inv H entries s5 Hent. bind_inv H vi s6 Hvi.
    destruct vi as [fallbackTitle viewerInput].
    bind_inv H aliases s7 Hals.
    apply ret_Ok in H. destruct H as [<- _]. cbn [r_entries].
    destruct (in_format input);
      try (apply ret_Ok in Hent; destruct Hent as [<- _]; constructor).
    bind_inv Hent md s8 Hmd. bind_inv Hent u1 s9 Ht.
    bind_inv Hent u2 s10 Ha. bind_inv Hent u3 s11 Hp.
    apply ret_Ok in Hent. destruct Hent as [<- _].
    constructor; [|constructor]. cbn [entry_target m_target].
    apply AbsoluteFacts.replace_md_isAbsolute. now apply resolve_abs.
  - pose proof (composeProjectConfig_common _ _ _ _ _ _ H) as ->.
    repeat split; try assumption.
    apply composeProjectConfig_Ok in H. cbv zeta in H.
    destruct H as (parsed & fallback & Hparsed & _ & _ & _ &
                   cover_page & toc_page & -> & Htoc & Hcover).
    apply Forall_app. split; [|apply Forall_app; split].
    + destruct (cover oc) as [c|]; [|subst; constructor].
      destruct (rc_htmlPath c) as [[|ch hp]|] eqn:Eh;
        try (subst; constructor).
      destruct (existsb is_cover (toc_page ++ parsed));
        [subst; constructor|].
      destruct Hcover as (img & cv & _ & -> & Hcv & _).
      constructor; [|constructor]. cbn [entry_target]. rewrite Hcv.
      destruct (Hcov c _ eq_refl Eh) as [p ->]. now apply resolve_abs.
    + subst toc_page. destruct (cfg_toc config); [|constructor].
      destruct (existsb is_contents parsed); [constructor|].
      constructor; [|constructor].
      cbn [generated_toc entry_target c_target tocConfigOf td_target].
      now apply resolve_abs.
    + eapply (mapM_parseEntry_target_abs w Hcwd oc Aws); [|exact Hparsed].
      cbn [tocConfigOf td_target]. now apply resolve_abs.
Qed.

Lemma plan_paths_are_absolute_witness :
  let w := Demo.world (lit "/proj") [lit "/proj/a.md"] in
  let config :=
    Demo.config_with (Some (lit "Book")) None
      [Demo.entry_at None (Some (lit "a.md"))] in
  exists r s',
    Path.isAbsolute (cwd w) = true /\
    resolveTaskConfig w config Demo.no_options initial_state = (Ok r, s') /\
    Path.isAbsolute (workspaceDir (r_common r)) = true /\
    Path.isAbsolute (themesDir (r_common r)) = true /\
    Forall (fun o => Path.isAbsolute (output_path o) = true)
      (outputs (r_common r)) /\
    Forall (fun e => Path.isAbsolute (entry_target e) = true) (r_entries r).
Proof.
  cbv zeta. do 2 eexists.
  split; [reflexivity|]. split; [vm_compute; reflexivity|].
  eapply (plan_paths_are_absolute
            (Demo.world (lit "/proj") [lit "/proj/a.md"])
           (Demo.config_with (Some (lit "Book")) None
              [Demo.entry_at None (Some (lit "a.md"))])
           Demo.no_options initial_state).
  - reflexivity.
  - vm_compute. reflexivity.
Defined.

(** ** Aliases and their placeholders *)

Section AliasPlaceholders.

Variable w : World.

Lemma same_staging_touched (s s' : State) :
  same_staging s s' -> aliases_touched s -> aliases_touched s'.
Proof. unfold aliases_touched. intros [-> ->] H. exact H. Qed.

Lemma staged_touched (s : State) (source target : str) :
  aliases_touched s ->
  aliases_touched
    {| next_ref := next_ref s;
       themeIndexes := themeIndexes s;
       exportAliases :=
         exportAliases s ++
         [{| alias_source := source; alias_target := target |}];
       touched := touched s ++ [source];
       warnings := warnings s |}.
Proof.
  unfold aliases_touched. cbn [exportAliases touched]. intros H.
  apply Forall_app. split.
  - eapply Forall_impl; [|exact H]. intros a Ha.
    apply in_or_app. now left.
  - constructor; [|constructor]. cbn [alias_source].
    apply in_or_app. right. now left.
Qed.

Variable oc : CommonOpts.
Variable lo : str.
Variable toc : TocDefaults.
Variable pt : option str.

Lemma getInputInfo_same_staging (entry : EntryObject) (p : str)
    (s s' : State) (i : EntrySource * option FileMetadata) :
  getInputInfo w oc lo entry p s = (Ok i, s') -> same_staging s s'.
Proof.
  unfold getInputInfo. intros H.
  destruct (is_http p).
  - destruct (new_URL w p); [|discriminate]. inv_ok H.
    apply same_staging_refl.
  - destruct (startsWith (lit "/") p);
      [inv_ok H; apply same_staging_refl|].
    bind_inv H u s1 Hst. apply (statFileSync_Ok w) in Hst.
    destruct Hst as [-> _].
    destruct (isManuscriptMediaType _); [|discriminate].
    bind_inv H md s2 Hmd. apply ret_Ok in H. destruct H as [_ <-].
    eapply parseFileMetadata_same_staging; eassumption.
Qed.

Lemma optionalInputInfo_same_staging (entry : EntryObject) (s s' : State)
    (i : option (EntrySource * option FileMetadata)) :
  optionalInputInfo w oc lo entry s = (Ok i, s') -> same_staging s s'.
Proof.
  unfold optionalInputInfo. intros H.
  destruct (e_path entry) as [[|c p]|];
    try (inv_ok H; apply same_staging_refl).
  bind_inv H i0 s1 Hi. apply ret_Ok in H. destruct H as [_ <-].
  eapply getInputInfo_same_staging; eassumption.
Qed.

Lemma pathFallback_same_staging (entry entry' : EntryObject)
    (s s' : State) :
  pathFallback w oc entry s = (Ok entry', s') -> same_staging s s'.
Proof.
  intros H.
  destruct (pathFallback_cases w oc entry s) as [E|(p & _ & _ & _ & _ & E)];
    rewrite E in H; injection H as _ <-; split; reflexivity.
Qed.

Lemma add_themes_same_staging (ts : list ThemeObj) (s s' : State)
    (u : unit) :
  add_themes ts s = (Ok u, s') -> same_staging s s'.
Proof.
  unfold add_themes. intros H. injection H as _ <-. split; reflexivity.
Qed.

Lemma stageIfSame_touched (i : option (EntrySource * option FileMetadata))
    (target t : str) (s s' : State) :
  stageIfSame w oc i target s = (Ok t, s') ->
  aliases_touched s -> aliases_touched s'.
Proof.
  unfold stageIfSame. intros H Hs.
  destruct i as [[[pathname ct|href root] m]|];
    try (apply ret_Ok in H; destruct H as [_ <-]; exact Hs).
  destruct (pathEquals w pathname target);
    [|apply ret_Ok in H; destruct H as [_ <-]; exact Hs].
  unfold bind, push_alias, touchTmpFile, ret in H.
  injection H as _ <-.
  cbn [next_ref themeIndexes exportAliases touched warnings].
  now apply staged_touched.
Qed.

Ltac keep_staging :=
  repeat match goal with
  | H : optionalInputInfo _ _ _ _ _ = (Ok _, _) |- _ =>
      apply optionalInputInfo_same_staging in H
  | H : getInputInfo _ _ _ _ _ _ = (Ok _, _) |- _ =>
      apply getInputInfo_same_staging in H
  | H : declaredTarget _ _ _ _ _ = (Ok _, _) |- _ =>
      apply (declaredTarget_state w) in H; subst
  | H : getTargetPath _ _ _ _ = (Ok _, _) |- _ =>
      apply (getTargetPath_state w) in H; subst
  | H : entryThemes _ _ _ _ _ _ = (Ok _, _) |- _ =>
      apply entryThemes_same_staging in H
  | H : add_themes _ _ = (Ok _, _) |- _ =>
      apply add_themes_same_staging in H
  | H : ensureCoverImage _ _ _ _ = (Ok _, _) |- _ =>
      apply (ensureCoverImage_state w) in H; subst
  | H : pathFallback _ _ _ _ = (Ok _, _) |- _ =>
      apply pathFallback_same_staging in H
  end.

Ltac carry_touched :=
  repeat match goal with
  | H : same_staging ?a ?b, Ha : aliases_touched ?a |- _ =>
      apply (same_staging_touched _ _ H) in Ha; clear H
  | H : stageIfSame _ _ _ _ ?a = (Ok _, ?b), Ha : aliases_touched ?a |- _ =>
      apply (stageIfSame_touched _ _ _ _ _ H) in Ha; clear H
  end.

Lemma parseEntry_touched (entry : EntryObject) (s s' : State)
    (pe : ParsedEntry) :
  parseEntry w oc lo toc pt entry s = (Ok pe, s') ->
  aliases_touched s -> aliases_touched s'.
Proof.
  unfold parseEntry. intros H Hs.
  bind_inv H entry' s1 Hfb.
  destruct (isContentsEntry entry'); [|destruct (isCoverEntry entry')].
  - unfold parseContentsEntry in H.
    bind_inv H i s2 Hi. bind_inv H t s3 Ht. bind_inv H th s4 Hth.
    bind_inv H u s5 Hadd. bind_inv H t' s6 Hst.
    apply ret_Ok in H. destruct H as [_ <-].
    keep_staging. carry_touched. exact Hs.
  - unfold parseCoverEntry in H.
    bind_inv H inputs s2 Hin. destruct inputs as [[i t] th].
    unfold coverInputs in Hin.
    bind_inv Hin i0 s3 Hi. bind_inv Hin t0 s4 Ht. bind_inv Hin th0 s5 Hth.
    bind_inv Hin u s6 Hadd. apply ret_Ok in Hin. destruct Hin as [Hin <-].
    injection Hin as <- <- <-.
    bind_inv H img s7 Himg.
    destruct img as [[|c src]|]; try discriminate H.
    bind_inv H t' s8 Hst.
    apply ret_Ok in H. destruct H as [_ <-].
    keep_staging. carry_touched. exact Hs.
  - unfold parseArticleEntry in H.
    destruct (e_path entry') as [p|]; [|discriminate H].
    bind_inv H info s2 Hinfo. destruct info as [source metadata].
    bind_inv H t s3 Ht. bind_inv H th s4 Hth. bind_inv H u s5 Hadd.
    apply ret_Ok in H. destruct H as [_ <-].
    assert (Hs3 : s3 = s2).
    { destruct (e_output entry') as [[|c o]|];
        try (eapply getTargetPath_state; eassumption);
        apply ret_Ok in Ht; now destruct Ht. }
    subst s3. clear Ht.
    keep_staging. carry_touched. exact Hs.
Qed.

End AliasPlaceholders.

(** X16: The aliases of a resolved plan are those of the final state, and
    the source of each of them is a file that the resolution touched. *)
Theorem alias_sources_are_placeholders (w : World) (config : ParsedBuildTask)
    (options : InlineOptions) (s s' : State) (r : ResolvedTaskConfig) :
  resolveTaskConfig w config options s = (Ok r, s') ->
  r_exportAliases r = exportAliases s' /\
  Forall (fun a => In (alias_source a) (touched s')) (r_exportAliases r).
Proof.
  intros H. apply resolveTaskConfig_Ok in H.
  destruct H as (oc & s2 & _ & _ & _ & _ & _ & _ & _ & _ & H).
  destruct (single_input options) as [input|].
  - unfold composeSingleInputConfig in H.
    bind_inv H u s3 Hal.
    unfold new_exportAliases in Hal. injection Hal as _ <-.
    bind_inv H sourcePath s4 Hsrc.
    assert (Hs4 : s4 = fresh_aliases s2).
    { destruct (negb (isValidUri w (in_entry input)));
        [apply ret_Ok in Hsrc; now destruct Hsrc|].
      bind_inv Hsrc u0 s5 Hst. apply (statFileSync_Ok w) in Hst.
      destruct Hst as [-> _]. apply ret_Ok in Hsrc. now destruct Hsrc. }
    subst s4. clear Hsrc.
    bind_inv H entries s5 Hent.
    assert (I5 : aliases_touched s5).
    { destruct (in_format input);
        try (apply ret_Ok in Hent; destruct Hent as [_ <-]; constructor).
      bind_inv Hent md s6 Hmd.
      apply parseFileMetadata_same_staging in Hmd.
      bind_inv Hent u1 s7 Ht. bind_inv Hent u2 s8 Ha.
      bind_inv Hent u3 s9 Hp. apply ret_Ok in Hent. destruct Hent as [_ <-].
      unfold touchTmpFile in Ht. injection Ht as _ <-.
      unfold add_themes in Ha. injection Ha as _ <-.
      unfold push_alias in Hp. injection Hp as _ <-.
      destruct Hmd as [Hmd1 Hmd2].
      unfold aliases_touched.
      cbn [next_ref themeIndexes exportAliases touched warnings] in *.
      rewrite Hmd1, Hmd2. cbn [fresh_aliases exportAliases touched app].
      constructor; [|constructor]. cbn [alias_source].
      apply in_or_app. right. now left. }
    clear Hent.
    bind_inv H vi s6 Hvi. destruct vi as [fallbackTitle viewerInput].
    assert (I6 : aliases_touched s6).
    { destruct (in_format input).
      - unfold bind, touchTmpFile, push_alias, ret in Hvi.
        injection Hvi as _ _ <-. now apply staged_touched.
      - bind_inv Hvi url s7 Hurl. apply ret_Ok in Hvi.
        destruct Hvi as [_ <-].
        destruct (isValidUri w sourcePath);
          [destruct (new_URL w sourcePath); [|discriminate Hurl]|];
          apply ret_Ok in Hurl; destruct Hurl as [_ <-]; exact I5.
      - apply ret_Ok in Hvi. destruct Hvi as [_ <-]. exact I5.
      - apply ret_Ok in Hvi. destruct Hvi as [_ <-]. exact I5.
      - apply ret_Ok in Hvi. destruct Hvi as [_ <-]. exact I5. }
    clear Hvi.
    bind_inv H aliases s7 Hals. injection Hals as <- <-.
    apply ret_Ok in H. destruct H as [<- <-].
    cbn [r_exportAliases]. split; [reflexivity|exact I6].
  - apply composeProjectConfig_Ok in H. cbv zeta in H.
    destruct H as (parsed & fallback & Hparsed & _ & _ & Hal & _).
    split; [exact Hal|]. rewrite Hal.
    revert Hparsed.
    refine (fun Hp =>
      mapM_invariant (fun a b => aliases_touched a -> aliases_touched b)
        _ _ (fun _ Ha => Ha) (fun _ _ _ H1 H2 Ha => H2 (H1 Ha))
        (fun a s0 b s1 He => parseEntry_touched w _ _ _ _ a s0 s1 b He)
        _ _ _ Hp _).
    constructor.
Qed.

Lemma alias_sources_are_placeholders_witness :
  let w := Demo.world (lit "/proj") [lit "/proj/sample.md"] in
  let options :=
    {| opt_cwd := None; opt_config := None;
       opt_input := Some {| in_format := FmtMarkdown;
                            in_entry := lit "/proj/sample.md" |} |} in
  exists r s',
    resolveTaskConfig w (Demo.config_with None None []) options
      initial_state = (Ok r, s') /\
    List.length (r_exportAliases r) = 2 /\
    r_exportAliases r = exportAliases s' /\
    Forall (fun a => In (alias_source a) (touched s')) (r_exportAliases r).
Proof.
  cbv zeta. do 2 eexists.
  split; [vm_compute; reflexivity|]. split; [reflexivity|].
  apply (alias_sources_are_placeholders
           (Demo.world (lit "/proj") [lit "/proj/sample.md"])
           (Demo.config_with None None [])
           {| opt_cwd := None; opt_config := None;
              opt_input := Some {| in_format := FmtMarkdown;
                                   in_entry := lit "/proj/sample.md" |} |}
           initial_state).
  vm_compute. reflexivity.
Defined.

(** ** Themes of a single input *)

(** X17: In single-input mode every entry of the plan carries exactly the
    root themes, whatever theme the front matter of the input names. *)
Theorem single_input_ignores_front_matter_themes (w : World)
    (oc : CommonOpts) (config : ParsedBuildTask) (input : InputOption)
    (s s' : State) (r : ResolvedTaskConfig) :
  composeSingleInputConfig w oc config input s = (Ok r, s') ->
  Forall (fun e => entry_themes e = rootThemes oc) (r_entries r).
Proof.
  unfold composeSingleInputConfig. intros H.
  bind_inv H u s1 Hal. bind_inv H sourcePath s2 Hsrc.
  bind_inv H entries s3 Hent. bind_inv H vi s4 Hvi.
  destruct vi as [fallbackTitle viewerInput].
  bind_inv H aliases s5 Hals.
  apply ret_Ok in H. destruct H as [<- _]. cbn [r_entries].
  destruct (in_format input);
    try (apply ret_Ok in Hent; destruct Hent as [<- _]; constructor).
  bind_inv Hent md s6 Hmd. bind_inv Hent u1 s7 Ht.
  bind_inv Hent u2 s8 Ha. bind_inv Hent u3 s9 Hp.
  apply ret_Ok in Hent. destruct Hent as [<- _].
  constructor; [|constructor]. cbn [entry_themes m_themes].
  assert (Hnone : fm_themes md = None).
  { unfold parseFileMetadata in Hmd.
    destruct (readMarkdownMetadata w sourcePath) as [meta|];
      [|discriminate Hmd].
    destruct (md_theme meta); apply ret_Ok in Hmd; destruct Hmd as [<- _];
      reflexivity. }
  now rewrite Hnone.
Qed.

Lemma single_input_ignores_front_matter_themes_witness :
  let w := DemoFrontMatter.world (lit "/proj")
             [lit "/proj/sample.md"; lit "/proj/theme.css"] in
  let input := {| in_format := FmtMarkdown;
                  in_entry := lit "/proj/sample.md" |} in
  exists r s',
    composeSingleInputConfig w (Demo.common (lit "/proj/ws"))
      (Demo.config_with None None []) input initial_state = (Ok r, s') /\
    List.length (r_entries r) = 1 /\
    Forall (fun e => entry_themes e = rootThemes (Demo.common (lit "/proj/ws")))
      (r_entries r).
Proof.
  cbv zeta. do 2 eexists.
  split; [vm_compute; reflexivity|]. split; [reflexivity|].
  eapply (single_input_ignores_front_matter_themes
            (DemoFrontMatter.world (lit "/proj")
               [lit "/proj/sample.md"; lit "/proj/theme.css"])
            (Demo.common (lit "/proj/ws")) (Demo.config_with None None [])
            {| in_format := FmtMarkdown; in_entry := lit "/proj/sample.md" |}
            initial_state).
  vm_compute. reflexivity.
Defined.

(** ** Asset extensions *)

Lemma existsb_str_In (x : str) (l : list str) :
  existsb (str_eqb x) l = true <-> In x l.
Proof.
  rewrite existsb_exists. split.
  - intros (y & Hy & E). apply str_eqb_eq in E. now subst.
  - intros H. exists x. split; [exact H|apply str_eqb_refl].
Qed.

Lemma set_of_fold (l seen : list str) :
  NoDup seen ->
  let r := fold_left (fun seen x => if existsb (str_eqb x) seen then seen
                                    else seen ++ [x]) l seen in
  NoDup r /\ forall x, In x r <-> In x seen \/ In x l.
Proof.
  revert seen. induction l as [|a l IH]; intros seen Hnd; cbn [fold_left].
  - split; [exact Hnd|]. intros x. cbn. tauto.
  - destruct (existsb (str_eqb a) seen) eqn:E.
    + destruct (IH seen Hnd) as [N M]. split; [exact N|].
      intros x. rewrite M. cbn [In]. apply existsb_str_In in E.
      split; [tauto|]. intros [H|[H|H]]; auto. subst. auto.
    + assert (Hnd' : NoDup (seen ++ [a])).
      { apply NoDup_app; [exact Hnd|repeat constructor; intros []|].
        intros x Hx [Hy|[]]. subst x.
        apply existsb_str_In in Hx. congruence. }
      destruct (IH _ Hnd') as [N M]. split; [exact N|].
      intros x. rewrite M, in_app_iff. cbn [In]. tauto.
Qed.

Lemma set_of_spec (l : list str) :
  NoDup (set_of l) /\ forall x, In x (set_of l) <-> In x l.
Proof.
  destruct (set_of_fold l [] (NoDup_nil _)) as [N M]. split; [exact N|].
  intros x. unfold set_of. rewrite M. cbn. tauto.
Qed.

(** X18: The extensions of the assets to copy are listed without
    duplicates; an extension is listed exactly when it is a default or an
    included one and is not excluded. *)
Theorem copied_extensions (copyAsset : option CopyAssetConfig)
    (includeAssets : option (list str)) :
  let exts := asset_fileExtensions (copyAssetOf copyAsset includeAssets) in
  NoDup exts /\
  forall ext,
    In ext exts <->
    (In ext DEFAULT_ASSET_EXTENSIONS \/
     In ext (included_extensions copyAsset)) /\
    ~ In ext (excluded_extensions copyAsset).
Proof.
  cbv zeta. unfold copyAssetOf. cbn [asset_fileExtensions].
  set (inc := match copyAsset with
              | Some c => ca_includeFileExtensions c
              | None => None
              end).
  set (exc := match copyAsset with
              | Some c => ca_excludeFileExtensions c
              | None => None
              end).
  assert (Ei : included_extensions copyAsset = or_nil inc)
    by (destruct copyAsset; reflexivity).
  assert (Ee : excluded_extensions copyAsset = or_nil exc)
    by (destruct copyAsset; reflexivity).
  rewrite Ei, Ee.
  destruct (set_of_spec (DEFAULT_ASSET_EXTENSIONS ++ or_nil inc)) as [N M].
  split; [now apply NoDup_filter|].
  intros ext. rewrite filter_In, M, in_app_iff, negb_true_iff.
  pose proof (existsb_str_In ext (or_nil exc)) as X.
  destruct (existsb (str_eqb ext) (or_nil exc)).
  - split; intros [A B]; [discriminate B|].
    exfalso. apply B, X. reflexivity.
  - split; intros [A B]; split; auto.
    intros C. apply X in C. discriminate C.
Qed.

(** ** The build command line *)

Section BuildCliFacts.
Import BuildCli.

Lemma flat_map_snoc {A B} (f : A -> list B) (l : list A) (a : A) :
  flat_map f (l ++ [a]) = flat_map f l ++ f a.
Proof. rewrite flat_map_app. cbn. now rewrite app_nil_r. Qed.

Lemma targets_split (t : Target) (l : list Target) :
  t :: l = removelast (t :: l) ++ [last (t :: l) t].
Proof. apply app_removelast_last. discriminate. Qed.

Lemma outputOptionProcessor_values (v : str) (targets : list Target) :
  target_outputs (outputOptionProcessor v targets) =
    target_outputs targets ++ [v] /\
  target_formats (outputOptionProcessor v targets) = target_formats targets.
Proof.
  unfold outputOptionProcessor, target_outputs, target_formats.
  destruct targets as [|t l]; [split; reflexivity|].
  cbv zeta.
  destruct (output (last (t :: l) t)) as [o|] eqn:E.
  - rewrite !flat_map_snoc. cbn [output format]. split;
      [reflexivity|now rewrite app_nil_r].
  - rewrite (targets_split t l) at 3 6.
    rewrite !flat_map_snoc. cbn [output format]. rewrite E.
    split; [now rewrite app_nil_r|reflexivity].
Qed.

Lemma formatOptionProcessor_values (v : str) (targets : list Target) :
  target_outputs (formatOptionProcessor v targets) = target_outputs targets /\
  target_formats (formatOptionProcessor v targets) =
    target_formats targets ++ [v].
Proof.
  unfold formatOptionProcessor, target_outputs, target_formats.
  destruct targets as [|t l]; [split; reflexivity|].
  cbv zeta.
  destruct (format (last (t :: l) t)) as [o|] eqn:E.
  - rewrite !flat_map_snoc. cbn [output format]. split;
      [now rewrite app_nil_r|reflexivity].
  - rewrite (targets_split t l) at 3 6.
    rewrite !flat_map_snoc. cbn [output format]. rewrite E.
    split; [reflexivity|now rewrite app_nil_r].
Qed.

Lemma fold_values (argv : list CliOption) (targets : list Target) :
  target_outputs (fold_left call_processor argv targets) =
    target_outputs targets ++ output_values argv /\
  target_formats (fold_left call_processor argv targets) =
    target_formats targets ++ format_values argv.
Proof.
  revert targets. induction argv as [|o argv IH]; intros targets.
  - cbn. now rewrite !app_nil_r.
  - cbn [fold_left]. destruct (IH (call_processor targets o)) as [IHo IHf].
    rewrite IHo, IHf. unfold output_values, format_values.
    cbn [flat_map]. fold (output_values argv) (format_values argv).
    destruct o as [v|v]; cbn [call_processor].
    + destruct (outputOptionProcessor_values v targets) as [-> ->].
      rewrite <- app_assoc. split; reflexivity.
    + destruct (formatOptionProcessor_values v targets) as [-> ->].
      rewrite <- app_assoc. split; reflexivity.
Qed.

Lemma Forall_removelast {A} (P : A -> Prop) (l : list A) :
  Forall P l -> Forall P (removelast l).
Proof.
  induction 1 as [|a l Ha Hl IH]; [constructor|].
  cbn. destruct l; [constructor|]. constructor; assumption.
Qed.

Lemma keyed_output (v : str) (f : option str) :
  keyed {| output := Some v; format := f |}.
Proof. left. discriminate. Qed.

Lemma keyed_format (o : option str) (v : str) :
  keyed {| output := o; format := Some v |}.
Proof. right. discriminate. Qed.

Lemma step_keyed (targets : list Target) (o : CliOption) :
  Forall keyed targets -> Forall keyed (call_processor targets o).
Proof.
  intros H.
  assert (K : forall t, keyed t -> Forall keyed (targets ++ [t]))
    by (intros t Ht; apply Forall_app; split; [exact H|now constructor]).
  assert (R : forall t, keyed t -> Forall keyed (removelast targets ++ [t])).
  { intros t Ht. apply Forall_app. split; [|now constructor].
    now apply Forall_removelast. }
  destruct o as [v|v]; cbn [call_processor];
    unfold outputOptionProcessor, formatOptionProcessor;
    (destruct targets as [|t l];
     [first [apply K, keyed_output|apply K, keyed_format]|]);
    cbv zeta;
    match goal with
    | |- context [match ?x with _ => _ end] => destruct x
    end;
    first [apply K, keyed_output|apply K, keyed_format
          |apply R, keyed_output|apply R, keyed_format].
Qed.

Lemma fold_keyed (argv : list CliOption) (targets : list Target) :
  Forall keyed targets -> Forall keyed (fold_left call_processor argv targets).
Proof.
  revert targets. induction argv as [|o argv IH]; intros targets H.
  - exact H.
  - cbn [fold_left]. apply IH, step_keyed, H.
Qed.

Lemma map_res_Ok {A B} (f : A -> Res B) (l : list A) (bs : list B) :
  map_res f l = Ok bs -> Forall2 (fun a b => f a = Ok b) l bs.
Proof.
  revert bs. induction l as [|a l IH]; intros bs H; cbn [map_res] in H.
  - injection H as <-. constructor.
  - destruct (f a) as [b|e] eqn:E; [|discriminate H].
    destruct (map_res f l) as [bs'|e]; [|discriminate H].
    injection H as <-. constructor; [exact E|now apply IH].
Qed.

Lemma map_res_all_Ok {A B} (f : A -> Res B) (l : list A) :
  Forall (fun a => exists b, f a = Ok b) l -> exists bs, map_res f l = Ok bs.
Proof.
  induction 1 as [|a l [b Hb] Hl [bs IH]]; cbn [map_res].
  - now exists [].
  - rewrite Hb, IH. now exists (b :: bs).
Qed.

Lemma inferenceTarget_acceptable (infer : str -> str) (avail : list str)
    (t : Target) :
  (exists b, inferenceTarget infer avail t = Ok b) <->
  acceptable avail t = true.
Proof.
  unfold inferenceTarget, acceptable.
  destruct (output t) as [[|c o]|];
    try (split; [intros [b H]; discriminate H|discriminate]).
  destruct (format t) as [[|d f]|]; try solve [split; eauto].
  destruct (existsb (str_eqb (d :: f)) avail).
  - split; eauto.
  - split; [intros [b H]; discriminate H|discriminate].
Qed.

Lemma outputs_at_most_targets (targets : list Target) :
  List.length (target_formats targets) <= List.length targets.
Proof.
  unfold target_formats.
  induction targets as [|t l IH]; cbn [flat_map List.length]; [lia|].
  rewrite length_app. destruct (format t); cbn [List.length]; lia.
Qed.

Lemma outputs_all_targets (targets : list Target) :
  Forall (fun t => output t <> None) targets ->
  List.length (target_outputs targets) = List.length targets.
Proof.
  unfold target_outputs.
  induction 1 as [|t l Ht Hl IH]; cbn [flat_map List.length]; [reflexivity|].
  rewrite length_app, IH. destruct (output t); [reflexivity|congruence].
Qed.

End BuildCliFacts.

(** X19: The targets gathered from the [-o] and [-f] options hold the
    output values in the order given and the format values in the order
    given, and every target has an output or a format. *)
Theorem processors_keep_the_values_in_order (argv : list BuildCli.CliOption) :
  BuildCli.target_outputs (BuildCli.parse_targets argv) =
    BuildCli.output_values argv /\
  BuildCli.target_formats (BuildCli.parse_targets argv) =
    BuildCli.format_values argv /\
  Forall BuildCli.keyed (BuildCli.parse_targets argv).
Proof.
  unfold BuildCli.parse_targets.
  destruct (fold_values argv []) as [Ho Hf].
  split; [exact Ho|]. split; [exact Hf|].
  apply fold_keyed. constructor.
Qed.

(** X20: A command line with more [-f] than [-o] options is refused by
    [inferenceTargetsOption]. *)
Theorem more_formats_than_outputs_fails (infer : str -> str)
    (avail : list str) (argv : list BuildCli.CliOption) :
  List.length (BuildCli.output_values argv) <
  List.length (BuildCli.format_values argv) ->
  exists e,
    BuildCli.inferenceTargetsOption infer avail (BuildCli.parse_targets argv)
    = Err e.
Proof.
  intros Hlt.
  destruct (BuildCli.inferenceTargetsOption infer avail
              (BuildCli.parse_targets argv)) as [res|e] eqn:E; [|eauto].
  exfalso. unfold BuildCli.inferenceTargetsOption in E.
  apply map_res_Ok in E.
  assert (Hall : Forall (fun t => BuildCli.output t <> None)
                   (BuildCli.parse_targets argv)).
  { clear Hlt. induction E as [|t b l bs Hb _ IH]; constructor; [|exact IH].
    unfold BuildCli.inferenceTarget in Hb.
    destruct (BuildCli.output t); [discriminate|discriminate Hb]. }
  apply outputs_all_targets in Hall.
  pose proof (outputs_at_most_targets (BuildCli.parse_targets argv)) as Hle.
  unfold BuildCli.parse_targets in *.
  destruct (fold_values argv []) as [Ho Hf].
  cbn [BuildCli.target_outputs BuildCli.target_formats flat_map app] in Ho, Hf.
  rewrite Ho in Hall. rewrite Hf in Hle. lia.
Qed.

Lemma more_formats_than_outputs_fails_witness :
  exists e,
    BuildCli.inferenceTargetsOption (fun _ => lit "pdf")
      [lit "pdf"; lit "webpub"]
      (BuildCli.parse_targets
         [BuildCli.OutputOption (lit "book.pdf");
          BuildCli.FormatOption (lit "pdf");
          BuildCli.FormatOption (lit "webpub")]) = Err e.
Proof.
  apply (more_formats_than_outputs_fails (fun _ => lit "pdf")
           [lit "pdf"; lit "webpub"]
           [BuildCli.OutputOption (lit "book.pdf");
            BuildCli.FormatOption (lit "pdf");
            BuildCli.FormatOption (lit "webpub")]).
  cbn. lia.
Defined.

(** X21: Writing each target as [-o <output>], followed by [-f <format>]
    when it has a format, and parsing the options gives the targets
    back. *)
Theorem paired_options_round_trip (targets : list BuildCli.Target) :
  Forall (fun t => BuildCli.output t <> None) targets ->
  BuildCli.parse_targets (flat_map BuildCli.options_of targets) = targets.
Proof.
  unfold BuildCli.parse_targets.
  induction targets as [|t l IH] using rev_ind; intros H; [reflexivity|].
  apply Forall_app in H. destruct H as [Hl Ht].
  inversion Ht as [|? ? Ho _]; subst.
  rewrite flat_map_app, fold_left_app, (IH Hl). cbn [flat_map].
  rewrite app_nil_r. unfold BuildCli.options_of.
  destruct t as [[o|] f]; cbn [BuildCli.output BuildCli.format] in *;
    [|congruence].
  assert (Hpush : BuildCli.outputOptionProcessor o l =
                  l ++ [{| BuildCli.output := Some o;
                           BuildCli.format := None |}]).
  { unfold BuildCli.outputOptionProcessor.
    destruct l as [|t0 l0]; [reflexivity|]. cbv zeta.
    assert (Hlast : BuildCli.output (last (t0 :: l0) t0) <> None).
    { destruct (exists_last (l := t0 :: l0)) as (l1 & t1 & E);
        [discriminate|].
      rewrite E, last_last. rewrite E in Hl.
      apply Forall_app in Hl. destruct Hl as [_ Hl].
      now inversion Hl. }
    destruct (BuildCli.output (last (t0 :: l0) t0)); [reflexivity|congruence]. }
  destruct f as [f|]; cbn [app fold_left BuildCli.call_processor];
    rewrite Hpush; [|reflexivity].
  unfold BuildCli.formatOptionProcessor.
  destruct (l ++ [{| BuildCli.output := Some o; BuildCli.format := None |}])
    as [|t0 l0] eqn:E; [now destruct l|].
  cbv zeta. rewrite <- E, last_last, removelast_last. reflexivity.
Qed.

Lemma paired_options_round_trip_witness :
  let targets :=
    [{| BuildCli.output := Some (lit "book.pdf"); BuildCli.format := None |};
     {| BuildCli.output := Some (lit "book");
        BuildCli.format := Some (lit "webpub") |}] in
  BuildCli.parse_targets
    [BuildCli.OutputOption (lit "book.pdf");
     BuildCli.OutputOption (lit "book");
     BuildCli.FormatOption (lit "webpub")] = targets.
Proof.
  apply (paired_options_round_trip
           [{| BuildCli.output := Some (lit "book.pdf");
               BuildCli.format := None |};
            {| BuildCli.output := Some (lit "book");
               BuildCli.format := Some (lit "webpub") |}]).
  repeat constructor; discriminate.
Defined.

(** X22: [inferenceTargetsOption] succeeds exactly when every target has an
    output and a format that, if given, is an available one; it then
    keeps the outputs in order, and the format of each result is the
    given one or the one inferred from the name of the output. *)
Theorem inference_accepts_the_acceptable (infer : str -> str)
    (avail : list str) (parsed : list BuildCli.Target) :
  ((exists res, BuildCli.inferenceTargetsOption infer avail parsed = Ok res)
   <-> forallb (BuildCli.acceptable avail) parsed = true) /\
  forall res,
    BuildCli.inferenceTargetsOption infer avail parsed = Ok res ->
    map fst res = BuildCli.target_outputs parsed /\
    Forall2
      (fun t r =>
         BuildCli.output t = Some (fst r) /\
         ((BuildCli.format t = Some (snd r) /\ In (snd r) avail) \/
          snd r = infer (fst r)))
      parsed res.
Proof.
  unfold BuildCli.inferenceTargetsOption. split.
  - rewrite forallb_forall. split.
    + intros [res H]. apply map_res_Ok in H.
      intros t Ht. apply inferenceTarget_acceptable with (infer := infer).
      clear -H Ht. induction H as [|a b l bs Hb _ IH]; [destruct Ht|].
      destruct Ht as [<-|Ht]; [eauto|now apply IH].
    + intros H. apply map_res_all_Ok, Forall_forall.
      intros t Ht. apply inferenceTarget_acceptable. now apply H.
  - intros res H. apply map_res_Ok in H.
    induction H as [|t r l rs Hr _ [IH1 IH2]]; [split; constructor|].
    unfold BuildCli.inferenceTarget in Hr.
    unfold BuildCli.target_outputs in *. cbn [flat_map map].
    destruct (BuildCli.output t) as [[|c o]|] eqn:Eo; try discriminate Hr.
    destruct (BuildCli.format t) as [[|d f]|] eqn:Ef.
    + injection Hr as <-. cbn [fst snd app]. rewrite IH1.
      split; [reflexivity|]. constructor; [|exact IH2].
      split; [exact Eo|]. right. reflexivity.
    + destruct (existsb (str_eqb (d :: f)) avail) eqn:Ea;
        [|discriminate Hr].
      injection Hr as <-. cbn [fst snd app]. rewrite IH1.
      split; [reflexivity|]. constructor; [|exact IH2].
      split; [exact Eo|]. left. split; [exact Ef|].
      apply existsb_exists in Ea. destruct Ea as (y & Hy & Ey).
      apply str_eqb_eq in Ey. now subst.
    + injection Hr as <-. cbn [fst snd app]. rewrite IH1.
      split; [reflexivity|]. constructor; [|exact IH2].
      split; [exact Eo|]. right. reflexivity.
Qed.

(** ** The publication manifest *)

Section PublicationFacts.
Import Publication.

Lemma map_opt_fusion {A} (f g : A -> option A) (l : list A) :
  map_opt (fun a => match f a with Some b => g b | None => None end) l =
  match map_opt f l with
  | Some l1 => map_opt g l1
  | None => None
  end.
Proof.
  induction l as [|a l IH]; cbn [map_opt]; [reflexivity|].
  rewrite IH.
  destruct (f a) as [b|]; [|reflexivity].
  destruct (map_opt f l) as [l1|]; cbn [map_opt].
  - reflexivity.
  - destruct (g b); reflexivity.
Qed.

Lemma map_opt_ext {A B} (f g : A -> option B) (l : list A) :
  (forall a, f a = g a) -> map_opt f l = map_opt g l.
Proof.
  intros H. induction l as [|a l IH]; cbn [map_opt]; [reflexivity|].
  now rewrite H, IH.
Qed.

Lemma transform_member_fusion {A} (f g : A -> option A)
    (m : option (OneOrMany A)) :
  transform_member
    (fun a => match f a with Some b => g b | None => None end) m =
  match transform_member f m with
  | Some m1 => transform_member g m1
  | None => None
  end.
Proof.
  destruct m as [[a|l]|]; cbn [transform_member]; [| |reflexivity].
  - destruct (f a); reflexivity.
  - rewrite map_opt_fusion. destruct (map_opt f l); reflexivity.
Qed.

Lemma transform_member_ext {A} (f g : A -> option A)
    (m : option (OneOrMany A)) :
  (forall a, f a = g a) -> transform_member f m = transform_member g m.
Proof.
  intros H. destruct m as [[a|l]|]; cbn [transform_member];
    [now rewrite H|now rewrite (map_opt_ext f g l H)|reflexivity].
Qed.

Lemma links_fusion (f g : str -> option str) (e : Resource) :
  transformUrlOrPublicationLinks (and_then f g) e =
  match transformUrlOrPublicationLinks f e with
  | Some e1 => transformUrlOrPublicationLinks g e1
  | None => None
  end.
Proof.
  unfold and_then.
  destruct e as [u|l]; cbn [transformUrlOrPublicationLinks].
  - destruct (f u); reflexivity.
  - destruct (f (l_url l)); reflexivity.
Qed.

Lemma map_opt_id {A} (f : A -> option A) (l : list A) :
  Forall (fun a => f a = Some a) l -> map_opt f l = Some l.
Proof.
  induction 1 as [|a l Ha Hl IH]; cbn [map_opt]; [reflexivity|].
  now rewrite Ha, IH.
Qed.

Lemma transform_member_id {A} (f : A -> option A)
    (m : option (OneOrMany A)) :
  Forall (fun a => f a = Some a) (member_list m) ->
  transform_member f m = Some m.
Proof.
  destruct m as [[a|l]|]; cbn [member_list transform_member]; intros H.
  - inversion H as [|? ? Ha _]; subst. now rewrite Ha.
  - now rewrite (map_opt_id f l H).
  - reflexivity.
Qed.

Lemma links_id (f : str -> option str) (e : Resource) :
  f (resource_url e) = Some (resource_url e) ->
  transformUrlOrPublicationLinks f e = Some e.
Proof.
  destruct e as [u|l]; cbn [resource_url transformUrlOrPublicationLinks];
    intros ->; [reflexivity|]. now destruct l.
Qed.

Lemma Forall_links_id (f : str -> option str) (l : list Resource) :
  Forall (fun u => f u = Some u) (map resource_url l) ->
  Forall (fun e => transformUrlOrPublicationLinks f e = Some e) l.
Proof.
  intros H. apply Forall_map in H.
  eapply Forall_impl; [|exact H]. intros e. apply links_id.
Qed.

Lemma transform_id (f : str -> option str) (m : PublicationManifest) :
  Forall (fun u => f u = Some u) (manifest_urls m) ->
  transformPublicationManifest f m = Some m.
Proof.
  unfold manifest_urls. intros H.
  apply Forall_app in H. destruct H as [H1 H].
  apply Forall_app in H. destruct H as [H2 H].
  apply Forall_app in H. destruct H as [H3 H].
  apply Forall_app in H. destruct H as [H4 H5].
  unfold transformPublicationManifest.
  rewrite (transform_member_id f _ H1), (transform_member_id f _ H2).
  rewrite (transform_member_id _ _ (Forall_links_id f _ H3)).
  rewrite (transform_member_id _ _ (Forall_links_id f _ H4)).
  rewrite (transform_member_id _ _ (Forall_links_id f _ H5)).
  now destruct m.
Qed.

Lemma transform_fusion_lemma (f g : str -> option str)
    (m : PublicationManifest) :
  transformPublicationManifest (and_then f g) m =
  match transformPublicationManifest f m with
  | Some m1 => transformPublicationManifest g m1
  | None => None
  end.
Proof.
  unfold transformPublicationManifest.
  rewrite !(transform_member_ext
              (transformUrlOrPublicationLinks (and_then f g)) _ _
              (links_fusion f g)).
  rewrite !(transform_member_fusion (transformUrlOrPublicationLinks f)
              (transformUrlOrPublicationLinks g)).
  unfold and_then.
  rewrite !(transform_member_fusion f g).
  destruct (transform_member f (pm_conformsTo m)) as [c1|];
    destruct (transform_member f (pm_url m)) as [u1|];
    destruct (transform_member (transformUrlOrPublicationLinks f)
                (pm_readingOrder m)) as [r1|];
    destruct (transform_member (transformUrlOrPublicationLinks f)
                (pm_resources m)) as [s1|];
    destruct (transform_member (transformUrlOrPublicationLinks f)
                (pm_links m)) as [k1|];
    cbn [pm_context pm_type pm_conformsTo pm_url pm_name pm_author
         pm_inLanguage pm_readingProgression pm_dateModified pm_readingOrder
         pm_resources pm_links];
    repeat match goal with
           | |- context [match transform_member ?h ?x with _ => _ end] =>
               destruct (transform_member h x)
           end;
    reflexivity.
Qed.

Lemma map_opt_Forall2 {A B} (f : A -> option B) (l : list A) (l' : list B) :
  map_opt f l = Some l' -> Forall2 (fun a b => f a = Some b) l l'.
Proof.
  revert l'. induction l as [|a l IH]; intros l' H; cbn [map_opt] in H.
  - injection H as <-. constructor.
  - destruct (f a) as [b|] eqn:E; [|discriminate H].
    destruct (map_opt f l) as [bs|]; [|discriminate H].
    injection H as <-. constructor; [exact E|now apply IH].
Qed.

Lemma transform_member_Forall2 {A} (f : A -> option A)
    (m m' : option (OneOrMany A)) :
  transform_member f m = Some m' ->
  Forall2 (fun a b => f a = Some b) (member_list m) (member_list m').
Proof.
  destruct m as [[a|l]|]; cbn [transform_member member_list]; intros H.
  - destruct (f a) as [b|] eqn:E; [|discriminate H].
    injection H as <-. cbn. now repeat constructor.
  - destruct (map_opt f l) as [bs|] eqn:E; [|discriminate H].
    injection H as <-. cbn. now apply map_opt_Forall2.
  - injection H as <-. constructor.
Qed.

Lemma links_url (f : str -> option str) (e e' : Resource) :
  transformUrlOrPublicationLinks f e = Some e' ->
  f (resource_url e) = Some (resource_url e').
Proof.
  destruct e as [u|l]; cbn [transformUrlOrPublicationLinks resource_url].
  - destruct (f u); intros H; [|discriminate H]. now injection H as <-.
  - destruct (f (l_url l)); intros H; [|discriminate H]. now injection H as <-.
Qed.

Lemma Forall2_map_urls (f : str -> option str) (l l' : list Resource) :
  Forall2 (fun a b => transformUrlOrPublicationLinks f a = Some b) l l' ->
  Forall2 (fun u v => f u = Some v)
    (map resource_url l) (map resource_url l').
Proof.
  induction 1 as [|a b l l' Hab _ IH]; cbn [map]; constructor;
    [now apply links_url|exact IH].
Qed.

Lemma transform_urls (f : str -> option str) (m m' : PublicationManifest) :
  transformPublicationManifest f m = Some m' ->
  Forall2 (fun u v => f u = Some v) (manifest_urls m) (manifest_urls m').
Proof.
  unfold transformPublicationManifest. intros H.
  destruct (transform_member f (pm_conformsTo m)) as [c1|] eqn:E1;
    [|discriminate H].
  destruct (transform_member f (pm_url m)) as [u1|] eqn:E2;
    [|discriminate H].
  destruct (transform_member (transformUrlOrPublicationLinks f)
              (pm_readingOrder m)) as [r1|] eqn:E3; [|discriminate H].
  destruct (transform_member (transformUrlOrPublicationLinks f)
              (pm_resources m)) as [s1|] eqn:E4; [|discriminate H].
  destruct (transform_member (transformUrlOrPublicationLinks f)
              (pm_links m)) as [k1|] eqn:E5; [|discriminate H].
  injection H as <-. unfold manifest_urls.
  cbn [pm_conformsTo pm_url pm_readingOrder pm_resources pm_links].
  repeat apply Forall2_app;
    first [ now apply transform_member_Forall2
          | apply Forall2_map_urls; now apply transform_member_Forall2 ].
Qed.

Lemma map_opt_ext_in {A B} (f g : A -> option B) (l : list A) :
  Forall (fun a => f a = g a) l -> map_opt f l = map_opt g l.
Proof.
  induction 1 as [|a l Ha Hl IH]; cbn [map_opt]; [reflexivity|].
  now rewrite Ha, IH.
Qed.

Lemma transform_member_ext_in {A} (f g : A -> option A)
    (m : option (OneOrMany A)) :
  Forall (fun a => f a = g a) (member_list m) ->
  transform_member f m = transform_member g m.
Proof.
  destruct m as [[a|l]|]; cbn [member_list transform_member]; intros H.
  - inversion H as [|? ? Ha _]; subst. now rewrite Ha.
  - now rewrite (map_opt_ext_in f g l H).
  - reflexivity.
Qed.

Lemma links_ext_in (f g : str -> option str) (l : list Resource) :
  Forall (fun u => f u = g u) (map resource_url l) ->
  Forall (fun e => transformUrlOrPublicationLinks f e =
                   transformUrlOrPublicationLinks g e) l.
Proof.
  intros H. apply Forall_map in H.
  eapply Forall_impl; [|exact H].
  intros [u|k]; cbn [resource_url transformUrlOrPublicationLinks];
    intros ->; reflexivity.
Qed.

Lemma transform_ext_urls (f g : str -> option str)
    (m : PublicationManifest) :
  Forall (fun u => f u = g u) (manifest_urls m) ->
  transformPublicationManifest f m = transformPublicationManifest g m.
Proof.
  unfold manifest_urls. intros H.
  apply Forall_app in H. destruct H as [H1 H].
  apply Forall_app in H. destruct H as [H2 H].
  apply Forall_app in H. destruct H as [H3 H].
  apply Forall_app in H. destruct H as [H4 H5].
  unfold transformPublicationManifest.
  rewrite (transform_member_ext_in f g _ H1).
  rewrite (transform_member_ext_in f g _ H2).
  rewrite (transform_member_ext_in _ _ _ (links_ext_in f g _ H3)).
  rewrite (transform_member_ext_in _ _ _ (links_ext_in f g _ H4)).
  rewrite (transform_member_ext_in _ _ _ (links_ext_in f g _ H5)).
  reflexivity.
Qed.

End PublicationFacts.

(** X23: Transforming the URLs of a manifest by one function and then by a
    second one is transforming them by the two in sequence, failures
    included. *)
Theorem transformers_compose (f g : str -> option str)
    (m : Publication.PublicationManifest) :
  Publication.transformPublicationManifest (Publication.and_then f g) m =
  match Publication.transformPublicationManifest f m with
  | Some m1 => Publication.transformPublicationManifest g m1
  | None => None
  end.
Proof. apply transform_fusion_lemma. Qed.

(** X24: If decoding undoes encoding on every URL of a manifest, then
    decoding the encoded manifest gives the manifest back. *)
Theorem encode_then_decode (encodeURI decodeURI : str -> option str)
    (m : Publication.PublicationManifest) :
  Forall (fun u => exists v, encodeURI u = Some v /\ decodeURI v = Some u)
    (Publication.manifest_urls m) ->
  exists encoded,
    Publication.encodePublicationManifest encodeURI m = Some encoded /\
    Publication.decodePublicationManifest decodeURI encoded = Some m.
Proof.
  intros H.
  assert (Hid : Forall (fun u => Publication.and_then encodeURI decodeURI u
                                 = Some u) (Publication.manifest_urls m)).
  { eapply Forall_impl; [|exact H]. intros u (v & Hv & Hu).
    unfold Publication.and_then. now rewrite Hv. }
  apply transform_id in Hid. rewrite transform_fusion_lemma in Hid.
  unfold Publication.encodePublicationManifest,
    Publication.decodePublicationManifest.
  destruct (Publication.transformPublicationManifest encodeURI m)
    as [encoded|]; [|discriminate Hid].
  now exists encoded.
Qed.

(** X25: A transformed manifest has, place by place, the images of the
    URLs of the original under the transformer, and differs from the
    original in its URLs only. *)
Theorem transform_changes_urls_only (f : str -> option str)
    (m m' : Publication.PublicationManifest) :
  Publication.transformPublicationManifest f m = Some m' ->
  Forall2 (fun u v => f u = Some v)
    (Publication.manifest_urls m) (Publication.manifest_urls m') /\
  Publication.transformPublicationManifest (fun _ => Some []) m' =
  Publication.transformPublicationManifest (fun _ => Some []) m.
Proof.
  intros H. pose proof (transform_urls f m m' H) as U.
  split; [exact U|].
  pose proof (transform_fusion_lemma f (fun _ => Some []) m) as F.
  rewrite H in F. rewrite <- F.
  apply transform_ext_urls.
  clear -U. induction U as [|u v l l' Huv _ IH]; constructor; [|exact IH].
  unfold Publication.and_then. now rewrite Huv.
Qed.

Lemma encode_then_decode_witness :
  exists encoded,
    Publication.encodePublicationManifest DemoPublication.escape_spaces
      DemoPublication.manifest = Some encoded /\
    Publication.manifest_urls encoded =
      [lit "chapter%201.html"; lit "chapter%202.html";
       lit "cover%20image.png"] /\
    Publication.decodePublicationManifest DemoPublication.unescape_spaces
      encoded = Some DemoPublication.manifest.
Proof.
  destruct (encode_then_decode DemoPublication.escape_spaces
              DemoPublication.unescape_spaces DemoPublication.manifest)
    as (encoded & He & Hd).
  - repeat (constructor;
            [eexists; split; vm_compute; reflexivity|]).
    constructor.
  - exists encoded. split; [exact He|]. split; [|exact Hd].
    vm_compute in He. injection He as <-. reflexivity.
Defined.

Lemma transform_changes_urls_only_witness :
  exists m',
    Publication.transformPublicationManifest DemoPublication.escape_spaces
      DemoPublication.manifest = Some m' /\
    Forall2 (fun u v => DemoPublication.escape_spaces u = Some v)
      (Publication.manifest_urls DemoPublication.manifest)
      (Publication.manifest_urls m') /\
    Publication.transformPublicationManifest (fun _ => Some []) m' =
    Publication.transformPublicationManifest (fun _ => Some [])
      DemoPublication.manifest.
Proof.
  eexists. split; [vm_compute; reflexivity|].
  apply (transform_changes_urls_only DemoPublication.escape_spaces
           DemoPublication.manifest).
  vm_compute. reflexivity.
Defined.

(** X26: When [writePublicationManifest] returns, it has written one file,
    last of all: the encoded form of the manifest it returns, at the
    output path, which passed the schema; the reading order of the
    manifest lists the paths of the entries in order.  When it throws,
    nothing was written. *)
Theorem written_manifest_is_the_encoded_result
    (encodeURI : str -> option str) (mime : str -> option str)
    (assertPubManifestSchema : Publication.PublicationManifest -> option str)
    (output : str) (options : Publication.ManifestOptions) :
  let run :=
    Publication.writePublicationManifest encodeURI mime
      assertPubManifestSchema output options in
  match snd run with
  | inr publication =>
      exists encoded logs,
        fst run = logs ++ [Publication.WriteFile output encoded] /\
        Forall Publication.is_log logs /\
        Publication.encodePublicationManifest encodeURI publication =
          Some encoded /\
        assertPubManifestSchema encoded = None /\
        map Publication.resource_url
          (Publication.member_list (Publication.pm_readingOrder publication))
        = map Publication.a_path (Publication.mo_entries options)
  | inl _ => Forall Publication.is_log (fst run)
  end.
Proof.
  cbv zeta. unfold Publication.writePublicationManifest.
  assert (L : Forall Publication.is_log
                (snd (Publication.manifest_resources mime options))).
  { unfold Publication.manifest_resources.
    destruct (Publication.mo_cover options) as [cover|]; [|constructor].
    destruct (mime (Publication.co_url cover)) as [[|c t]|];
      repeat constructor. }
  destruct (Publication.manifest_resources mime options)
    as [resources logged].
  cbn [snd] in L.
  match goal with
  | |- context [Publication.encodePublicationManifest encodeURI ?p] =>
      set (publication := p)
  end.
  destruct (Publication.encodePublicationManifest encodeURI publication)
    as [encoded|] eqn:E; [|exact L].
  destruct (assertPubManifestSchema encoded) eqn:V; [exact L|].
  cbn [fst snd]. exists encoded, logged.
  split; [reflexivity|]. split; [exact L|].
  split; [exact E|]. split; [exact V|].
  subst publication.
  cbn [Publication.pm_readingOrder Publication.member_list].
  rewrite !map_map. reflexivity.
Qed.

(** ** Exporting a web publication *)

Section ExportFacts.
Import Publication WebExport.

Lemma str_eqb_false (a b : str) : str_eqb a b = false <-> a <> b.
Proof.
  split.
  - intros H E. apply str_eqb_eq in E. congruence.
  - intros H. destruct (str_eqb a b) eqn:E; [|reflexivity].
    apply str_eqb_eq in E. contradiction.
Qed.

Lemma set_delete_In (x f : str) (files : list str) :
  In f (set_delete x files) <-> In f files /\ f <> x.
Proof.
  unfold set_delete. rewrite filter_In, negb_true_iff, str_eqb_false.
  reflexivity.
Qed.

Lemma fold_delete (rel : list ExportAlias) (files : list str) :
  NoDup files ->
  let r := fold_left (fun fs alias => set_delete (alias_target alias) fs)
             rel files in
  NoDup r /\
  forall f, In f r <-> In f files /\ ~ In f (map alias_target rel).
Proof.
  revert files. induction rel as [|a rel IH]; intros files Hnd;
    cbn [fold_left map].
  - split; [exact Hnd|]. intros f. cbn. tauto.
  - destruct (IH (set_delete (alias_target a) files)) as [N M].
    { unfold set_delete. now apply NoDup_filter. }
    split; [exact N|]. intros f. rewrite M, set_delete_In. cbn [In].
    split.
    + intros [[Hf Hne] Hn]. split; [exact Hf|].
      intros [E|Hin]; [congruence|contradiction].
    + intros [Hf Hn]. split; [split; [exact Hf|]|].
      * intros E. apply Hn. left. congruence.
      * intros Hin. apply Hn. now right.
Qed.

Lemma allFiles_spec (assetFiles documentFiles : list str)
    (rel : list ExportAlias) :
  NoDup (allFiles assetFiles documentFiles rel) /\
  forall f,
    In f (allFiles assetFiles documentFiles rel) <->
    (In f assetFiles \/ In f documentFiles) /\
    ~ In f (map alias_target rel).
Proof.
  unfold allFiles.
  destruct (set_of_spec (assetFiles ++ documentFiles)) as [N M].
  destruct (fold_delete rel _ N) as [N' M'].
  split; [exact N'|]. intros f. rewrite M', M, in_app_iff. reflexivity.
Qed.

Lemma copy_loop (pathEquals : str -> str -> bool)
    (input outputDir manifestPath : str)
    (rel : list ExportAlias) (files : list str) (st : CopyState) :
  let st' :=
    fold_left (copy_one pathEquals input outputDir manifestPath rel)
      files st in
  cs_resources st' = cs_resources st ++ map (relTarget rel) files /\
  cs_effects st' =
    cs_effects st ++
    flat_map
      (fun file =>
         [MkDir (Path.dirname (Path.join [outputDir; relTarget rel file]));
          CopyFile (Path.join [input; file])
            (Path.join [outputDir; relTarget rel file])])
      files.
Proof.
  revert st. induction files as [|f files IH]; intros st; cbn [fold_left].
  - cbn. now rewrite !app_nil_r.
  - destruct (IH (copy_one pathEquals input outputDir manifestPath rel st f))
      as [R E].
    cbv zeta in *. rewrite R, E. cbn [copy_one cs_resources cs_effects].
    cbn [map flat_map]. rewrite <- !app_assoc. split; reflexivity.
Qed.

Lemma alias_of_Some (rel : list ExportAlias) (file : str) (a : ExportAlias) :
  alias_of rel file = Some a -> In a rel /\ alias_source a = file.
Proof.
  unfold alias_of. intros H. apply find_some in H.
  destruct H as [Hin E]. apply str_eqb_eq in E. now split.
Qed.

Lemma relTarget_cases (rel : list ExportAlias) (file : str) :
  relTarget rel file = file \/
  exists a, In a rel /\ alias_source a = file /\
            relTarget rel file = alias_target a.
Proof.
  unfold relTarget. destruct (alias_of rel file) as [a|] eqn:E; [|now left].
  destruct (truthy (alias_target a)); [|now left].
  right. exists a. apply alias_of_Some in E. destruct E. auto.
Qed.

Lemma NoDup_map_inj_on {A B} (f : A -> B) (l : list A) :
  NoDup l ->
  (forall a b, In a l -> In b l -> f a = f b -> a = b) ->
  NoDup (map f l).
Proof.
  induction 1 as [|a l Ha Hl IH]; intros Hinj; cbn [map]; constructor.
  - rewrite in_map_iff. intros (b & Hb & Hin).
    assert (b = a) by (apply Hinj; [now right|now left|exact Hb]).
    subst b. contradiction.
  - apply IH. intros x y Hx Hy. apply Hinj; now right.
Qed.

Lemma NoDup_map_eq {A B} (f : A -> B) (l : list A) (a b : A) :
  NoDup (map f l) -> In a l -> In b l -> f a = f b -> a = b.
Proof.
  induction l as [|x l IH]; intros Hnd Ha Hb E; [destruct Ha|].
  cbn [map] in Hnd. inversion Hnd as [|? ? Hx Hl]; subst.
  destruct Ha as [->|Ha], Hb as [->|Hb].
  - reflexivity.
  - exfalso. apply Hx. rewrite E. now apply in_map.
  - exfalso. apply Hx. rewrite <- E. now apply in_map.
  - now apply IH.
Qed.

Lemma relTarget_injective (rel : list ExportAlias) (f1 f2 : str) :
  NoDup (map alias_target rel) ->
  ~ In f1 (map alias_target rel) ->
  ~ In f2 (map alias_target rel) ->
  relTarget rel f1 = relTarget rel f2 -> f1 = f2.
Proof.
  intros Hnd H1 H2 E.
  destruct (relTarget_cases rel f1) as [R1|(a1 & Hin1 & Hs1 & R1)],
           (relTarget_cases rel f2) as [R2|(a2 & Hin2 & Hs2 & R2)];
    rewrite R1, R2 in E.
  - exact E.
  - exfalso. apply H1. rewrite E. now apply in_map.
  - exfalso. apply H2. rewrite <- E. now apply in_map.
  - assert (a1 = a2) by (eapply NoDup_map_eq; eassumption).
    subst a2. congruence.
Qed.

End ExportFacts.

(** X27: The files copied to the output directory are the asset and
    document files found that are not the target of an alias, each one
    once; each is copied to its aliased place, after the directory of
    that place is made. *)
Theorem copied_files_are_the_found_ones (cwd : str)
    (pathEquals : str -> str -> bool) (assetFiles documentFiles : list str)
    (input outputDir manifestPath : str) (rel : list ExportAlias) :
  let files := WebExport.allFiles assetFiles documentFiles rel in
  let copied :=
    WebExport.copy_all cwd pathEquals assetFiles documentFiles input
      outputDir manifestPath rel in
  NoDup files /\
  (forall f, In f files <->
             (In f assetFiles \/ In f documentFiles) /\
             ~ In f (map alias_target rel)) /\
  WebExport.cs_resources copied = map (WebExport.relTarget rel) files /\
  WebExport.cs_effects copied =
    flat_map
      (fun file =>
         [WebExport.MkDir
            (Path.dirname
               (Path.join [outputDir; WebExport.relTarget rel file]));
          WebExport.CopyFile (Path.join [input; file])
            (Path.join [outputDir; WebExport.relTarget rel file])])
      files.
Proof.
  cbv zeta.
  destruct (allFiles_spec assetFiles documentFiles rel) as [N M].
  split; [exact N|]. split; [exact M|].
  unfold WebExport.copy_all.
  match goal with
  | |- context [fold_left ?f ?l ?st] =>
      destruct (copy_loop pathEquals input outputDir manifestPath rel l st)
        as [R E]
  end.
  cbv zeta in R, E. rewrite R, E. split; reflexivity.
Qed.

(** X28: When no two aliases have the same target, no place of the output
    directory receives two files. *)
Theorem no_output_is_copied_twice (cwd : str)
    (pathEquals : str -> str -> bool) (assetFiles documentFiles : list str)
    (input outputDir manifestPath : str) (rel : list ExportAlias) :
  NoDup (map alias_target rel) ->
  NoDup
    (WebExport.cs_resources
       (WebExport.copy_all cwd pathEquals assetFiles documentFiles input
          outputDir manifestPath rel)).
Proof.
  intros Hnd.
  destruct (allFiles_spec assetFiles documentFiles rel) as [N M].
  unfold WebExport.copy_all.
  match goal with
  | |- context [fold_left ?f ?l ?st] =>
      destruct (copy_loop pathEquals input outputDir manifestPath rel l st)
        as [R _]
  end.
  cbv zeta in R. rewrite R. cbn [WebExport.cs_resources app].
  apply NoDup_map_inj_on; [exact N|].
  intros a b Ha Hb. apply M in Ha, Hb.
  apply relTarget_injective; [exact Hnd|apply Ha|apply Hb].
Qed.

Lemma no_output_is_copied_twice_witness :
  let rel := WebExport.relExportAliases (lit "/") (lit "/ws")
               DemoExport.aliases in
  NoDup
    (WebExport.cs_resources
       (WebExport.copy_all (lit "/") str_eqb [lit "image.png"]
          [lit ".vs-1.publication.json"; lit ".vs-1.sample.html";
           lit "sample.html"; lit "image.png"]
          (lit "/ws") (lit "/out") (lit "/ws/.vs-1.publication.json") rel)).
Proof.
  apply (no_output_is_copied_twice (lit "/") str_eqb [lit "image.png"]
           [lit ".vs-1.publication.json"; lit ".vs-1.sample.html";
            lit "sample.html"; lit "image.png"]
           (lit "/ws") (lit "/out") (lit "/ws/.vs-1.publication.json")
           (WebExport.relExportAliases (lit "/") (lit "/ws")
              DemoExport.aliases)).
  vm_compute. repeat constructor; cbn; intuition discriminate.
Defined.

(** X29: When the export succeeds, the last effect writes the encoded
    manifest at the actual manifest path, and every copied file other
    than the manifest is among the links, the reading order or the
    resources of the manifest written. *)
Theorem exported_manifest_lists_the_copied_files (cwd : str)
    (pathEquals : str -> str -> bool) (assetFiles documentFiles : list str)
    (readJSON : str -> option Publication.PublicationManifest)
    (decodeURI encodeURI : str -> option str)
    (sort_resources : list Publication.Resource -> list Publication.Resource)
    (exportAliases : list ExportAlias) (manifestPath input outputDir : str)
    (effects : list WebExport.FsEffect)
    (manifest : Publication.PublicationManifest) (path : str) :
  (forall l x, In x (sort_resources l) <-> In x l) ->
  WebExport.copyWebPublicationAssets cwd pathEquals assetFiles documentFiles
    readJSON decodeURI encodeURI sort_resources exportAliases manifestPath
    input outputDir = (effects, Some (manifest, path)) ->
  let copied :=
    WebExport.copy_all cwd pathEquals assetFiles documentFiles input
      outputDir manifestPath
      (WebExport.relExportAliases cwd input exportAliases) in
  path = WebExport.cs_actualManifestPath copied /\
  (exists encoded,
     Publication.encodePublicationManifest encodeURI manifest = Some encoded
     /\ effects =
        WebExport.cs_effects copied ++
        [WebExport.WriteManifest path encoded]) /\
  forall file,
    In file (WebExport.cs_resources copied) ->
    pathEquals file (Path.relative cwd outputDir path) = false ->
    In file (WebExport.listed_urls manifest).
Proof.
  intros Hsort H. cbv zeta.
  unfold WebExport.copyWebPublicationAssets in H.
  set (rel := WebExport.relExportAliases cwd input exportAliases) in *.
  set (copied := WebExport.copy_all cwd pathEquals assetFiles documentFiles
                   input outputDir manifestPath rel) in *.
  destruct (readJSON _) as [parsed|]; [|discriminate H].
  destruct (Publication.decodePublicationManifest decodeURI parsed)
    as [decoded|]; [|discriminate H].
  set (rewritten := fold_left (WebExport.rewrite_manifest pathEquals) rel
                      decoded) in *.
  set (listed := WebExport.listed_resources cwd pathEquals outputDir
                   (WebExport.cs_actualManifestPath copied) rewritten
                   (WebExport.cs_resources copied)) in *.
  destruct (Publication.encodePublicationManifest encodeURI _)
    as [encoded|] eqn:E; [|discriminate H].
  injection H as <- <- <-.
  split; [reflexivity|]. split; [exists encoded; split; [exact E|reflexivity]|].
  intros file Hin Hne.
  unfold WebExport.listed_urls, WebExport.sortManifestResources,
    WebExport.with_resources.
  cbn [Publication.pm_resources Publication.pm_links
       Publication.pm_readingOrder].
  assert (Hres : forall e, In e listed ->
            In (Publication.resource_url e)
              (WebExport.normalizeToUrl
                 (Some (Publication.Many (sort_resources listed))))).
  { intros e He. unfold WebExport.normalizeToUrl, WebExport.flat_member.
    cbn [WebExport.member_truthy Publication.member_list].
    apply in_map, Hsort, He. }
  destruct (existsb (str_eqb file)
              (WebExport.normalizeToUrl (Publication.pm_links rewritten) ++
               WebExport.normalizeToUrl
                 (Publication.pm_readingOrder rewritten) ++
               WebExport.normalizeToUrl (Publication.pm_resources rewritten)))
    eqn:Ep.
  - apply existsb_str_In in Ep.
    apply in_app_or in Ep. destruct Ep as [Ep|Ep];
      [apply in_or_app; now left|].
    apply in_app_or in Ep. destruct Ep as [Ep|Ep];
      [apply in_or_app; right; apply in_or_app; now left|].
    apply in_or_app. right. apply in_or_app. right.
    unfold WebExport.normalizeToUrl in Ep. apply in_map_iff in Ep.
    destruct Ep as (e & <- & He). apply Hres.
    subst listed. unfold WebExport.listed_resources.
    apply in_or_app. now left.
  - apply in_or_app. right. apply in_or_app. right.
    apply (Hres (Publication.ResourceUrl file)).
    subst listed. unfold WebExport.listed_resources.
    apply in_or_app. right. apply in_flat_map.
    exists file. split; [exact Hin|].
    rewrite Ep, Hne. now left.
Qed.

Lemma insert_resource_In (e x : Publication.Resource)
    (l : list Publication.Resource) :
  In x (DemoExport.insert_resource e l) <-> x = e \/ In x l.
Proof.
  induction l as [|y l IH]; cbn [DemoExport.insert_resource].
  - cbn. intuition.
  - destruct (DemoExport.str_leb _ _); cbn [In]; [intuition|].
    rewrite IH. intuition.
Qed.

Lemma demo_sort_In (l : list Publication.Resource) (x : Publication.Resource) :
  In x (DemoExport.sort_resources l) <-> In x l.
Proof.
  unfold DemoExport.sort_resources.
  induction l as [|e l IH]; cbn [fold_right]; [reflexivity|].
  rewrite insert_resource_In, IH. cbn [In]. intuition.
Qed.

Lemma exported_manifest_lists_the_copied_files_witness :
  exists effects manifest,
    DemoExport.run = (effects, Some (manifest, lit "/out/publication.json")) /\
    WebExport.listed_urls manifest = [lit "sample.html"; lit "image.png"] /\
    forall file,
      In file [lit "image.png"; lit "publication.json"; lit "sample.html"] ->
      str_eqb file (lit "publication.json") = false ->
      In file (WebExport.listed_urls manifest).
Proof.
  do 2 eexists. split; [vm_compute; reflexivity|].
  split; [vm_compute; reflexivity|].
  refine (proj2 (proj2
    (exported_manifest_lists_the_copied_files (lit "/") str_eqb
       [lit "image.png"]
       [lit ".vs-1.publication.json"; lit ".vs-1.sample.html";
        lit "sample.html"; lit "image.png"]
       DemoExport.readJSON DemoPublication.unescape_spaces
       DemoPublication.escape_spaces DemoExport.sort_resources
       DemoExport.aliases (lit "/ws/.vs-1.publication.json") (lit "/ws")
       (lit "/out") _ _ (lit "/out/publication.json") demo_sort_In _))).
  vm_compute. reflexivity.
Defined.

(** ** The manifest of the first builder *)

(** X30: The manifest that [generateManifest] writes at the output path
    lists in its reading order [toc.html], when a table of contents is
    asked for, and then the entries in their order, all as [text/html];
    it has no resources, and its links hold the cover at most. *)
Theorem reading_order_starts_with_the_contents
    (imageSize : str -> option Builder.ImageInfo)
    (mime : str -> option str) (outputPath : str)
    (options : Builder.ManifestOption) (path : str)
    (manifest : Builder.Manifest) :
  Builder.generateManifest imageSize mime outputPath options =
    Some (path, manifest) ->
  path = outputPath /\
  map Builder.me_href (Builder.mf_readingOrder manifest) =
    (if Builder.toc_truthy (Builder.mo_toc options) then [lit "toc.html"]
     else []) ++
    map Builder.en_path (Builder.mo_entries options) /\
  Forall (fun e => Builder.me_type e = lit "text/html")
    (Builder.mf_readingOrder manifest) /\
  Builder.mf_resources manifest = [] /\
  List.length (Builder.mf_links manifest) <= 1 /\
  Forall (fun e => Builder.me_rel e = Some (lit "cover"))
    (Builder.mf_links manifest).
Proof.
  unfold Builder.generateManifest. intros H.
  match type of H with
  | match ?l with _ => _ end = _ => destruct l as [links|] eqn:El
  end; [|discriminate H].
  injection H as <- <-.
  cbn [Builder.mf_readingOrder Builder.mf_resources Builder.mf_links].
  split; [reflexivity|]. split; [|split; [|split; [reflexivity|]]].
  - destruct (Builder.toc_truthy (Builder.mo_toc options)); cbn [map app];
      rewrite map_map; reflexivity.
  - assert (F : Forall (fun e => Builder.me_type e = lit "text/html")
                  (map (fun entry =>
                          {| Builder.me_href := Builder.en_path entry;
                             Builder.me_type := lit "text/html";
                             Builder.me_rel := None;
                             Builder.me_title := Builder.en_title entry;
                             Builder.me_width := None;
                             Builder.me_height := None |})
                       (Builder.mo_entries options)))
      by (apply Forall_map, Forall_forall; reflexivity).
    destruct (Builder.toc_truthy (Builder.mo_toc options));
      [constructor; [reflexivity|exact F]|exact F].
  - destruct (Builder.mo_cover options) as [[|c cover]|];
      try (injection El as <-; split; [cbn; lia|constructor]).
    destruct (imageSize (c :: cover)) as [info|]; [|discriminate El].
    destruct (Builder.im_type info) as [[|t type]|];
      try (injection El as <-; split; [cbn; lia|constructor]).
    destruct (mime (t :: type)) as [[|m mimeType]|];
      injection El as <-; split; cbn; try lia; repeat constructor.
Qed.

Lemma reading_order_starts_with_the_contents_witness :
  exists manifest,
    Builder.generateManifest DemoBuilder.imageSize DemoBuilder.mime
      (lit "/book/dist/manifest.json") DemoBuilder.options =
      Some (lit "/book/dist/manifest.json", manifest) /\
    map Builder.me_href (Builder.mf_readingOrder manifest) =
      [lit "toc.html"; lit "chapter1.html"; lit "chapter2.html"] /\
    List.length (Builder.mf_links manifest) <= 1.
Proof.
  eexists. split; [vm_compute; reflexivity|].
  destruct (reading_order_starts_with_the_contents DemoBuilder.imageSize
              DemoBuilder.mime (lit "/book/dist/manifest.json")
              DemoBuilder.options (lit "/book/dist/manifest.json") _
              eq_refl) as (_ & Ho & _ & _ & Hl & _).
  split; [exact Ho|exact Hl].
Defined.
